(** * Airport ride pooling: matching and allocation engine

    A shallow embedding of the pooling backend
    ([src/services/pooling.service.ts], [src/utils/geo.ts],
    [src/controllers/booking.controller.ts], [src/services/pricing.service.ts])
    and the properties of its matching, allocation and cancellation paths.

    JavaScript numbers are IEEE-754 binary64 values: they are modelled by
    Rocq's primitive floats, whose [+], [-], [*], [/], [sqrt] and [<=?]
    are the IEEE operations.  [Math.sin], [Math.cos] and [Math.atan2] are
    implementation-approximated in ECMAScript; they are fields of a
    [JSRuntime] record the whole development is parametric in.

    The Prisma store is a record of tables (lists of rows in store order).
    Every [await prisma...] call is one atomic store operation; a service
    function is a program over these operations ([Prog]), which can be run
    alone ([run]) or interleaved with other programs ([interleave]). *)

From Stdlib Require Import String Arith ZArith Bool Lia Floats Permutation List.
Import ListNotations.

Set Implicit Arguments.
Set Warnings "-register-all,-inexact-float".

(* ================================================================= *)
(** ** JavaScript values and numbers *)

Module JS.

(** The number [Math.PI]. *)
Definition Math_PI : float := 0x1.921fb54442d18p+1%float.

(** What a parsed JSON request body can hold, plus [undefined] for an
    absent property. *)
Inductive value : Type :=
| Undefined
| Null
| Bool (b : bool)
| Num (x : float)
| Str (s : string)
| Arr (items : list value)
| Obj (fields : list (string * value)).

(** The parts of the JavaScript runtime the code relies on and ECMAScript
    leaves to the implementation (or that are not modelled here in
    detail): the three libm functions, and the conversion to a number of
    strings and arrays. *)
Record JSRuntime : Type := {
  Math_sin : float -> float;
  Math_cos : float -> float;
  Math_atan2 : float -> float -> float;
  StringToNumber : string -> float;
  ArrayToNumber : list value -> float
}.

(** ECMAScript [ToBoolean]: [undefined], [null], [false], [+0], [-0],
    [NaN] and the empty string are falsy, everything else is truthy. *)
Definition truthy (v : value) : bool :=
  match v with
  | Undefined | Null => false
  | Bool b => b
  | Num x => negb (PrimFloat.eqb x 0%float || PrimFloat.is_nan x)
  | Str s => negb (String.eqb s EmptyString)
  | Arr _ | Obj _ => true
  end.

(** The value of property [key] among the fields of a parsed object
    (whose names are distinct), [undefined] when there is none. *)
Fixpoint lookup (key : string) (fields : list (string * value)) : value :=
  match fields with
  | [] => Undefined
  | (k, v) :: rest => if String.eqb k key then v else lookup key rest
  end.

(** Property read [v.key] on a value that is not [undefined] or [null]:
    own property of an object; a primitive or an array has no property
    of the names used here ([lat], [lng], [userId], ...). *)
Definition get (v : value) (key : string) : value :=
  match v with
  | Obj fields => lookup key fields
  | _ => Undefined
  end.

(** ECMAScript [ToNumber], as the arithmetic operators [-] and [*] apply
    it to their operands. *)
Definition ToNumber (rt : JSRuntime) (v : value) : float :=
  match v with
  | Undefined => PrimFloat.nan
  | Null => 0%float
  | Bool b => if b then 1%float else 0%float
  | Num x => x
  | Str s => StringToNumber rt s
  | Arr items => ArrayToNumber rt items
  | Obj _ => PrimFloat.nan
  end.

End JS.

Import JS.

(* ================================================================= *)
(** ** Geometry ([src/utils/geo.ts]) *)

Record Point : Type := { lat : float; lng : float }.

Section Geo.

Variable rt : JSRuntime.

Open Scope float_scope.

Definition toRad (val : float) : float := (val * Math_PI) / 180.

(** Haversine distance between two points, in km. *)
Definition calculateDistance (p1 p2 : Point) : float :=
  let R := 6371 in
  let dLat := toRad (lat p2 - lat p1) in
  let dLng := toRad (lng p2 - lng p1) in
  let a :=
    Math_sin rt (dLat / 2) * Math_sin rt (dLat / 2) +
    Math_cos rt (toRad (lat p1)) * Math_cos rt (toRad (lat p2)) *
    Math_sin rt (dLng / 2) * Math_sin rt (dLng / 2) in
  let c := 2 * Math_atan2 rt (PrimFloat.sqrt a) (PrimFloat.sqrt (1 - a)) in
  R * c.

Definition origin : Point := {| lat := 0; lng := 0 |}.

(** The [for (let i = 0; i < points.length - 1; i++)] loop: the indices
    visited are [0 .. length - 2] (none when the array has fewer than two
    points), and [points[i]], [points[i + 1]] are always in range. *)
Definition calculatePathDistance (points : list Point) : float :=
  fold_left
    (fun totalDistance i =>
       totalDistance +
       calculateDistance (nth i points origin) (nth (i + 1) points origin))
    (seq 0 (length points - 1))
    0.

End Geo.

(* ================================================================= *)
(** ** Data model *)

Definition DriverId := nat.
Definition RideId := nat.
Definition BookingId := nat.
Definition UserId := string.

(** The Prisma schema ([prisma/schema.prisma]) is not among the sources:
    the status enumerations and the tables below follow the spec's data
    model and the columns the code reads and writes.  Columns that no
    operation of the engine looks at (names, e-mail addresses, a driver's
    current location) are left out. *)

(** Modelled from the spec: the [DriverStatus] enumeration of the schema;
    a vehicle's status is AVAILABLE or BUSY. *)
Inductive DriverStatus : Type := AVAILABLE | BUSY.

(** Modelled from the spec: the [RideStatus] enumeration of the schema; a
    trip's status is SCHEDULED or COMPLETED. *)
Inductive RideStatus : Type := SCHEDULED | COMPLETED.

(** Modelled from the spec: the status of a [Booking] in the schema; a
    request's status is PENDING, CONFIRMED or CANCELLED. *)
Inductive BookingStatus : Type := PENDING | CONFIRMED | CANCELLED.

Definition DriverStatus_eqb (a b : DriverStatus) : bool :=
  match a, b with
  | AVAILABLE, AVAILABLE | BUSY, BUSY => true
  | _, _ => false
  end.

Definition RideStatus_eqb (a b : RideStatus) : bool :=
  match a, b with
  | SCHEDULED, SCHEDULED | COMPLETED, COMPLETED => true
  | _, _ => false
  end.

Definition BookingStatus_eqb (a b : BookingStatus) : bool :=
  match a, b with
  | PENDING, PENDING | CONFIRMED, CONFIRMED | CANCELLED, CANCELLED => true
  | _, _ => false
  end.

(** Modelled from the spec: the [Driver] model of the schema (identity,
    capacity, status). *)
Record Driver : Type := {
  driver_id : DriverId;
  capacity : Z;
  driver_status : DriverStatus
}.

(** Modelled from the spec: the [Ride] model of the schema (identity,
    assigned vehicle, status, ordered stop path).  [path] is a JSON
    column: [None] is a null path, which the code reads as the empty
    array ([ride.path || []]). *)
Record Ride : Type := {
  ride_id : RideId;
  driverId : DriverId;
  ride_status : RideStatus;
  path : option (list Point)
}.

(** Modelled from the spec: the [Booking] model of the schema (identity,
    owning user, pickup, dropoff, price, status, optional trip). *)
Record Booking : Type := {
  booking_id : BookingId;
  userId : UserId;
  pickup : Point;
  dropoff : Point;
  price : float;
  booking_status : BookingStatus;
  rideId : option RideId
}.

(** The store: one list of rows per table, in store order. *)
Record DB : Type := {
  users : list UserId;
  drivers : list Driver;
  rides : list Ride;
  bookings : list Booking
}.

Definition set_driver_status (s : DriverStatus) (d : Driver) : Driver :=
  {| driver_id := driver_id d; capacity := capacity d; driver_status := s |}.

Definition set_ride_status (s : RideStatus) (r : Ride) : Ride :=
  {| ride_id := ride_id r; driverId := driverId r; ride_status := s;
     path := path r |}.

Definition set_ride_path (p : list Point) (r : Ride) : Ride :=
  {| ride_id := ride_id r; driverId := driverId r;
     ride_status := ride_status r; path := Some p |}.

Definition set_booking_status (s : BookingStatus) (b : Booking) : Booking :=
  {| booking_id := booking_id b; userId := userId b; pickup := pickup b;
     dropoff := dropoff b; price := price b; booking_status := s;
     rideId := rideId b |}.

Definition set_booking_ride (r : RideId) (s : BookingStatus) (b : Booking)
  : Booking :=
  {| booking_id := booking_id b; userId := userId b; pickup := pickup b;
     dropoff := dropoff b; price := price b; booking_status := s;
     rideId := Some r |}.

Definition with_drivers (ds : list Driver) (db : DB) : DB :=
  {| users := users db; drivers := ds; rides := rides db;
     bookings := bookings db |}.

Definition with_rides (rs : list Ride) (db : DB) : DB :=
  {| users := users db; drivers := drivers db; rides := rs;
     bookings := bookings db |}.

Definition with_bookings (bs : list Booking) (db : DB) : DB :=
  {| users := users db; drivers := drivers db; rides := rides db;
     bookings := bs |}.

(** A ride with its [bookings] and [driver] relations loaded
    ([include: { bookings: true, driver: true }]). *)
Record RideIncl : Type := {
  ri_ride : Ride;
  ri_bookings : list Booking;
  ri_driver : Driver
}.

(** A booking with [include: { ride: { include: { bookings: true } } }]. *)
Record BookingIncl : Type := {
  bi_booking : Booking;
  bi_ride : option (Ride * list Booking)
}.

(* ================================================================= *)
(** ** The store's operations *)

Definition is_available (d : Driver) : bool :=
  DriverStatus_eqb (driver_status d) AVAILABLE.
Definition is_busy (d : Driver) : bool :=
  DriverStatus_eqb (driver_status d) BUSY.
Definition is_scheduled (r : Ride) : bool :=
  RideStatus_eqb (ride_status r) SCHEDULED.
Definition is_cancelled (b : Booking) : bool :=
  BookingStatus_eqb (booking_status b) CANCELLED.

Definition find_driver (id : DriverId) (db : DB) : option Driver :=
  find (fun d => driver_id d =? id) (drivers db).
Definition find_ride (id : RideId) (db : DB) : option Ride :=
  find (fun r => ride_id r =? id) (rides db).
Definition find_booking (id : BookingId) (db : DB) : option Booking :=
  find (fun b => booking_id b =? id) (bookings db).

Definition on_ride (id : RideId) (b : Booking) : bool :=
  match rideId b with
  | Some r => r =? id
  | None => false
  end.

(** The [bookings] relation of a ride: the bookings whose [rideId] is the
    ride's id, whatever their status. *)
Definition bookings_of (id : RideId) (db : DB) : list Booking :=
  filter (on_ride id) (bookings db).

(** Rows that match [sel] are rewritten by [f]; the others are kept. *)
Definition update_where {A} (sel : A -> bool) (f : A -> A) (rows : list A)
  : list A :=
  map (fun r => if sel r then f r else r) rows.

(** A generated primary key: one that no row of the table has. *)
Definition fresh (ids : list nat) : nat := S (list_max ids).

(** *** Statements inside a transaction

    A transaction body is a function of the store that either commits a
    new store and a result, or throws ([None]): then nothing is written. *)
Definition Tx (X : Type) : Type := DB -> option (DB * X).

Definition tx_ret {X} (x : X) : Tx X := fun db => Some (db, x).

Definition tx_bind {X Y} (m : Tx X) (f : X -> Tx Y) : Tx Y :=
  fun db =>
    match m db with
    | Some (db', x) => f x db'
    | None => None
    end.

(** [tx.ride.create({ data: { driverId, status, path } })]. *)
Definition tx_ride_create (d : DriverId) (s : RideStatus) (p : list Point)
  : Tx Ride :=
  fun db =>
    let ride := {| ride_id := fresh (map ride_id (rides db)); driverId := d;
                   ride_status := s; path := Some p |} in
    Some (with_rides (rides db ++ [ride]) db, ride).

(** [tx.booking.update({ where: { id }, data })]: throws when no booking
    has this id. *)
Definition tx_booking_update (id : BookingId) (data : Booking -> Booking)
  : Tx Booking :=
  fun db =>
    match find_booking id db with
    | Some b =>
        Some (with_bookings
                (update_where (fun x => booking_id x =? id) data (bookings db))
                db,
              data b)
    | None => None
    end.

(** [tx.ride.update({ where: { id }, data })]. *)
Definition tx_ride_update (id : RideId) (data : Ride -> Ride) : Tx Ride :=
  fun db =>
    match find_ride id db with
    | Some r =>
        Some (with_rides
                (update_where (fun x => ride_id x =? id) data (rides db)) db,
              data r)
    | None => None
    end.

(** [tx.driver.update({ where: { id }, data })]. *)
Definition tx_driver_update (id : DriverId) (data : Driver -> Driver)
  : Tx Driver :=
  fun db =>
    match find_driver id db with
    | Some d =>
        Some (with_drivers
                (update_where (fun x => driver_id x =? id) data (drivers db))
                db,
              data d)
    | None => None
    end.

(** *** The conditional claim

    [driver.updateMany({ where: { id, status: AVAILABLE },
                         data: { status: BUSY } })] is a single statement
    of the store. *)

(** The rows the claim of vehicle [id] rewrites: those with this id that
    are AVAILABLE. *)
Definition claim_sel (id : DriverId) (d : Driver) : bool :=
  (driver_id d =? id) && is_available d.

(** The [count] the claim of vehicle [id] reports: the number of rows it
    rewrites. *)
Definition claim_count (id : DriverId) (db : DB) : nat :=
  List.length (filter (claim_sel id) (drivers db)).

(** The store after the claim of vehicle [id]. *)
Definition claimed (id : DriverId) (db : DB) : DB :=
  with_drivers (update_where (claim_sel id) (set_driver_status BUSY)
                  (drivers db)) db.

(** *** Store operations

    One constructor per Prisma call the code awaits.  The type index is
    the type of the value the call resolves to. *)
Inductive StoreOp : Type -> Type :=
(* [ride.findMany({ where: { status: SCHEDULED },
                     include: { bookings: true, driver: true } })] *)
| ride_findMany_scheduled : StoreOp (list RideIncl)
(* [ride.findUnique({ where: { id } })] *)
| ride_findUnique (id : RideId) : StoreOp (option Ride)
(* [driver.findMany({ where: { status: AVAILABLE }, take })] *)
| driver_findMany_available (take : nat) : StoreOp (list Driver)
(* [driver.updateMany({ where: { id, status: AVAILABLE },
                         data: { status: BUSY } })], resolving to [count] *)
| driver_updateMany_claim (id : DriverId) : StoreOp nat
(* [driver.update({ where: { id }, data: { status } })] *)
| driver_update (id : DriverId) (s : DriverStatus) : StoreOp Driver
(* [driver.count({ where })], [None] for no filter *)
| driver_count (where_status : option DriverStatus) : StoreOp nat
(* [booking.create({ data: { userId, pickup, dropoff, price,
                              status: PENDING } })] *)
| booking_create (user : JS.value) (p d : Point) (cost : float)
  : StoreOp Booking
(* [booking.findUnique({ where: { id },
       include: { ride: { include: { bookings: true } } } })] *)
| booking_findUnique (id : BookingId) : StoreOp (option BookingIncl)
(* [prisma.$transaction(async (tx) => body)] *)
| transaction (X : Type) (body : Tx X) : StoreOp X.

(** How an awaited call ends: it resolves to a value or it rejects. *)
Inductive outcome (A : Type) : Type :=
| Returned (a : A)
| Thrown.
Arguments Thrown {A}.

Fixpoint load_rides (db : DB) (rs : list Ride) : option (list RideIncl) :=
  match rs with
  | [] => Some []
  | r :: rest =>
      match find_driver (driverId r) db, load_rides db rest with
      | Some d, Some l =>
          Some ({| ri_ride := r; ri_bookings := bookings_of (ride_id r) db;
                   ri_driver := d |} :: l)
      | _, _ => None
      end
  end.

Definition load_booking (db : DB) (b : Booking) : BookingIncl :=
  {| bi_booking := b;
     bi_ride :=
       match rideId b with
       | Some r =>
           match find_ride r db with
           | Some ride => Some (ride, bookings_of (ride_id ride) db)
           | None => None
           end
       | None => None
       end |}.

Definition of_option {X} (db : DB) (r : option (DB * X)) : DB * outcome X :=
  match r with
  | Some (db', x) => (db', Returned x)
  | None => (db, Thrown)
  end.

(** The effect of one store operation.  Each is atomic: it maps the store
    before to the store after and the call's outcome. *)
Definition exec {X} (op : StoreOp X) (db : DB) : DB * outcome X :=
  match op in StoreOp T return DB * outcome T with
  | ride_findMany_scheduled =>
      match load_rides db (filter is_scheduled (rides db)) with
      | Some l => (db, Returned l)
      | None => (db, Thrown)
      end
  | ride_findUnique id => (db, Returned (find_ride id db))
  | driver_findMany_available take =>
      (db, Returned (firstn take (filter is_available (drivers db))))
  | driver_updateMany_claim id => (claimed id db, Returned (claim_count id db))
  | driver_update id s =>
      of_option db (tx_driver_update id (set_driver_status s) db)
  | driver_count None => (db, Returned (List.length (drivers db)))
  | driver_count (Some s) =>
      (db, Returned
             (List.length
                (filter (fun d => DriverStatus_eqb (driver_status d) s)
                        (drivers db))))
  | booking_create user p d cost =>
      match user with
      | Str u =>
          if existsb (String.eqb u) (users db) then
            let b := {| booking_id := fresh (map booking_id (bookings db));
                        userId := u; pickup := p; dropoff := d; price := cost;
                        booking_status := PENDING; rideId := None |} in
            (with_bookings (bookings db ++ [b]) db, Returned b)
          else (db, Thrown)
      | _ => (db, Thrown)
      end
  | booking_findUnique id =>
      (db, Returned (option_map (load_booking db) (find_booking id db)))
  | transaction body => of_option db (body db)
  end.

(* ================================================================= *)
(** ** Programs over the store *)

(** An [async] function: it returns, throws, or awaits a store operation
    and goes on with its outcome. *)
Inductive Prog (A : Type) : Type :=
| Ret (a : A)
| Throw
| Await (X : Type) (op : StoreOp X) (k : outcome X -> Prog A).
Arguments Throw {A}.
Arguments Await {A X} op k.

(** [await op]: a rejection propagates. *)
Definition call {A X} (op : StoreOp X) (k : X -> Prog A) : Prog A :=
  Await op (fun r => match r with Returned x => k x | Thrown => Throw end).

Fixpoint bind {A B} (p : Prog A) (f : A -> Prog B) : Prog B :=
  match p with
  | Ret a => f a
  | Throw => Throw
  | Await op k => Await op (fun r => bind (k r) f)
  end.

(** [try { p } catch { handler }]. *)
Fixpoint try_catch {A} (p : Prog A) (handler : Prog A) : Prog A :=
  match p with
  | Ret a => Ret a
  | Throw => handler
  | Await op k => Await op (fun r => try_catch (k r) handler)
  end.

(** A program run on its own, with no other worker in between. *)
Fixpoint run {A} (p : Prog A) (db : DB) : DB * outcome A :=
  match p with
  | Ret a => (db, Returned a)
  | Throw => (db, Thrown)
  | Await op k => let (db', r) := exec op db in run (k r) db'
  end.

(** One store operation of a program. *)
Definition step {A} (p : Prog A) (db : DB) : DB * Prog A :=
  match p with
  | Await op k => let (db', r) := exec op db in (db', k r)
  | _ => (db, p)
  end.

(** Concurrent workers: the schedule names, operation by operation, the
    worker whose next store operation runs.  A worker that has finished,
    or an index that names no worker, takes no step. *)
Fixpoint interleave {A} (schedule : list nat) (workers : list (Prog A))
  (db : DB) : DB * list (Prog A) :=
  match schedule with
  | [] => (db, workers)
  | i :: rest =>
      match nth_error workers i with
      | Some p =>
          let (db', p') := step p db in
          interleave rest
            (firstn i workers ++ p' :: skipn (S i) workers) db'
      | None => interleave rest workers db
      end
  end.

Notation "x <- p ;; q" := (bind p (fun x => q))
  (at level 61, p at next level, right associativity).
Notation "x <~ op ;; q" := (call op (fun x => q))
  (at level 61, op at next level, right associativity).

(* ================================================================= *)
(** ** The pooling service ([src/services/pooling.service.ts]) *)

Definition MAX_DEVIATION_PERCENT : float := 0.5%float.
Definition MAX_SEATS : Z := 4%Z.

Section PoolingService.

Variable rt : JSRuntime.

Definition path_or_empty (r : Ride) : list Point :=
  match path r with
  | Some p => p
  | None => []
  end.

(** [sumDirectDistances] after the loop over [ride.bookings]: every
    booking of the relation is added, in order, to the new passenger's
    direct distance. *)
Definition sumDirectDistances (bs : list Booking) (directDistNew : float)
  : float :=
  fold_left
    (fun sum booking =>
       (sum + calculateDistance rt (pickup booking) (dropoff booking))%float)
    bs directDistNew.

Definition isPathValid (ride : RideIncl) (newPickup newDropoff : Point)
  : bool :=
  let currentPath := path_or_empty (ri_ride ride) in
  let newPath := currentPath ++ [newPickup; newDropoff] in
  let newTotalDist := calculatePathDistance rt newPath in
  let directDistNew := calculateDistance rt newPickup newDropoff in
  let maxAllowedDist :=
    (sumDirectDistances (ri_bookings ride) directDistNew
     * (1 + MAX_DEVIATION_PERCENT))%float in
  (newTotalDist <=? maxAllowedDist)%float.

(** [ride.driver.capacity || MAX_SEATS]: a capacity of 0 is falsy. *)
Definition seats (d : Driver) : Z :=
  if (capacity d =? 0)%Z then MAX_SEATS else capacity d.

(** The capacity check of the scan: [true] when the ride is skipped. *)
Definition capacity_reached (ride : RideIncl) : bool :=
  (Z.of_nat (List.length (ri_bookings ride)) >=? seats (ri_driver ride))%Z.

(** The [for (const ride of rides)] loop of [findExistingRide]. *)
Fixpoint scanRides (rs : list RideIncl) (p d : Point) : option Ride :=
  match rs with
  | [] => None
  | ride :: rest =>
      if capacity_reached ride then scanRides rest p d
      else if isPathValid ride p d then Some (ri_ride ride)
      else scanRides rest p d
  end.

Definition findExistingRide (p d : Point) : Prog (option Ride) :=
  rs <~ ride_findMany_scheduled ;;
  Ret (scanRides rs p d).

Definition addBookingToRide (ride : RideId) (booking : BookingId)
  (p d : Point) : Prog Ride :=
  found <~ ride_findUnique ride ;;
  let currentPath :=
    match found with
    | Some r => path_or_empty r
    | None => []
    end in
  let newPath := currentPath ++ [p; d] in
  r <~ transaction
         (tx_bind (tx_booking_update booking (set_booking_ride ride CONFIRMED))
            (fun _ => tx_ride_update ride (set_ride_path newPath))) ;;
  Ret r.

(** The transaction of [createNewRide] once [candidate] is claimed. *)
Definition newRideTx (candidate : DriverId) (booking : BookingId)
  (p d : Point) : Tx Ride :=
  tx_bind (tx_ride_create candidate SCHEDULED [p; d])
    (fun ride =>
       tx_bind
         (tx_booking_update booking (set_booking_ride (ride_id ride) CONFIRMED))
         (fun _ => tx_ret ride)).

(** The body of [if (result.count > 0)]: the transaction in its [try],
    and the [catch] that puts the vehicle back to AVAILABLE. *)
Definition useCandidate (candidate : DriverId) (booking : BookingId)
  (p d : Point) : Prog (option Ride) :=
  Await (transaction (newRideTx candidate booking p d))
    (fun r =>
       match r with
       | Returned ride => Ret (Some ride)
       | Thrown =>
           _ <~ driver_update candidate AVAILABLE ;;
           Ret None
       end).

(** The [for (const candidate of candidates)] loop of [createNewRide]. *)
Fixpoint claimLoop (candidates : list Driver) (booking : BookingId)
  (p d : Point) : Prog (option Ride) :=
  match candidates with
  | [] => Ret None
  | candidate :: rest =>
      count <~ driver_updateMany_claim (driver_id candidate) ;;
      if 0 <? count then useCandidate (driver_id candidate) booking p d
      else claimLoop rest booking p d
  end.

Definition createNewRide (booking : BookingId) (p d : Point)
  : Prog (option Ride) :=
  candidates <~ driver_findMany_available 5 ;;
  claimLoop candidates booking p d.

Definition matchRide (booking : BookingId) (p d : Point)
  : Prog (option Ride) :=
  existingRide <- findExistingRide p d ;;
  match existingRide with
  | Some r =>
      ride <- addBookingToRide (ride_id r) booking p d ;;
      Ret (Some ride)
  | None => createNewRide booking p d
  end.

End PoolingService.

(* ================================================================= *)
(** ** Pricing ([src/services/pricing.service.ts]) *)

(** A row count as a JavaScript number. *)
Definition number_of_nat (n : nat) : float :=
  PrimFloat.of_uint63 (Uint63.of_Z (Z.of_nat n)).

Definition calculatePrice (distanceKm : float) : Prog float :=
  let BASE_PRICE := 50%float in
  let PER_KM_PRICE := 12%float in
  totalDrivers <~ driver_count None ;;
  busyDrivers <~ driver_count (Some BUSY) ;;
  let multiplier :=
    if 0 <? totalDrivers then
      let utilization :=
        (number_of_nat busyDrivers / number_of_nat totalDrivers)%float in
      if (0.8 <? utilization)%float then 1.5%float
      else if (0.5 <? utilization)%float then 1.2%float
      else 1.0%float
    else 1.0%float in
  Ret ((BASE_PRICE + distanceKm * PER_KM_PRICE) * multiplier)%float.

(* ================================================================= *)
(** ** The booking controller ([src/controllers/booking.controller.ts]) *)

Inductive Body : Type :=
| error_body (error : string)
| message_body (message : string)
| confirmed_body (bookingId : BookingId) (ride : RideId) (cost : float)
| pending_body (bookingId : BookingId) (message : string) (cost : float).

(** [res.status(code).json(body)]. *)
Record Response : Type := { status_code : nat; body : Body }.

Definition json (code : nat) (b : Body) : Response :=
  {| status_code := code; body := b |}.

Section BookingController.

Variable rt : JSRuntime.

(** The cast [pickup as Point]: the coordinates are only ever operands
    of [-] and [*], which convert them with [ToNumber]. *)
Definition asPoint (v : JS.value) : Point :=
  {| lat := ToNumber rt (get v "lat"); lng := ToNumber rt (get v "lng") |}.

(** The condition of the input check:
    [!pickup || !dropoff || !pickup.lat || !dropoff.lat]. *)
Definition invalidCoordinates (pickup dropoff : JS.value) : bool :=
  negb (truthy pickup) || negb (truthy dropoff)
  || negb (truthy (get pickup "lat")) || negb (truthy (get dropoff "lat")).

Definition invalid_coordinates_response : Response :=
  json 400 (error_body "Invalid pickup or dropoff coordinates").

(** [reqBody] is [req.body]. Destructuring [undefined] or [null] throws. *)
Definition createBooking (reqBody : JS.value) : Prog Response :=
  try_catch
    (match reqBody with
     | Undefined | Null => Throw
     | _ =>
         let user := get reqBody "userId" in
         let pickup := get reqBody "pickup" in
         let dropoff := get reqBody "dropoff" in
         if invalidCoordinates pickup dropoff then
           Ret invalid_coordinates_response
         else
           let distance :=
             calculateDistance rt (asPoint pickup) (asPoint dropoff) in
           cost <- calculatePrice distance ;;
           booking <~ booking_create user (asPoint pickup) (asPoint dropoff)
                        cost ;;
           ride <- matchRide rt (booking_id booking) (asPoint pickup)
                     (asPoint dropoff) ;;
           match ride with
           | Some r =>
               Ret (json 201
                      (confirmed_body (booking_id booking) (ride_id r) cost))
           | None =>
               Ret (json 201
                      (pending_body (booking_id booking)
                         "No driver available yet. We are searching." cost))
           end
     end)
    (Ret (json 500 (error_body "Failed to create booking"))).

(** [activeBookingsCount]: the bookings of the ride, as loaded before the
    transaction, other than the cancelled one and not CANCELLED. *)
Definition activeBookingsCount (booking : Booking) (loaded : list Booking)
  : nat :=
  List.length
    (filter (fun b => negb (booking_id b =? booking_id booking)
                      && negb (is_cancelled b))
            loaded).

(** The body of the cancellation transaction. *)
Definition cancelTx (booking : BookingIncl) : Tx unit :=
  tx_bind
    (tx_booking_update (booking_id (bi_booking booking))
       (set_booking_status CANCELLED))
    (fun _ =>
       match bi_ride booking with
       | Some (ride, loaded) =>
           if activeBookingsCount (bi_booking booking) loaded =? 0 then
             tx_bind (tx_ride_update (ride_id ride) (set_ride_status COMPLETED))
               (fun _ =>
                  tx_bind
                    (tx_driver_update (driverId ride)
                       (set_driver_status AVAILABLE))
                    (fun _ => tx_ret tt))
           else tx_ret tt
       | None => tx_ret tt
       end).

Definition booking_id_required : Response :=
  json 400 (error_body "Booking ID is required").
Definition booking_not_found : Response :=
  json 404 (error_body "Booking not found").
Definition booking_already_cancelled : Response :=
  json 400 (error_body "Booking already cancelled").
Definition booking_cancelled : Response :=
  json 200 (message_body "Booking cancelled successfully").
Definition cancel_failed : Response :=
  json 500 (error_body "Failed to cancel booking").

(** [id] is [req.params.id]; [None] is a missing or empty parameter. *)
Definition cancelBooking (id : option BookingId) : Prog Response :=
  try_catch
    (match id with
     | None => Ret booking_id_required
     | Some id =>
         booking <~ booking_findUnique id ;;
         match booking with
         | None => Ret booking_not_found
         | Some b =>
             if is_cancelled (bi_booking b) then Ret booking_already_cancelled
             else
               _ <~ transaction (cancelTx b) ;;
               Ret booking_cancelled
         end
     end)
    (Ret cancel_failed).

End BookingController.

(* ================================================================= *)
(** ** A reference runtime

    Concrete runs need concrete [Math.sin], [Math.cos] and [Math.atan2].
    The functions below evaluate the usual power series in binary64
    arithmetic; on the arguments the haversine formula produces (angles
    of at most a few radians, both arguments of [atan2] non-negative)
    they agree with a production libm to well within one part in 10^12.
    The conversions of strings and arrays are kept to their simplest
    cases: the empty string and the empty array convert to 0, everything
    else to NaN (which is ECMAScript's answer for a string that is not a
    numeric literal); the concrete runs of this file convert no numeric
    string and no array. *)

Module RefRuntime.

Open Scope float_scope.

(** [acc + t1 + t2 + ...] with [t(i+1) = - t(i) * x2 / ((k + 1) * (k + 2))],
    [k] growing by 2 at each term. *)
Fixpoint alternating (fuel : nat) (x2 term k acc : float) : float :=
  match fuel with
  | O => acc
  | S fuel' =>
      let term' := - (term * x2) / ((k + 1) * (k + 2)) in
      alternating fuel' x2 term' (k + 2) (acc + term')
  end.

Definition sin (x : float) : float := alternating 24 (x * x) x 1 x.
Definition cos (x : float) : float := alternating 24 (x * x) 1 0 1.

(** [t - t^3/3 + t^5/5 - ...] for a small [t]. *)
Fixpoint gregory (fuel : nat) (t2 power k acc : float) : float :=
  match fuel with
  | O => acc
  | S fuel' =>
      let power' := - (power * t2) in
      gregory fuel' t2 power' (k + 2) (acc + power' / (k + 2))
  end.

Definition halve (t : float) : float := t / (1 + PrimFloat.sqrt (1 + t * t)).

(** [atan t = 8 * atan (halve (halve (halve t)))]. *)
Definition atan (t : float) : float :=
  let u := halve (halve (halve t)) in
  8 * gregory 16 (u * u) u 1 u.

Definition atan2 (y x : float) : float :=
  if PrimFloat.is_nan y || PrimFloat.is_nan x then PrimFloat.nan
  else if 0 <? x then atan (y / x)
  else if x <? 0 then
    (if y <? 0 then atan (y / x) - Math_PI else atan (y / x) + Math_PI)
  else if 0 <? y then Math_PI / 2
  else if y <? 0 then - (Math_PI / 2)
  else 0.

Definition runtime : JSRuntime :=
  {| Math_sin := sin;
     Math_cos := cos;
     Math_atan2 := atan2;
     StringToNumber :=
       fun s => if String.eqb s EmptyString then 0 else PrimFloat.nan;
     ArrayToNumber :=
       fun items => match items with [] => 0 | _ => PrimFloat.nan end |}.

End RefRuntime.

(* ================================================================= *)
(** ** The statements' vocabulary *)

(** The consecutive pairs of an ordered sequence of stops. *)
Fixpoint consecutive (points : list Point) : list (Point * Point) :=
  match points with
  | [] => []
  | a :: rest =>
      match rest with
      | [] => []
      | b :: _ => (a, b) :: consecutive rest
      end
  end.

Section Vocabulary.

Variable rt : JSRuntime.

(** The spec's [pathLength]: the sum of [distance] over the consecutive
    pairs of the sequence, from the first pair on; 0 for an empty or
    single-point sequence. *)
Definition pathLength (points : list Point) : float :=
  fold_left
    (fun acc pq => (acc + calculateDistance rt (fst pq) (snd pq))%float)
    (consecutive points) 0%float.

(** A booking's direct (pickup to dropoff) distance. *)
Definition directDistance (b : Booking) : float :=
  calculateDistance rt (pickup b) (dropoff b).

(** The new request's direct distance plus those of every attached
    request, whatever its status, added in the order of the relation. *)
Definition sumDirect_attached (bs : list Booking) (p d : Point) : float :=
  fold_left PrimFloat.add (map directDistance bs) (calculateDistance rt p d).

(** The same sum over the attached requests that are not CANCELLED. *)
Definition sumDirect_active (bs : list Booking) (p d : Point) : float :=
  sumDirect_attached (filter (fun b => negb (is_cancelled b)) bs) p d.

(** The deviation bound: the path with the new pickup and dropoff
    appended is at most [sumDirect * 1.5] long. *)
Definition within_deviation (currentPath : list Point) (p d : Point)
  (sumDirect : float) : bool :=
  (pathLength (currentPath ++ [p; d]) <=? sumDirect * 1.5)%float.

End Vocabulary.

(** Requests that count towards a trip's capacity: attached and not
    CANCELLED. *)
Definition active_requests (ride : RideIncl) : list Booking :=
  filter (fun b => negb (is_cancelled b)) (ri_bookings ride).

(** The other requests of trip [r] that still count once request [id] is
    cancelled: attached to [r], not [id], not CANCELLED. *)
Definition other_active (id : BookingId) (r : RideId) (db : DB)
  : list Booking :=
  filter (fun x => on_ride r x && negb (booking_id x =? id)
                   && negb (is_cancelled x))
         (bookings db).

(** The store after the booking rows with id [id] are marked CANCELLED. *)
Definition marked_cancelled (id : BookingId) (db : DB) : DB :=
  with_bookings
    (update_where (fun x => booking_id x =? id) (set_booking_status CANCELLED)
       (bookings db)) db.

(** The store after trip [r] is closed and vehicle [d] released. *)
Definition trip_closed (r : RideId) (d : DriverId) (db : DB) : DB :=
  with_drivers
    (update_where (fun x => driver_id x =? d) (set_driver_status AVAILABLE)
       (drivers db))
    (with_rides
       (update_where (fun x => ride_id x =? r) (set_ride_status COMPLETED)
          (rides db)) db).

(** The store after the claim of vehicle [id] is taken back. *)
Definition released (id : DriverId) (db : DB) : DB :=
  with_drivers
    (update_where (fun x => driver_id x =? id) (set_driver_status AVAILABLE)
       (drivers db)) db.

(** The trip [createNewRide] creates for vehicle [c]. *)
Definition new_ride (c : DriverId) (p d : Point) (db : DB) : Ride :=
  {| ride_id := fresh (map ride_id (rides db)); driverId := c;
     ride_status := SCHEDULED; path := Some [p; d] |}.

(** The store after the transaction of [createNewRide]. *)
Definition ride_opened (c : DriverId) (b : BookingId) (p d : Point) (db : DB)
  : DB :=
  with_bookings
    (update_where (fun x => booking_id x =? b)
       (set_booking_ride (ride_id (new_ride c p d db)) CONFIRMED)
       (bookings db))
    (with_rides (rides db ++ [new_ride c p d db]) db).

(** The store after the transaction of [addBookingToRide]. *)
Definition joined (r : RideId) (b : BookingId) (newPath : list Point)
  (db : DB) : DB :=
  with_rides
    (update_where (fun x => ride_id x =? r) (set_ride_path newPath) (rides db))
    (with_bookings
       (update_where (fun x => booking_id x =? b)
          (set_booking_ride r CONFIRMED) (bookings db)) db).

(** *** Sequences of operations *)

Inductive Operation : Type :=
| MatchRequest (booking : BookingId) (p d : Point)
| CancelRequest (booking : BookingId).

Definition is_match (op : Operation) : bool :=
  match op with
  | MatchRequest _ _ _ => true
  | CancelRequest _ => false
  end.

(** One operation run to its end, no other worker in between. *)
Definition perform (rt : JSRuntime) (op : Operation) (db : DB) : DB :=
  match op with
  | MatchRequest b p d => fst (run (matchRide rt b p d) db)
  | CancelRequest b => fst (run (cancelBooking (Some b)) db)
  end.

Definition perform_all (rt : JSRuntime) (ops : list Operation) (db : DB)
  : DB :=
  fold_left (fun s op => perform rt op s) ops db.

Definition busy_count (db : DB) : nat :=
  List.length (filter is_busy (drivers db)).

Definition scheduled_count (db : DB) : nat :=
  List.length (filter is_scheduled (rides db)).

(** A state where every vehicle is AVAILABLE and no trip exists: no
    request can reference a trip, and vehicle ids are primary keys. *)
Definition initial_state (db : DB) : Prop :=
  rides db = []
  /\ (forall v, In v (drivers db) -> driver_status v = AVAILABLE)
  /\ NoDup (map driver_id (drivers db))
  /\ (forall b, In b (bookings db) -> rideId b = None).

(** What holds of the store between operations. *)
Record consistent (db : DB) : Prop := {
  driver_keys : NoDup (map driver_id (drivers db));
  ride_keys : NoDup (map ride_id (rides db));
  active_on_open_trip :
    forall b r, In b (bookings db) -> rideId b = Some r ->
                is_cancelled b = false ->
                exists trip, find_ride r db = Some trip
                             /\ is_scheduled trip = true;
  open_trip_vehicle_busy :
    forall trip, In trip (rides db) -> is_scheduled trip = true ->
                 exists v, find_driver (driverId trip) db = Some v
                           /\ is_busy v = true;
  open_trips_distinct_vehicles :
    NoDup (map driverId (filter is_scheduled (rides db)));
  busy_vehicle_on_open_trip :
    forall v, In v (drivers db) -> is_busy v = true ->
              exists trip, In trip (rides db) /\ is_scheduled trip = true
                           /\ driverId trip = driver_id v
}.

(** The effects an operation can have on the store. *)
Inductive transition (db : DB) : DB -> Prop :=
| t_none : transition db db
| t_join (r : RideId) (b : BookingId) (newPath : list Point) (trip : Ride) :
    find_ride r db = Some trip -> is_scheduled trip = true ->
    transition db (joined r b newPath db)
| t_open (c : DriverId) (b : BookingId) (p d : Point) (v : Driver) :
    find_driver c db = Some v -> is_available v = true ->
    transition db (ride_opened c b p d (claimed c db))
| t_cancel (id : BookingId) :
    transition db (marked_cancelled id db)
| t_close (id : BookingId) (r : RideId) (trip : Ride) :
    find_ride r db = Some trip -> is_scheduled trip = true ->
    other_active id r db = [] ->
    transition db (trip_closed r (driverId trip) (marked_cancelled id db)).

(** *** Concurrent claims *)

(** One caller's claim attempt on vehicle [v]: the conditional update,
    whose [count] the caller then holds. *)
Definition claimAttempt (v : DriverId) : Prog nat :=
  count <~ driver_updateMany_claim v ;;
  Ret count.

(** The caller's transition succeeded: it finished and its [count] is
    positive. *)
Definition succeeded (w : Prog nat) : bool :=
  match w with
  | Ret count => 0 <? count
  | _ => false
  end.

(** The caller has not run yet, or has finished with its [count]. *)
Definition attempt_state (v : DriverId) (w : Prog nat) : Prop :=
  w = claimAttempt v \/ exists count, w = Ret count.

(** *** Request bodies *)

(** The JSON object [{ lat, lng }]. *)
Definition coordinates (la ln : JS.value) : JS.value :=
  Obj [("lat"%string, la); ("lng"%string, ln)].

(** The JSON object [{ userId, pickup, dropoff }]. *)
Definition booking_request (user p d : JS.value) : JS.value :=
  Obj [("userId"%string, user); ("pickup"%string, p); ("dropoff"%string, d)].

(* ----------------------------------------------------------------- *)
(** *** Concrete inputs *)

Module Examples.

Definition A : Point := {| lat := 10; lng := 10 |}.
Definition B : Point := {| lat := 10.1; lng := 10 |}.
Definition C : Point := {| lat := 11; lng := 10 |}.

Definition booking (id : BookingId) (p d : Point) (s : BookingStatus)
  (r : option RideId) : Booking :=
  {| booking_id := id; userId := "u"%string; pickup := p; dropoff := d;
     price := 100; booking_status := s; rideId := r |}.

Definition driver (id : DriverId) (s : DriverStatus) : Driver :=
  {| driver_id := id; capacity := 4; driver_status := s |}.

(** A trip that served A -> B and B -> C; the second request was
    cancelled, its stops are still on the path. *)
Definition detour_ride : RideIncl :=
  {| ri_ride := {| ride_id := 1; driverId := 1; ride_status := SCHEDULED;
                   path := Some [A; B; B; C] |};
     ri_bookings := [booking 1 A B CONFIRMED (Some 1);
                     booking 2 B C CANCELLED (Some 1)];
     ri_driver := driver 1 BUSY |}.

Definition ride (id : RideId) (drv : DriverId) (s : RideStatus)
  (p : list Point) : Ride :=
  {| ride_id := id; driverId := drv; ride_status := s; path := Some p |}.

(** Two open trips: trip 1 serves request 1 alone; trip 2 serves
    requests 2 and 3, request 4 having been cancelled.  Request 5 is
    still PENDING. *)
Definition two_trips : DB :=
  {| users := ["u"%string];
     drivers := [driver 1 BUSY; driver 2 BUSY; driver 3 AVAILABLE];
     rides := [ride 1 1 SCHEDULED [A; B]; ride 2 2 SCHEDULED [A; B; B; C; A; C]];
     bookings := [booking 1 A B CONFIRMED (Some 1);
                  booking 2 A B CONFIRMED (Some 2);
                  booking 3 B C CONFIRMED (Some 2);
                  booking 4 A C CANCELLED (Some 2);
                  booking 5 C A PENDING None] |}.

(** Seven vehicles, read while all are AVAILABLE. *)
Definition fleet : DB :=
  {| users := ["u"%string];
     drivers := map (fun i => driver i AVAILABLE) [1; 2; 3; 4; 5; 6; 7];
     rides := [];
     bookings := [booking 1 A B PENDING None; booking 2 B C PENDING None] |}.

(** The same fleet once other workers have claimed vehicles 1 and 2. *)
Definition fleet_two_taken : DB :=
  {| users := ["u"%string];
     drivers := map (fun i => driver i BUSY) [1; 2]
                ++ map (fun i => driver i AVAILABLE) [3; 4; 5; 6; 7];
     rides := [];
     bookings := [booking 1 A B PENDING None; booking 2 B C PENDING None] |}.

(** The same fleet once other workers have claimed vehicles 1 to 5. *)
Definition fleet_five_taken : DB :=
  {| users := ["u"%string];
     drivers := map (fun i => driver i BUSY) [1; 2; 3; 4; 5]
                ++ map (fun i => driver i AVAILABLE) [6; 7];
     rides := [];
     bookings := [booking 1 A B PENDING None; booking 2 B C PENDING None] |}.

(** One idle vehicle and two requests waiting. *)
Definition one_vehicle : DB :=
  {| users := ["u"%string];
     drivers := [driver 1 AVAILABLE];
     rides := [];
     bookings := [booking 1 A B PENDING None; booking 2 A B PENDING None] |}.

(** Request 1 is matched, then cancelled, then request 2 is matched. *)
Definition match_cancel_match : list Operation :=
  [MatchRequest 1 A B; CancelRequest 1; MatchRequest 2 A B].

(** A trip on a vehicle of capacity 4 with four attached requests, one of
    them CANCELLED: three seats are taken. *)
Definition full_ride : RideIncl :=
  {| ri_ride := ride 1 1 SCHEDULED [A; B; B; C; C; A; A; B];
     ri_bookings := [booking 1 A B CONFIRMED (Some 1);
                     booking 2 B C CANCELLED (Some 1);
                     booking 3 C A CONFIRMED (Some 1);
                     booking 4 A B CONFIRMED (Some 1)];
     ri_driver := driver 1 BUSY |}.

End Examples.

(* ================================================================= *)
(** ** More of the code *)

(** *** [getBooking] ([src/controllers/booking.controller.ts]) *)

(** What [getBooking] answers with: an error, or the booking with its
    [ride] relation ([include: { ride: true }]). *)
Inductive GetBody : Type :=
| get_error (error : string)
| get_booking (b : Booking) (trip : option Ride).

Record GetResponse : Type := { get_status : nat; get_body : GetBody }.

(** [booking.findUnique({ where: { id }, include: { ride: true } })]: the
    lookup of [booking_findUnique] without the trip's own bookings. *)
Definition without_trip_bookings (b : BookingIncl) : Booking * option Ride :=
  (bi_booking b, option_map fst (bi_ride b)).

(** [id] is [req.params.id]; [None] is a missing or empty parameter.
    [res.json(booking)] answers with status 200. *)
Definition getBooking (id : option BookingId) : Prog GetResponse :=
  try_catch
    (match id with
     | None =>
         Ret {| get_status := 400;
                get_body := get_error "Booking ID is required" |}
     | Some id =>
         found <~ booking_findUnique id ;;
         match option_map without_trip_bookings found with
         | None =>
             Ret {| get_status := 404;
                    get_body := get_error "Booking not found" |}
         | Some (b, trip) =>
             Ret {| get_status := 200; get_body := get_booking b trip |}
         end
     end)
    (Ret {| get_status := 500;
            get_body := get_error "Failed to fetch booking" |}).

(** *** The cancellation script ([scripts/test-cancellation.ts]) *)

(** [tx.booking.count({ where: { rideId, status: { not: 'CANCELLED' } } })]. *)
Definition tx_booking_count_active (r : RideId) : Tx nat :=
  fun db =>
    Some (db,
          List.length
            (filter (fun b => on_ride r b && negb (is_cancelled b))
                    (bookings db))).

(** The transaction of the script: it counts the active bookings of the
    ride inside the transaction, after the update, where the controller
    filters the list it loaded before. [ride] is what [matchRide]
    returned. *)
Definition scriptCancelTx (booking : BookingId) (ride : Ride) : Tx unit :=
  tx_bind (tx_booking_update booking (set_booking_status CANCELLED))
    (fun _ =>
       tx_bind (tx_booking_count_active (ride_id ride))
         (fun activeBookings =>
            if activeBookings =? 0 then
              tx_bind
                (tx_ride_update (ride_id ride) (set_ride_status COMPLETED))
                (fun _ =>
                   tx_bind
                     (tx_driver_update (driverId ride)
                        (set_driver_status AVAILABLE))
                     (fun _ => tx_ret tt))
            else tx_ret tt)).

(** *** Vocabulary of the further statements *)

(** The trip [r] of the store, loaded with its relations, is one the scan
    picks: its vehicle has a seat left for the count of attached bookings
    and the request passes the deviation check. *)
Definition admissible (rt : JSRuntime) (db : DB) (p d : Point) (r : Ride)
  : bool :=
  match find_driver (driverId r) db with
  | Some v =>
      let loaded := {| ri_ride := r;
                       ri_bookings := bookings_of (ride_id r) db;
                       ri_driver := v |} in
      negb (capacity_reached loaded) && isPathValid rt loaded p d
  | None => false
  end.

(** [userId] is the id of a user of the store. *)
Definition known_user (db : DB) (user : JS.value) : bool :=
  match user with
  | Str u => existsb (String.eqb u) (users db)
  | _ => false
  end.

(** The surge multipliers of [calculatePrice]. *)
Definition is_multiplier (m : float) : Prop :=
  m = 1.0%float \/ m = 1.2%float \/ m = 1.5%float.

(** The answer of [createBooking]'s [catch]. *)
Definition server_error : Response :=
  json 500 (error_body "Failed to create booking").

(** What the store [db'] holds for the answer [resp] of [createBooking]
    to the body [fields] in the store [db]: a CONFIRMED answer names a
    new booking, stored CONFIRMED at the answer's price on the trip the
    answer names, itself SCHEDULED; a PENDING answer names a new booking
    stored PENDING with no trip, appended to the bookings, the trips and
    vehicles being as in [db]; an error answer is a 500. *)
Definition answer_in_store (rt : JSRuntime)
  (fields : list (string * JS.value)) (db db' : DB) (resp : Response)
  : Prop :=
  match body resp with
  | confirmed_body id rid cost =>
      status_code resp = 201
      /\ ~ In id (map booking_id (bookings db))
      /\ exists bk trip,
           find_booking id db' = Some bk
           /\ booking_status bk = CONFIRMED
           /\ rideId bk = Some rid
           /\ price bk = cost
           /\ pickup bk = asPoint rt (lookup "pickup" fields)
           /\ dropoff bk = asPoint rt (lookup "dropoff" fields)
           /\ find_ride rid db' = Some trip
           /\ ride_status trip = SCHEDULED
  | pending_body id _ cost =>
      status_code resp = 201
      /\ ~ In id (map booking_id (bookings db))
      /\ rides db' = rides db
      /\ drivers db' = drivers db
      /\ exists bk,
           bookings db' = bookings db ++ [bk]
           /\ find_booking id db' = Some bk
           /\ booking_status bk = PENDING
           /\ rideId bk = None
           /\ price bk = cost
  | error_body _ => status_code resp = 500
  | message_body _ => False
  end.

(** A well-formed body from (10, 10) to (11, 10) for user [user]. *)
Definition sample_request (user : string) : list (string * JS.value) :=
  [("userId"%string, Str user);
   ("pickup"%string, coordinates (Num 10) (Num 10));
   ("dropoff"%string, coordinates (Num 11) (Num 10))].

(** [getBooking], asked in the store [db'] for the booking that the
    answer [resp] of [createBooking] names, answers 200 with that
    booking: CONFIRMED on the SCHEDULED trip the answer names, or PENDING
    with no trip, at the answer's price. *)
Definition reads_back (db' : DB) (resp : Response) : Prop :=
  match body resp with
  | confirmed_body id rid cost =>
      exists bk trip,
        run (getBooking (Some id)) db'
        = (db', Returned {| get_status := 200;
                            get_body := get_booking bk (Some trip) |})
        /\ booking_id bk = id
        /\ booking_status bk = CONFIRMED
        /\ price bk = cost
        /\ ride_id trip = rid
        /\ ride_status trip = SCHEDULED
  | pending_body id _ cost =>
      exists bk,
        run (getBooking (Some id)) db'
        = (db', Returned {| get_status := 200;
                            get_body := get_booking bk None |})
        /\ booking_id bk = id
        /\ booking_status bk = PENDING
        /\ price bk = cost
  | _ => True
  end.

(** *** Concurrent matches

    The points of [matchRide] between two store operations.  A worker
    running [matchRide] is at one of them; [prog_of] is the program it
    has left to run. *)
Inductive Stage : Type :=
| AtStart (b : BookingId) (p d : Point)
| Joining (r : RideId) (b : BookingId) (p d : Point)
| Attaching (r : RideId) (b : BookingId) (newPath : list Point)
| Allocating (b : BookingId) (p d : Point)
| Scanning (candidates : list Driver) (b : BookingId) (p d : Point)
| Using (c : DriverId) (b : BookingId) (p d : Point)
| Reverting (c : DriverId)
| Finished (o : outcome (option Ride)).

Definition prog_of (rt : JSRuntime) (st : Stage) : Prog (option Ride) :=
  match st with
  | AtStart b p d => matchRide rt b p d
  | Joining r b p d =>
      ride <- addBookingToRide r b p d ;;
      Ret (Some ride)
  | Attaching r b newPath =>
      ride <- (x <~ transaction
                      (tx_bind
                         (tx_booking_update b (set_booking_ride r CONFIRMED))
                         (fun _ => tx_ride_update r (set_ride_path newPath))) ;;
               Ret x) ;;
      Ret (Some ride)
  | Allocating b p d => createNewRide b p d
  | Scanning candidates b p d => claimLoop candidates b p d
  | Using c b p d => useCandidate c b p d
  | Reverting c =>
      _ <~ driver_update c AVAILABLE ;;
      Ret None
  | Finished (Returned x) => Ret x
  | Finished Thrown => Throw
  end.

(** The vehicle a worker has claimed and not yet put on a trip or given
    back. *)
Definition held (st : Stage) : list DriverId :=
  match st with
  | Using c _ _ _ => [c]
  | Reverting c => [c]
  | _ => []
  end.

(** The vehicles of the SCHEDULED trips, in store order. *)
Definition open_trip_vehicles (db : DB) : list DriverId :=
  map driverId (filter is_scheduled (rides db)).

(** What holds of the store while matches race, [claims] being the
    vehicles that workers hold: every vehicle on a SCHEDULED trip or held
    is BUSY, no vehicle is on two SCHEDULED trips, held twice, or both,
    and every BUSY vehicle is on a SCHEDULED trip or held. *)
Record race_ok (db : DB) (claims : list DriverId) : Prop := {
  rk_driver_keys : NoDup (map driver_id (drivers db));
  rk_trip_busy :
    forall trip, In trip (rides db) -> is_scheduled trip = true ->
                 exists v, find_driver (driverId trip) db = Some v
                           /\ is_busy v = true;
  rk_held_busy :
    forall c, In c claims ->
              exists v, find_driver c db = Some v /\ is_busy v = true;
  rk_distinct : NoDup (open_trip_vehicles db ++ claims);
  rk_accounted :
    forall v, In v (drivers db) -> is_busy v = true ->
              In (driver_id v) (open_trip_vehicles db ++ claims)
}.

(** A request given to [matchRide]. *)
Definition match_worker (rt : JSRuntime) (rq : BookingId * Point * Point)
  : Prog (option Ride) :=
  matchRide rt (fst (fst rq)) (snd (fst rq)) (snd rq).

(** The worker has returned or thrown. *)
Definition finished {A} (w : Prog A) : bool :=
  match w with
  | Await _ _ => false
  | _ => true
  end.

(** *** Seats

    What the capacity check of [findExistingRide] maintains when requests
    are served one after the other: request ids are keys, an attached
    request names a trip of the store, no vehicle has a negative
    capacity, and no trip has more attached requests, CANCELLED ones
    included, than its vehicle has seats. *)
Record seated (db : DB) : Prop := {
  booking_keys : NoDup (map booking_id (bookings db));
  attached_known :
    forall b r, In b (bookings db) -> rideId b = Some r ->
                In r (map ride_id (rides db));
  capacities : forall v, In v (drivers db) -> (0 <= capacity v)%Z;
  within_seats :
    forall trip v,
      In trip (rides db) -> find_driver (driverId trip) db = Some v ->
      (Z.of_nat (List.length (bookings_of (ride_id trip) db)) <= seats v)%Z
}.


(* ================================================================= *)
(** * Properties *)

(** ** Lists, keys and updates *)

Lemma fold_left_seq_shift {A} (g : A -> nat -> A) (n s : nat) (acc : A) :
  fold_left g (seq (S s) n) acc = fold_left (fun t i => g t (S i)) (seq s n) acc.
Proof.
  revert s acc.
  induction n as [|n IH]; intros s acc; simpl; [reflexivity|].
  apply IH.
Qed.

(** ** Keys, lookups and updates *)

Section Tables.

Context {A : Type} (key : A -> nat).

Lemma find_key_some (k : nat) (l : list A) (x : A) :
  find (fun y => key y =? k) l = Some x -> In x l /\ key x = k.
Proof.
  intros H. apply find_some in H. destruct H as [Hin Hk].
  split; [assumption | now apply Nat.eqb_eq].
Qed.

Lemma find_key_none (k : nat) (l : list A) :
  find (fun y => key y =? k) l = None -> ~ In k (map key l).
Proof.
  intros H Hin. apply in_map_iff in Hin. destruct Hin as [x [Hx Hin]].
  pose proof (find_none _ _ H x Hin) as Hn. cbn in Hn.
  rewrite Hx, Nat.eqb_refl in Hn. discriminate.
Qed.

Lemma find_key_in (k : nat) (l : list A) :
  In k (map key l) -> exists x, find (fun y => key y =? k) l = Some x.
Proof.
  intros Hin.
  destruct (find (fun y => key y =? k) l) eqn:E; [eauto|].
  now apply find_key_none in E.
Qed.

Lemma NoDup_key_eq (l : list A) (x y : A) :
  NoDup (map key l) -> In x l -> In y l -> key x = key y -> x = y.
Proof.
  induction l as [|a l IH]; intros Hnd Hx Hy Hk; [contradiction|].
  cbn in Hnd. inversion Hnd as [|? ? Hnotin Hnd']; subst.
  destruct Hx as [-> | Hx], Hy as [-> | Hy].
  - reflexivity.
  - exfalso. apply Hnotin. rewrite Hk. now apply in_map.
  - exfalso. apply Hnotin. rewrite <- Hk. now apply in_map.
  - now apply IH.
Qed.

Lemma find_key_unique (l : list A) (x : A) :
  NoDup (map key l) -> In x l -> find (fun y => key y =? key x) l = Some x.
Proof.
  intros Hnd Hin.
  destruct (find_key_in (key x) l) as [y Hy]; [now apply in_map|].
  rewrite Hy. f_equal.
  apply find_key_some in Hy. destruct Hy as [Hyin Hk].
  now apply (NoDup_key_eq l).
Qed.

Lemma NoDup_map_filter (p : A -> bool) (l : list A) :
  NoDup (map key l) -> NoDup (map key (filter p l)).
Proof.
  induction l as [|a l IH]; intros Hnd; cbn; [constructor|].
  cbn in Hnd. inversion Hnd as [|? ? Hnotin Hnd']; subst.
  destruct (p a); cbn; [constructor|]; auto.
  intros Hin. apply Hnotin.
  apply in_map_iff in Hin. destruct Hin as [x [Hx Hin]].
  apply filter_In in Hin. rewrite <- Hx. apply in_map. tauto.
Qed.

Variables (sel : A -> bool) (f : A -> A).

Lemma In_update_where (l : list A) (y : A) :
  In y (update_where sel f l) <->
  exists x, In x l /\ y = (if sel x then f x else x).
Proof.
  unfold update_where. rewrite in_map_iff.
  split; intros [x [H1 H2]]; exists x; auto.
Qed.

Lemma map_update_where {B} (g : A -> B) (l : list A) :
  (forall x, g (f x) = g x) -> map g (update_where sel f l) = map g l.
Proof.
  intros Hg. unfold update_where. rewrite map_map.
  apply map_ext. intros x. destruct (sel x); auto.
Qed.

Lemma filter_update_where (p : A -> bool) (l : list A) :
  (forall x, p (f x) = p x) ->
  filter p (update_where sel f l) = update_where sel f (filter p l).
Proof.
  intros Hp. unfold update_where.
  induction l as [|a l IH]; cbn; [reflexivity|].
  replace (p (if sel a then f a else a)) with (p a)
    by (destruct (sel a); auto).
  destruct (p a); cbn; now rewrite IH.
Qed.

Lemma find_update_where (k : nat) (l : list A) :
  (forall x, key (f x) = key x) ->
  find (fun y => key y =? k) (update_where sel f l)
  = option_map (fun x => if sel x then f x else x)
      (find (fun y => key y =? k) l).
Proof.
  intros Hk. unfold update_where.
  induction l as [|a l IH]; cbn; [reflexivity|].
  replace (key (if sel a then f a else a)) with (key a)
    by (destruct (sel a); auto).
  destruct (key a =? k); [reflexivity | apply IH].
Qed.

Lemma update_where_none (l : list A) :
  (forall x, In x l -> sel x = false) -> update_where sel f l = l.
Proof.
  intros H. unfold update_where.
  rewrite <- (map_id l) at 2. apply map_ext_in.
  intros x Hin. now rewrite (H x Hin).
Qed.

End Tables.

Lemma fresh_not_in (ids : list nat) : ~ In (fresh ids) ids.
Proof.
  intros Hin.
  assert (Hle : fresh ids <= list_max ids).
  { pose proof (proj1 (list_max_le ids (list_max ids)) (le_n _)) as Hall.
    rewrite Forall_forall in Hall. now apply Hall. }
  unfold fresh in Hle. lia.
Qed.

Lemma In_firstn {A} (n : nat) (l : list A) (x : A) :
  In x (firstn n l) -> In x l.
Proof.
  intros H. rewrite <- (firstn_skipn n l). apply in_or_app. now left.
Qed.

Lemma filter_length_zero {A} (p : A -> bool) (l : list A) :
  List.length (filter p l) = 0 -> forall x, In x l -> p x = false.
Proof.
  intros H x Hin.
  destruct (p x) eqn:E; [|reflexivity].
  assert (Hx : In x (filter p l)) by (apply filter_In; auto).
  destruct (filter p l); [contradiction | discriminate].
Qed.

Lemma with_drivers_same (db : DB) : with_drivers (drivers db) db = db.
Proof. now destruct db. Qed.

Lemma with_rides_same (db : DB) : with_rides (rides db) db = db.
Proof. now destruct db. Qed.

Lemma with_bookings_same (db : DB) : with_bookings (bookings db) db = db.
Proof. now destruct db. Qed.

(** ** Geometry *)

Section GeoFacts.

Variable rt : JSRuntime.

Lemma path_loop_from (l : list Point) (acc : float) :
  fold_left
    (fun total i =>
       (total + calculateDistance rt (nth i l origin) (nth (i + 1) l origin))%float)
    (seq 0 (pred (List.length l))) acc
  = fold_left
      (fun total pq => (total + calculateDistance rt (fst pq) (snd pq))%float)
      (consecutive l) acc.
Proof.
  revert acc.
  induction l as [|a l IH]; intros acc; [reflexivity|].
  destruct l as [|b l]; [reflexivity|].
  change (pred (List.length (a :: b :: l)))
    with (S (pred (List.length (b :: l)))).
  cbn [seq fold_left consecutive fst snd nth Nat.add].
  rewrite fold_left_seq_shift.
  cbn [nth Nat.add].
  apply IH.
Qed.

(** The loop of [calculatePathDistance] computes the spec's
    [pathLength]. *)
Lemma calculatePathDistance_pathLength (l : list Point) :
  calculatePathDistance rt l = pathLength rt l.
Proof.
  unfold calculatePathDistance. rewrite Nat.sub_1_r. apply path_loop_from.
Qed.

Lemma sumDirectDistances_attached (bs : list Booking) (p d : Point) :
  sumDirectDistances rt bs (calculateDistance rt p d)
  = sumDirect_attached rt bs p d.
Proof.
  unfold sumDirectDistances, sumDirect_attached.
  generalize (calculateDistance rt p d).
  induction bs as [|b bs IH]; intros acc; [reflexivity|].
  simpl. apply IH.
Qed.

End GeoFacts.

(** What [isPathValid] computes: it admits the request into the
    candidate trip exactly when the trip's current path with the new
    pickup and dropoff appended is at most [sumDirect * (1 + 0.5)] long,
    where [sumDirect] is the new request's direct distance plus the direct
    distance of every booking loaded with the trip, whatever its
    status. *)
Theorem isPathValid_deviation_bound (rt : JSRuntime) (ride : RideIncl)
  (p d : Point) :
  isPathValid rt ride p d = true <->
  within_deviation rt (path_or_empty (ri_ride ride)) p d
    (sumDirect_attached rt (ri_bookings ride) p d) = true.
Proof.
  unfold isPathValid, within_deviation.
  rewrite calculatePathDistance_pathLength, sumDirectDistances_attached.
  replace (1 + MAX_DEVIATION_PERCENT)%float with 1.5%float by reflexivity.
  reflexivity.
Qed.

(** C2: the code departs from the bound over the non-cancelled requests.
    [isPathValid] sums the direct distances of [ride.bookings] as loaded,
    with no filter on the status, while the cancellation leaves the
    CANCELLED request attached to the trip.  On a trip that served A -> B
    and B -> C, the second request CANCELLED, the request C -> A is
    admitted by the code and rejected by the bound over the requests that
    are not cancelled: the path A, B, B, C, C, A is about 222 km long;
    the three direct distances add up to about 222 km, those of the two
    requests that are not cancelled to about 122 km, and 222 is above
    1.5 * 122. *)
Lemma isPathValid_counts_cancelled :
  isPathValid RefRuntime.runtime Examples.detour_ride Examples.C Examples.A
  = true
  /\ within_deviation RefRuntime.runtime
       (path_or_empty (ri_ride Examples.detour_ride)) Examples.C Examples.A
       (sumDirect_active RefRuntime.runtime
          (ri_bookings Examples.detour_ride) Examples.C Examples.A)
     = false.
Proof. split; vm_compute; reflexivity. Qed.

(* ================================================================= *)
(** ** Cancellation *)

Lemma run_cancelBooking (id : BookingId) (db : DB) :
  run (cancelBooking (Some id)) db =
  match find_booking id db with
  | None => (db, Returned booking_not_found)
  | Some b =>
      if is_cancelled b then (db, Returned booking_already_cancelled)
      else
        match cancelTx (load_booking db b) db with
        | Some (db', _) => (db', Returned booking_cancelled)
        | None => (db, Returned cancel_failed)
        end
  end.
Proof.
  unfold cancelBooking. cbn.
  destruct (find_booking id db) as [b|]; cbn; [|reflexivity].
  destruct (is_cancelled b); cbn; [reflexivity|].
  destruct (cancelTx (load_booking db b) db) as [[db' []]|]; reflexivity.
Qed.

Lemma find_booking_id (id : BookingId) (db : DB) (b : Booking) :
  find_booking id db = Some b -> booking_id b = id.
Proof. intros H. now apply find_key_some in H. Qed.

Lemma find_ride_id (id : RideId) (db : DB) (r : Ride) :
  find_ride id db = Some r -> ride_id r = id.
Proof. intros H. now apply find_key_some in H. Qed.

Lemma find_driver_id (id : DriverId) (db : DB) (d : Driver) :
  find_driver id db = Some d -> driver_id d = id.
Proof. intros H. now apply find_key_some in H. Qed.

Lemma activeBookingsCount_other_active (b : Booking) (r : RideId) (db : DB) :
  activeBookingsCount b (bookings_of r db)
  = List.length (other_active (booking_id b) r db).
Proof.
  unfold activeBookingsCount, bookings_of, other_active.
  f_equal.
  induction (bookings db) as [|x l IH]; cbn; [reflexivity|].
  destruct (on_ride r x); cbn; [|assumption].
  destruct (negb (booking_id x =? booking_id b) && negb (is_cancelled x));
    cbn; now rewrite IH.
Qed.

(** What the cancellation transaction commits. *)
Lemma cancelTx_commits (id : BookingId) (db : DB) (b : Booking) :
  find_booking id db = Some b ->
  cancelTx (load_booking db b) db =
  match rideId b with
  | Some r =>
      match find_ride r db with
      | Some ride =>
          match other_active id r db with
          | [] =>
              match find_driver (driverId ride) db with
              | Some _ =>
                  Some (trip_closed r (driverId ride) (marked_cancelled id db),
                        tt)
              | None => None
              end
          | _ :: _ => Some (marked_cancelled id db, tt)
          end
      | None => Some (marked_cancelled id db, tt)
      end
  | None => Some (marked_cancelled id db, tt)
  end.
Proof.
  intros Hb. pose proof (find_booking_id _ _ Hb) as Hid.
  unfold cancelTx, tx_bind, tx_booking_update, load_booking.
  cbn [bi_booking bi_ride]. rewrite Hid, Hb.
  fold (marked_cancelled id db).
  destruct (rideId b) as [r|]; [|reflexivity].
  destruct (find_ride r db) as [ride|] eqn:Hr; [|reflexivity].
  pose proof (find_ride_id _ _ Hr) as Hrid. rewrite Hrid.
  rewrite activeBookingsCount_other_active, Hid.
  destruct (other_active id r db) as [|x l]; cbn [List.length Nat.eqb];
    [|reflexivity].
  unfold tx_ride_update, tx_driver_update, tx_ret.
  replace (find_ride r (marked_cancelled id db)) with (find_ride r db)
    by reflexivity.
  rewrite Hr.
  match goal with
  | |- context [find_driver ?d ?s] =>
      replace (find_driver d s) with (find_driver d db) by reflexivity
  end.
  destruct (find_driver (driverId ride) db); reflexivity.
Qed.

Lemma find_booking_marked (id : BookingId) (db : DB) (b : Booking) :
  find_booking id db = Some b ->
  find_booking id (marked_cancelled id db)
  = Some (set_booking_status CANCELLED b).
Proof.
  intros Hb. unfold find_booking, marked_cancelled. cbn [bookings with_bookings].
  rewrite find_update_where by reflexivity.
  fold (find_booking id db). rewrite Hb. cbn.
  now rewrite (find_booking_id _ _ Hb), Nat.eqb_refl.
Qed.

(** C7: cancelling a request that is already CANCELLED is rejected (400,
    "Booking already cancelled") and cancelling an unknown id is reported
    not found (404); in both cases the store is left as it was. *)
Theorem cancel_rejected_without_mutation (db : DB) (id : BookingId) :
  (forall b, find_booking id db = Some b -> booking_status b = CANCELLED ->
     run (cancelBooking (Some id)) db
     = (db, Returned booking_already_cancelled))
  /\ (find_booking id db = None ->
      run (cancelBooking (Some id)) db = (db, Returned booking_not_found)).
Proof.
  rewrite run_cancelBooking. split.
  - intros b Hb Hs. rewrite Hb. unfold is_cancelled. now rewrite Hs.
  - intros Hb. now rewrite Hb.
Qed.

Lemma cancel_rejected_witness :
  run (cancelBooking (Some 4)) Examples.two_trips
  = (Examples.two_trips, Returned booking_already_cancelled)
  /\ run (cancelBooking (Some 9)) Examples.two_trips
     = (Examples.two_trips, Returned booking_not_found).
Proof.
  split.
  - apply (proj1 (cancel_rejected_without_mutation Examples.two_trips 4)
             (Examples.booking 4 Examples.A Examples.C CANCELLED (Some 2)));
      reflexivity.
  - apply (proj2 (cancel_rejected_without_mutation Examples.two_trips 9));
      reflexivity.
Defined.



(** C5: cancelling a CONFIRMED request attached to a trip marks it
    CANCELLED, in one transaction with what follows: afterwards the store
    holds the request with status CANCELLED, its other columns as they
    were.  When no other request of the trip is still active, the trip is
    COMPLETED, with the vehicle and path it had, and its vehicle is
    AVAILABLE; when another one is, the tables of trips and vehicles are
    left as they were (the trip keeps its status and path, the vehicle
    its status). *)
Theorem cancel_confirmed_release (db : DB) (id : BookingId) (b : Booking)
  (r : RideId) (trip : Ride) (vehicle : Driver) :
  find_booking id db = Some b ->
  booking_status b = CONFIRMED ->
  rideId b = Some r ->
  find_ride r db = Some trip ->
  find_driver (driverId trip) db = Some vehicle ->
  exists db' b',
    run (cancelBooking (Some id)) db = (db', Returned booking_cancelled)
    /\ exec (transaction (cancelTx (load_booking db b))) db
       = (db', Returned tt)
    /\ find_booking id db' = Some b'
    /\ booking_status b' = CANCELLED
    /\ (booking_id b' = id /\ userId b' = userId b /\ pickup b' = pickup b
        /\ dropoff b' = dropoff b /\ price b' = price b
        /\ rideId b' = Some r)
    /\ (other_active id r db = [] ->
        exists trip' vehicle',
          find_ride r db' = Some trip'
          /\ ride_status trip' = COMPLETED
          /\ (ride_id trip' = r /\ driverId trip' = driverId trip
              /\ path trip' = path trip)
          /\ find_driver (driverId trip) db' = Some vehicle'
          /\ driver_status vehicle' = AVAILABLE
          /\ (driver_id vehicle' = driverId trip
              /\ capacity vehicle' = capacity vehicle))
    /\ (other_active id r db <> [] ->
        rides db' = rides db /\ drivers db' = drivers db
        /\ find_ride r db' = Some trip
        /\ find_driver (driverId trip) db' = Some vehicle).
Proof.
  intros Hb Hs Hr Ht Hv.
  pose proof (find_booking_id _ _ Hb) as Hbid.
  pose proof (find_ride_id _ _ Ht) as Hrid.
  pose proof (find_driver_id _ _ Hv) as Hvid.
  rewrite run_cancelBooking, Hb. unfold is_cancelled. rewrite Hs.
  cbn [BookingStatus_eqb exec of_option].
  rewrite (cancelTx_commits _ _ Hb), Hr. cbv beta iota.
  rewrite Ht. cbv beta iota. rewrite Hv.
  destruct (other_active id r db) as [|x l] eqn:Ho.
  - exists (trip_closed r (driverId trip) (marked_cancelled id db)),
      (set_booking_status CANCELLED b).
    split; [reflexivity|]. split; [reflexivity|].
    split; [now apply (find_booking_marked id db)|].
    split; [reflexivity|].
    split; [cbn; now repeat split|].
    split; [intros _ | intros H; now contradiction H].
    exists (set_ride_status COMPLETED trip),
      (set_driver_status AVAILABLE vehicle).
    split.
    { unfold find_ride in Ht |- *.
      change (rides (trip_closed r (driverId trip) (marked_cancelled id db)))
        with (update_where (fun x => ride_id x =? r)
                (set_ride_status COMPLETED) (rides db)).
      rewrite find_update_where by reflexivity.
      rewrite Ht. cbn. now rewrite Hrid, Nat.eqb_refl. }
    split; [reflexivity|].
    split; [cbn; now repeat split|].
    split.
    { unfold find_driver in Hv |- *.
      change (drivers (trip_closed r (driverId trip) (marked_cancelled id db)))
        with (update_where (fun x => driver_id x =? driverId trip)
                (set_driver_status AVAILABLE) (drivers db)).
      rewrite find_update_where by reflexivity.
      rewrite Hv. cbn. now rewrite Hvid, Nat.eqb_refl. }
    split; [reflexivity|]. cbn. now split.
  - exists (marked_cancelled id db), (set_booking_status CANCELLED b).
    split; [reflexivity|]. split; [reflexivity|].
    split; [now apply find_booking_marked|].
    split; [reflexivity|].
    split; [cbn; now repeat split|].
    split; [discriminate|].
    intros _. split; [reflexivity|]. split; [reflexivity|].
    split; [exact Ht | exact Hv].
Qed.

(** In [Examples.two_trips], request 1 is alone on trip 1 and request 2
    shares trip 2 with request 3. *)
Lemma cancel_confirmed_release_witness :
  (exists db',
     run (cancelBooking (Some 1)) Examples.two_trips
     = (db', Returned booking_cancelled)
     /\ find_booking 1 db'
        = Some (Examples.booking 1 Examples.A Examples.B CANCELLED (Some 1))
     /\ find_ride 1 db'
        = Some (Examples.ride 1 1 COMPLETED [Examples.A; Examples.B])
     /\ find_driver 1 db' = Some (Examples.driver 1 AVAILABLE))
  /\ (exists db',
        run (cancelBooking (Some 2)) Examples.two_trips
        = (db', Returned booking_cancelled)
        /\ find_booking 2 db'
           = Some (Examples.booking 2 Examples.A Examples.B CANCELLED
                     (Some 2))
        /\ rides db' = rides Examples.two_trips
        /\ drivers db' = drivers Examples.two_trips).
Proof.
  split.
  - destruct (cancel_confirmed_release Examples.two_trips 1
                (b := Examples.booking 1 Examples.A Examples.B CONFIRMED (Some 1))
                (r := 1)
                (trip := Examples.ride 1 1 SCHEDULED [Examples.A; Examples.B])
                (vehicle := Examples.driver 1 BUSY)
                eq_refl eq_refl eq_refl eq_refl eq_refl)
      as [db' [b' [Hrun [_ [Hb [Hst [Hcols [Hsole _]]]]]]]].
    destruct (Hsole eq_refl)
      as [trip' [vehicle' [Ht [Hts [Htc [Hv [Hvs Hvc]]]]]]].
    exists db'. split; [exact Hrun|].
    split; [|split].
    + change db' with (fst (db', Returned booking_cancelled)).
      rewrite <- Hrun. reflexivity.
    + rewrite Ht. destruct trip'. cbn in Hts, Htc.
      destruct Htc as [-> [-> ->]]. now rewrite Hts.
    + refine (eq_trans Hv _). destruct vehicle'. cbn in Hvs, Hvc.
      destruct Hvc as [-> ->]. now rewrite Hvs.
  - destruct (cancel_confirmed_release Examples.two_trips 2
                (b := Examples.booking 2 Examples.A Examples.B CONFIRMED (Some 2))
                (r := 2)
                (trip := Examples.ride 2 2 SCHEDULED
                           [Examples.A; Examples.B; Examples.B; Examples.C;
                            Examples.A; Examples.C])
                (vehicle := Examples.driver 2 BUSY)
                eq_refl eq_refl eq_refl eq_refl eq_refl)
      as [db' [b' [Hrun [_ [Hb [Hst [Hcols [_ Hmore]]]]]]]].
    exists db'. split; [exact Hrun|].
    split.
    + change db' with (fst (db', Returned booking_cancelled)).
      rewrite <- Hrun. reflexivity.
    + destruct Hmore as [Hr [Hd _]]; [discriminate | now split].
Defined.

(* ================================================================= *)
(** ** Running programs *)

Lemma run_bind {A B} (p : Prog A) (f : A -> Prog B) (db : DB) :
  run (bind p f) db =
  match run p db with
  | (db', Returned a) => run (f a) db'
  | (db', Thrown) => (db', Thrown)
  end.
Proof.
  revert db. induction p as [a| |X op k IH]; intros db; cbn; try reflexivity.
  destruct (exec op db) as [db' r]. apply IH.
Qed.

Lemma run_try_catch {A} (p handler : Prog A) (db : DB) :
  run (try_catch p handler) db =
  match run p db with
  | (db', Returned a) => (db', Returned a)
  | (db', Thrown) => run handler db'
  end.
Proof.
  revert db. induction p as [a| |X op k IH]; intros db; cbn; try reflexivity.
  destruct (exec op db) as [db' r]. apply IH.
Qed.

(** ** Matching and allocation *)

Lemma claimed_nothing (id : DriverId) (db : DB) :
  claim_count id db = 0 -> claimed id db = db.
Proof.
  intros H. unfold claimed.
  rewrite update_where_none; [apply with_drivers_same|].
  now apply filter_length_zero.
Qed.

Lemma claim_count_positive (id : DriverId) (db : DB) :
  0 < claim_count id db <->
  exists v, In v (drivers db) /\ driver_id v = id /\ is_available v = true.
Proof.
  unfold claim_count. split.
  - intros H. destruct (filter (claim_sel id) (drivers db)) as [|v l] eqn:E;
      [cbn in H; lia|].
    assert (Hin : In v (filter (claim_sel id) (drivers db)))
      by (rewrite E; now left).
    apply filter_In in Hin. destruct Hin as [Hin Hsel].
    unfold claim_sel in Hsel. apply andb_true_iff in Hsel.
    exists v. rewrite <- Nat.eqb_eq. tauto.
  - intros [v [Hin [Hid Hav]]].
    assert (Hf : In v (filter (claim_sel id) (drivers db))).
    { apply filter_In. split; [assumption|].
      unfold claim_sel. now rewrite Hid, Nat.eqb_refl. }
    destruct (filter (claim_sel id) (drivers db)); [contradiction|cbn; lia].
Qed.

(** The transaction of [createNewRide] commits when the booking exists,
    and otherwise writes nothing. *)
Lemma newRideTx_commits (c : DriverId) (b : BookingId) (p d : Point)
  (db : DB) :
  newRideTx c b p d db =
  match find_booking b db with
  | Some _ => Some (ride_opened c b p d db, new_ride c p d db)
  | None => None
  end.
Proof.
  unfold newRideTx, tx_bind, tx_ride_create, tx_booking_update, tx_ret.
  fold (new_ride c p d db).
  replace (find_booking b (with_rides (rides db ++ [new_ride c p d db]) db))
    with (find_booking b db) by reflexivity.
  destruct (find_booking b db); reflexivity.
Qed.

Lemma run_claimLoop_cons (c : Driver) (rest : list Driver) (b : BookingId)
  (p d : Point) (db : DB) :
  run (claimLoop (c :: rest) b p d) db =
  if 0 <? claim_count (driver_id c) db then
    match find_booking b db with
    | Some _ =>
        (ride_opened (driver_id c) b p d (claimed (driver_id c) db),
         Returned (Some (new_ride (driver_id c) p d db)))
    | None =>
        match find_driver (driver_id c) (claimed (driver_id c) db) with
        | Some _ =>
            (released (driver_id c) (claimed (driver_id c) db), Returned None)
        | None => (claimed (driver_id c) db, Thrown)
        end
    end
  else run (claimLoop rest b p d) db.
Proof.
  cbn [claimLoop call run].
  change (exec (driver_updateMany_claim (driver_id c)) db)
    with (claimed (driver_id c) db, Returned (claim_count (driver_id c) db)).
  cbv beta iota.
  destruct (0 <? claim_count (driver_id c) db) eqn:E.
  - unfold useCandidate. cbn [run exec]. rewrite newRideTx_commits.
    replace (find_booking b (claimed (driver_id c) db))
      with (find_booking b db) by reflexivity.
    destruct (find_booking b db); cbn [of_option run]; [reflexivity|].
    cbn [call run exec]. unfold tx_driver_update.
    fold (released (driver_id c) (claimed (driver_id c) db)).
    destruct (find_driver (driver_id c) (claimed (driver_id c) db));
      reflexivity.
  - apply Nat.ltb_ge in E.
    rewrite claimed_nothing by lia. reflexivity.
Qed.

Lemma run_claimLoop_skip (pre rest : list Driver) (b : BookingId)
  (p d : Point) (db : DB) :
  (forall x, In x pre -> claim_count (driver_id x) db = 0) ->
  run (claimLoop (pre ++ rest) b p d) db = run (claimLoop rest b p d) db.
Proof.
  induction pre as [|x pre IH]; intros H; [reflexivity|].
  rewrite <- app_comm_cons, run_claimLoop_cons.
  rewrite (H x) by now left. cbn [Nat.ltb Nat.leb].
  apply IH. intros y Hy. apply H. now right.
Qed.

Lemma find_driver_claimed (id : DriverId) (db : DB) :
  0 < claim_count id db ->
  exists v, find_driver id (claimed id db) = Some v.
Proof.
  intros H. apply claim_count_positive in H.
  destruct H as [v [Hin [Hid _]]].
  apply (find_key_in driver_id).
  unfold claimed. cbn [drivers with_drivers].
  rewrite map_update_where by reflexivity.
  rewrite <- Hid. now apply in_map.
Qed.

(** C8: the first store operation of the allocator reads at most 5
    vehicles, all AVAILABLE in the store it reads, and leaves the loop
    over these candidates to run.  Each turn of the loop is one store
    operation, the conditional claim of the next candidate, in whatever
    store it finds.  The claim reports a change exactly when the store
    holds an AVAILABLE row of the vehicle; it turns such rows to BUSY,
    their other columns kept, and leaves every other row, the trips and
    the requests as they were; so after a claim that reports a change
    the vehicle is BUSY, and after one that reports none the store is as
    it was.  On a change the loop is left for the transaction on that
    candidate, otherwise it goes on with the candidates that remain.
    So, whatever the store has become when the loop runs: if every
    candidate before [c] reports 0 and [c] reports a change, [c] was
    AVAILABLE and is the vehicle claimed and used: with the request in
    the store, the allocator returns a new trip on [c] and [c] is BUSY
    in the store it leaves; if every candidate reports 0 (or none was
    read), the allocator answers null and the store, the request's
    status in particular, is as it was. *)
Theorem allocator_bounded_scan (snapshot db : DB) (b : BookingId)
  (p d : Point) :
  let candidates := firstn 5 (filter is_available (drivers snapshot)) in
  step (createNewRide b p d) snapshot
  = (snapshot, claimLoop candidates b p d)
  /\ List.length candidates <= 5
  /\ (forall c, In c candidates ->
        In c (drivers snapshot) /\ driver_status c = AVAILABLE)
  /\ (forall s c rest,
        step (claimLoop (c :: rest) b p d) s
        = (claimed (driver_id c) s,
           if 0 <? claim_count (driver_id c) s
           then useCandidate (driver_id c) b p d
           else claimLoop rest b p d)
        /\ (claim_count (driver_id c) s = 0 -> claimed (driver_id c) s = s))
  /\ (forall s id,
        (0 < claim_count id s <->
         exists v, In v (drivers s)
                   /\ driver_id v = id /\ driver_status v = AVAILABLE)
        /\ (forall v',
              In v' (drivers (claimed id s)) <->
              exists v,
                In v (drivers s)
                /\ ((driver_id v = id /\ driver_status v = AVAILABLE
                     /\ driver_id v' = id /\ capacity v' = capacity v
                     /\ driver_status v' = BUSY)
                    \/ ((driver_id v <> id \/ driver_status v <> AVAILABLE)
                        /\ v' = v)))
        /\ (0 < claim_count id s ->
            (exists v', In v' (drivers (claimed id s))
                        /\ driver_id v' = id /\ driver_status v' = BUSY)
            /\ (forall v', In v' (drivers (claimed id s)) ->
                           driver_id v' = id ->
                           driver_status v' <> AVAILABLE))
        /\ rides (claimed id s) = rides s
        /\ bookings (claimed id s) = bookings s)
  /\ (forall pre c post,
        candidates = pre ++ c :: post ->
        (forall x, In x pre -> claim_count (driver_id x) db = 0) ->
        0 < claim_count (driver_id c) db ->
        run (claimLoop candidates b p d) db
        = match find_booking b db with
          | Some _ =>
              (ride_opened (driver_id c) b p d (claimed (driver_id c) db),
               Returned (Some (new_ride (driver_id c) p d db)))
          | None =>
              (released (driver_id c) (claimed (driver_id c) db),
               Returned None)
          end)
  /\ (forall pre c post bk,
        candidates = pre ++ c :: post ->
        (forall x, In x pre -> claim_count (driver_id x) db = 0) ->
        0 < claim_count (driver_id c) db ->
        find_booking b db = Some bk ->
        exists db' trip,
          run (claimLoop candidates b p d) db = (db', Returned (Some trip))
          /\ driverId trip = driver_id c
          /\ (exists v, In v (drivers db)
                        /\ driver_id v = driver_id c
                        /\ driver_status v = AVAILABLE)
          /\ (exists v', In v' (drivers db')
                         /\ driver_id v' = driver_id c
                         /\ driver_status v' = BUSY)
          /\ (forall v', In v' (drivers db') ->
                         driver_id v' = driver_id c ->
                         driver_status v' <> AVAILABLE)
          /\ (forall v, driver_id v <> driver_id c ->
                        (In v (drivers db') <-> In v (drivers db))))
  /\ ((forall x, In x candidates -> claim_count (driver_id x) db = 0) ->
      run (claimLoop candidates b p d) db = (db, Returned None)).
Proof.
  intros candidates.
  assert (Hrows : forall id s v',
             In v' (drivers (claimed id s)) <->
             exists v,
               In v (drivers s)
               /\ ((driver_id v = id /\ driver_status v = AVAILABLE
                    /\ driver_id v' = id /\ capacity v' = capacity v
                    /\ driver_status v' = BUSY)
                   \/ ((driver_id v <> id \/ driver_status v <> AVAILABLE)
                       /\ v' = v))).
  { intros id s v'. unfold claimed. cbn [drivers with_drivers].
    rewrite In_update_where.
    assert (Hsel : forall v, claim_sel id v = true <->
                             driver_id v = id /\ driver_status v = AVAILABLE).
    { intros v. unfold claim_sel, is_available.
      rewrite andb_true_iff, Nat.eqb_eq.
      destruct (driver_status v); cbn; intuition congruence. }
    split; intros [v [Hin H]]; exists v; (split; [exact Hin|]).
    - destruct (claim_sel id v) eqn:E.
      + apply Hsel in E. destruct E as [E1 E2]. left. subst v'. cbn. tauto.
      + right. split; [|exact H].
        destruct (Nat.eq_dec (driver_id v) id) as [E1|E1]; [|now left].
        right. intros E2. rewrite (proj2 (Hsel v) (conj E1 E2)) in E.
        discriminate.
    - destruct H as [[E1 [E2 [H1 [H2 H3]]]] | [Hn ->]].
      + rewrite (proj2 (Hsel v) (conj E1 E2)).
        destruct v' as [i k st]. cbn in H1, H2, H3. subst.
        reflexivity.
      + destruct (claim_sel id v) eqn:E; [|reflexivity].
        apply Hsel in E. tauto. }
  assert (Hbusy : forall id s,
             0 < claim_count id s ->
             (exists v', In v' (drivers (claimed id s))
                         /\ driver_id v' = id /\ driver_status v' = BUSY)
             /\ (forall v', In v' (drivers (claimed id s)) ->
                            driver_id v' = id ->
                            driver_status v' <> AVAILABLE)).
  { intros id s Hc. apply claim_count_positive in Hc.
    destruct Hc as [v [Hin [Hid Hav]]].
    assert (Hst : driver_status v = AVAILABLE).
    { unfold is_available in Hav. now destruct (driver_status v). }
    split.
    - exists {| driver_id := id; capacity := capacity v;
                driver_status := BUSY |}.
      split; [|now split].
      apply Hrows. exists v. split; [exact Hin|]. left. cbn. tauto.
    - intros v' Hin' Hid' Hav'. apply Hrows in Hin'.
      destruct Hin' as [w [_ [[_ [_ [_ [_ Hb]]]] | [[Hn | Hn] ->]]]];
        congruence. }
  assert (Hrun : forall pre c post,
             candidates = pre ++ c :: post ->
             (forall x, In x pre -> claim_count (driver_id x) db = 0) ->
             0 < claim_count (driver_id c) db ->
             run (claimLoop candidates b p d) db
             = match find_booking b db with
               | Some _ =>
                   (ride_opened (driver_id c) b p d
                      (claimed (driver_id c) db),
                    Returned (Some (new_ride (driver_id c) p d db)))
               | None =>
                   (released (driver_id c) (claimed (driver_id c) db),
                    Returned None)
               end).
  { intros pre c post -> Hpre Hc.
    rewrite run_claimLoop_skip by assumption.
    rewrite run_claimLoop_cons.
    apply Nat.ltb_lt in Hc as Hlt. rewrite Hlt.
    destruct (find_driver_claimed _ _ Hc) as [v ->].
    reflexivity. }
  split; [reflexivity|].
  split; [apply firstn_le_length|].
  split.
  { intros c Hc. apply In_firstn in Hc. apply filter_In in Hc.
    destruct Hc as [Hin Hav]. split; [assumption|].
    unfold is_available in Hav. now destruct (driver_status c). }
  split.
  { intros s c rest. split; [reflexivity | apply claimed_nothing]. }
  split.
  { intros s id. split.
    { rewrite claim_count_positive. split; intros [v [H1 [H2 H3]]];
        exists v; (split; [exact H1|]); (split; [exact H2|]);
        unfold is_available in *; destruct (driver_status v);
        cbn in *; congruence. }
    split; [apply Hrows|].
    split; [apply Hbusy|]. split; reflexivity. }
  split; [exact Hrun|].
  split.
  - intros pre c post bk Hcands Hpre Hc Hb.
    exists (ride_opened (driver_id c) b p d (claimed (driver_id c) db)),
      (new_ride (driver_id c) p d db).
    split; [rewrite (Hrun pre c post Hcands Hpre Hc), Hb; reflexivity|].
    split; [reflexivity|].
    split.
    { apply claim_count_positive in Hc. destruct Hc as [v [H1 [H2 H3]]].
      exists v. split; [exact H1|]. split; [exact H2|].
      unfold is_available in H3. now destruct (driver_status v). }
    change (drivers (ride_opened (driver_id c) b p d
                       (claimed (driver_id c) db)))
      with (drivers (claimed (driver_id c) db)).
    destruct (Hbusy _ _ Hc) as [H1 H2].
    split; [exact H1|]. split; [exact H2|].
    intros v Hne. rewrite Hrows. split.
    + intros [w [Hw [[_ [_ [Hid _]]] | [_ ->]]]]; [contradiction | exact Hw].
    + intros Hv. exists v. split; [exact Hv|]. right. split; [now left|].
      reflexivity.
  - intros Hall.
    rewrite <- (app_nil_r candidates).
    now rewrite run_claimLoop_skip.
Qed.

(** Five candidates are read while the seven vehicles are AVAILABLE.
    When the loop runs in a store where vehicles 1 and 2 have been taken,
    vehicle 3 is claimed: it was AVAILABLE, the store left holds it BUSY,
    the others as they were, and the new trip on it.  When it runs in a
    store where vehicles 1 to 5 have been taken, the answer is null and
    request 1 is PENDING as before. *)
Lemma allocator_bounded_scan_witness :
  (exists db',
     run (claimLoop (firstn 5 (filter is_available (drivers Examples.fleet)))
            1 Examples.A Examples.B) Examples.fleet_two_taken
     = (db', Returned (Some (Examples.ride 1 3 SCHEDULED
                               [Examples.A; Examples.B])))
     /\ find_driver 3 Examples.fleet_two_taken
        = Some (Examples.driver 3 AVAILABLE)
     /\ find_driver 3 db' = Some (Examples.driver 3 BUSY)
     /\ drivers db'
        = map (fun i => Examples.driver i BUSY) [1; 2; 3]
          ++ map (fun i => Examples.driver i AVAILABLE) [4; 5; 6; 7]
     /\ rides db' = [Examples.ride 1 3 SCHEDULED [Examples.A; Examples.B]])
  /\ run (claimLoop (firstn 5 (filter is_available (drivers Examples.fleet)))
            1 Examples.A Examples.B) Examples.fleet_five_taken
     = (Examples.fleet_five_taken, Returned None)
  /\ find_booking 1 Examples.fleet_five_taken
     = Some (Examples.booking 1 Examples.A Examples.B PENDING None).
Proof.
  split; [|split; [|reflexivity]].
  - exists (ride_opened 3 1 Examples.A Examples.B
              (claimed 3 Examples.fleet_two_taken)).
    split; [|repeat split; reflexivity].
    apply (proj1 (proj2 (proj2 (proj2 (proj2 (proj2
             (allocator_bounded_scan Examples.fleet Examples.fleet_two_taken
                1 Examples.A Examples.B))))))
             [Examples.driver 1 AVAILABLE; Examples.driver 2 AVAILABLE]
             (Examples.driver 3 AVAILABLE)
             [Examples.driver 4 AVAILABLE; Examples.driver 5 AVAILABLE]).
    + reflexivity.
    + intros x [<- | [<- | []]]; reflexivity.
    + cbn. lia.
  - apply (proj2 (proj2 (proj2 (proj2 (proj2 (proj2 (proj2
             (allocator_bounded_scan Examples.fleet Examples.fleet_five_taken
                1 Examples.A Examples.B)))))))).
    intros x [<- | [<- | [<- | [<- | [<- | []]]]]]; reflexivity.
Defined.

(* ================================================================= *)
(** ** Consistency of the store across operations *)

Lemma find_app {A} (f : A -> bool) (l l' : list A) :
  find f (l ++ l') =
  match find f l with
  | Some x => Some x
  | None => find f l'
  end.
Proof.
  induction l as [|a l IH]; cbn; [reflexivity|].
  destruct (f a); [reflexivity | apply IH].
Qed.

Lemma find_key_absent {A} (key : A -> nat) (k : nat) (l : list A) :
  ~ In k (map key l) -> find (fun y => key y =? k) l = None.
Proof.
  intros H. destruct (find (fun y => key y =? k) l) as [x|] eqn:E;
    [|reflexivity].
  apply find_key_some in E. destruct E as [Hin Hk].
  exfalso. apply H. rewrite <- Hk. now apply in_map.
Qed.

Lemma NoDup_snoc {A} (l : list A) (x : A) :
  NoDup l -> ~ In x l -> NoDup (l ++ [x]).
Proof.
  intros Hl Hx. apply NoDup_app; [assumption | repeat constructor; auto |].
  intros a Ha [<- | []]. now apply Hx.
Qed.

Lemma busy_not_available (v : Driver) :
  is_busy v = true -> is_available v = false.
Proof. unfold is_busy, is_available. now destruct (driver_status v). Qed.

Lemma scheduled_set_path (newPath : list Point) (x : Ride) :
  is_scheduled (set_ride_path newPath x) = is_scheduled x.
Proof. reflexivity. Qed.

(** A request joins an open trip. *)
Lemma consistent_joined (db : DB) (r : RideId) (b : BookingId)
  (newPath : list Point) (trip : Ride) :
  consistent db ->
  find_ride r db = Some trip -> is_scheduled trip = true ->
  consistent (joined r b newPath db).
Proof.
  intros [Hdk Hrk Hact Hbusy Hdist Hopen] Ht Hs.
  assert (Hfind : forall r',
             find_ride r' (joined r b newPath db)
             = option_map
                 (fun x => if ride_id x =? r then set_ride_path newPath x else x)
                 (find_ride r' db)).
  { intros r'. unfold find_ride, joined. cbn [rides with_rides].
    now rewrite find_update_where by reflexivity. }
  assert (Hsame : forall x : Ride,
             is_scheduled (if ride_id x =? r then set_ride_path newPath x else x)
             = is_scheduled x
             /\ driverId (if ride_id x =? r then set_ride_path newPath x else x)
                = driverId x).
  { intros x. now destruct (ride_id x =? r). }
  constructor.
  - exact Hdk.
  - unfold joined. cbn [rides with_rides].
    now rewrite map_update_where by reflexivity.
  - intros b' r' Hin Hr' Hc. rewrite Hfind.
    unfold joined in Hin. cbn [bookings with_rides with_bookings] in Hin.
    apply In_update_where in Hin. destruct Hin as [x [Hx ->]].
    destruct (booking_id x =? b).
    + cbn in Hr'. injection Hr' as <-. rewrite Ht. cbn.
      eexists. split; [reflexivity|]. now rewrite (proj1 (Hsame trip)).
    + destruct (Hact x r' Hx Hr' Hc) as [t [Hft Hst]].
      rewrite Hft. cbn. eexists. split; [reflexivity|].
      now rewrite (proj1 (Hsame t)).
  - intros t Hin Hst.
    unfold joined in Hin. cbn [rides with_rides] in Hin.
    apply In_update_where in Hin. destruct Hin as [x [Hx ->]].
    rewrite (proj1 (Hsame x)) in Hst. rewrite (proj2 (Hsame x)).
    exact (Hbusy x Hx Hst).
  - unfold joined. cbn [rides with_rides].
    rewrite filter_update_where by reflexivity.
    now rewrite map_update_where by reflexivity.
  - intros v Hin Hv. destruct (Hopen v Hin Hv) as [t [Htin [Hst Hd]]].
    exists (if ride_id t =? r then set_ride_path newPath t else t).
    rewrite (proj1 (Hsame t)), (proj2 (Hsame t)).
    split; [|now split].
    unfold joined. cbn [rides with_rides].
    apply In_update_where. now exists t.
Qed.

(** A request is marked CANCELLED. *)
Lemma consistent_cancelled (db : DB) (id : BookingId) :
  consistent db -> consistent (marked_cancelled id db).
Proof.
  intros [Hdk Hrk Hact Hbusy Hdist Hopen].
  constructor; try assumption.
  intros b' r' Hin Hr' Hc.
  unfold marked_cancelled in Hin. cbn [bookings with_bookings] in Hin.
  apply In_update_where in Hin. destruct Hin as [x [Hx ->]].
  destruct (booking_id x =? id); [discriminate Hc|].
  exact (Hact x r' Hx Hr' Hc).
Qed.

(** A vehicle is claimed and a trip opened on it. *)
Lemma consistent_opened (db : DB) (c : DriverId) (b : BookingId)
  (p d : Point) (v : Driver) :
  consistent db ->
  find_driver c db = Some v -> is_available v = true ->
  consistent (ride_opened c b p d (claimed c db)).
Proof.
  intros [Hdk Hrk Hact Hbusy Hdist Hopen] Hv Hav.
  pose proof (find_driver_id _ _ Hv) as Hvid.
  set (trip := new_ride c p d db).
  assert (Hnew : ~ In (ride_id trip) (map ride_id (rides db)))
    by apply fresh_not_in.
  assert (Hrides : rides (ride_opened c b p d (claimed c db))
                   = rides db ++ [trip]) by reflexivity.
  assert (Hdrivers : drivers (ride_opened c b p d (claimed c db))
                     = update_where (claim_sel c) (set_driver_status BUSY)
                         (drivers db)) by reflexivity.
  assert (Hfd : forall k,
             find_driver k (ride_opened c b p d (claimed c db))
             = option_map
                 (fun x => if claim_sel c x then set_driver_status BUSY x else x)
                 (find_driver k db)).
  { intros k. unfold find_driver. rewrite Hdrivers.
    now rewrite find_update_where by reflexivity. }
  assert (Hfr : forall k,
             find_ride k (ride_opened c b p d (claimed c db))
             = match find_ride k db with
               | Some x => Some x
               | None => if ride_id trip =? k then Some trip else None
               end).
  { intros k. unfold find_ride. rewrite Hrides. now rewrite find_app. }
  constructor.
  - rewrite Hdrivers. now rewrite map_update_where by reflexivity.
  - rewrite Hrides, map_app. now apply NoDup_snoc.
  - intros b' r' Hin Hr' Hc. rewrite Hfr.
    change (bookings (ride_opened c b p d (claimed c db)))
      with (update_where (fun x => booking_id x =? b)
              (set_booking_ride (ride_id trip) CONFIRMED) (bookings db)) in Hin.
    apply In_update_where in Hin. destruct Hin as [x [Hx ->]].
    destruct (booking_id x =? b).
    + change (Some (ride_id trip) = Some r') in Hr'. injection Hr' as <-.
      change (fresh (map ride_id (rides db))) with (ride_id trip).
      unfold find_ride. rewrite (@find_key_absent _ ride_id _ _ Hnew).
      rewrite Nat.eqb_refl. now exists trip.
    + destruct (Hact x r' Hx Hr' Hc) as [t [Hft Hst]].
      rewrite Hft. now exists t.
  - intros t Hin Hst. rewrite Hrides in Hin. rewrite Hfd.
    apply in_app_or in Hin. destruct Hin as [Hin | [<- | []]].
    + destruct (Hbusy t Hin Hst) as [w [Hw Hwb]]. rewrite Hw. cbn.
      eexists. split; [reflexivity|].
      now destruct (claim_sel c w).
    + cbn [driverId trip new_ride]. rewrite Hv. cbn.
      eexists. split; [reflexivity|].
      unfold claim_sel. now rewrite Hvid, Nat.eqb_refl, Hav.
  - rewrite Hrides, filter_app, map_app. cbn.
    apply NoDup_snoc; [assumption|].
    intros Hin. apply in_map_iff in Hin. destruct Hin as [t [Htd Hin]].
    apply filter_In in Hin. destruct Hin as [Hin Hst].
    destruct (Hbusy t Hin Hst) as [w [Hw Hwb]].
    rewrite Htd, Hv in Hw. injection Hw as <-.
    apply busy_not_available in Hwb. congruence.
  - intros w Hin Hwb. rewrite Hdrivers in Hin. rewrite Hrides.
    apply In_update_where in Hin. destruct Hin as [x [Hx ->]].
    destruct (claim_sel c x) eqn:Hsel.
    + exists trip. split; [apply in_or_app; right; now left|].
      split; [reflexivity|].
      unfold claim_sel in Hsel. apply andb_true_iff in Hsel.
      destruct Hsel as [Hid _]. apply Nat.eqb_eq in Hid.
      cbn. now rewrite Hid.
    + destruct (Hopen x Hx Hwb) as [t [Htin [Hst Hd]]].
      exists t. split; [apply in_or_app; now left | now split].
Qed.

Lemma filter_scheduled_closed (sel : Ride -> bool) (l : list Ride) :
  filter is_scheduled (update_where sel (set_ride_status COMPLETED) l)
  = filter (fun x => negb (sel x)) (filter is_scheduled l).
Proof.
  unfold update_where.
  induction l as [|x l IH]; cbn; [reflexivity|].
  destruct (sel x) eqn:E; cbn.
  - destruct (is_scheduled x); cbn; rewrite ?E; cbn; apply IH.
  - destruct (is_scheduled x); cbn; rewrite ?E; cbn; now rewrite IH.
Qed.

(** The last active request of an open trip is cancelled: the trip is
    closed and its vehicle released. *)
Lemma consistent_closed (db : DB) (id : BookingId) (r : RideId) (trip : Ride) :
  consistent db ->
  find_ride r db = Some trip -> is_scheduled trip = true ->
  other_active id r db = [] ->
  consistent (trip_closed r (driverId trip) (marked_cancelled id db)).
Proof.
  intros [Hdk Hrk Hact Hbusy Hdist Hopen] Ht Hs Hnone.
  pose proof (find_key_some ride_id _ _ Ht) as [Htin Htid].
  set (db' := trip_closed r (driverId trip) (marked_cancelled id db)).
  assert (Hrides : rides db'
                   = update_where (fun x => ride_id x =? r)
                       (set_ride_status COMPLETED) (rides db)) by reflexivity.
  assert (Hdrivers : drivers db'
                     = update_where (fun x => driver_id x =? driverId trip)
                         (set_driver_status AVAILABLE) (drivers db))
    by reflexivity.
  assert (Hother : forall t, In t (rides db) -> is_scheduled t = true ->
                             driverId t = driverId trip -> ride_id t = r).
  { intros t Hin Hst Hd. rewrite <- Htid. f_equal.
    apply (NoDup_key_eq driverId (filter is_scheduled (rides db)));
      try assumption; apply filter_In; auto. }
  constructor.
  - rewrite Hdrivers. now rewrite map_update_where by reflexivity.
  - rewrite Hrides. now rewrite map_update_where by reflexivity.
  - intros b' r' Hin Hr' Hc.
    change (bookings db')
      with (update_where (fun x => booking_id x =? id)
              (set_booking_status CANCELLED) (bookings db)) in Hin.
    apply In_update_where in Hin. destruct Hin as [x [Hx ->]].
    destruct (booking_id x =? id) eqn:Hid; [discriminate Hc|].
    destruct (Hact x r' Hx Hr' Hc) as [t [Hft Hst]].
    assert (Hne : r' <> r).
    { intros ->.
      assert (Hin : In x (other_active id r db)).
      { apply filter_In. split; [assumption|].
        unfold on_ride. now rewrite Hr', Nat.eqb_refl, Hid, Hc. }
      rewrite Hnone in Hin. contradiction. }
    exists t. split; [|assumption].
    pose proof (find_ride_id _ _ Hft) as Htid'.
    unfold find_ride in Hft |- *. rewrite Hrides.
    rewrite find_update_where by reflexivity. rewrite Hft. cbn.
    apply Nat.eqb_neq in Hne. now rewrite Htid', Hne.
  - intros t Hin Hst. rewrite Hrides in Hin.
    apply In_update_where in Hin. destruct Hin as [x [Hx ->]].
    destruct (ride_id x =? r) eqn:Hid; [discriminate Hst|].
    destruct (Hbusy x Hx Hst) as [w [Hw Hwb]].
    exists w. split; [|assumption].
    pose proof (find_driver_id _ _ Hw) as Hwid.
    unfold find_driver in Hw |- *. rewrite Hdrivers.
    rewrite find_update_where by reflexivity. rewrite Hw. cbn.
    destruct (driver_id w =? driverId trip) eqn:E; [|reflexivity].
    apply Nat.eqb_eq in E. apply Nat.eqb_neq in Hid.
    exfalso. apply Hid. apply Hother; [assumption | assumption |].
    now rewrite <- Hwid.
  - rewrite Hrides, filter_scheduled_closed.
    now apply NoDup_map_filter.
  - intros w Hin Hwb. rewrite Hdrivers in Hin.
    apply In_update_where in Hin. destruct Hin as [x [Hx ->]].
    destruct (driver_id x =? driverId trip) eqn:Hid; [discriminate Hwb|].
    destruct (Hopen x Hx Hwb) as [t [Htin' [Hst Hd]]].
    exists t. split; [|now split].
    rewrite Hrides. apply In_update_where. exists t. split; [assumption|].
    destruct (ride_id t =? r) eqn:E; [|reflexivity].
    apply Nat.eqb_eq in E. apply Nat.eqb_neq in Hid.
    exfalso. apply Hid. rewrite <- Hd. f_equal.
    apply (NoDup_key_eq ride_id (rides db)); try assumption.
    now rewrite E.
Qed.

(** Every effect an operation can have keeps the store consistent. *)
Lemma transition_consistent (db db' : DB) :
  consistent db -> transition db db' -> consistent db'.
Proof.
  intros Hc Ht. destruct Ht.
  - assumption.
  - eapply consistent_joined; eassumption.
  - eapply consistent_opened; eassumption.
  - now apply consistent_cancelled.
  - now apply consistent_closed.
Qed.

(* ================================================================= *)
(** ** What [matchRide] does to the store *)

Section MatchRun.

Variable rt : JSRuntime.

Lemma run_addBookingToRide (r : RideId) (b : BookingId) (p d : Point)
  (db : DB) :
  run (addBookingToRide r b p d) db =
  match find_booking b db, find_ride r db with
  | Some _, Some trip =>
      (joined r b (path_or_empty trip ++ [p; d]) db,
       Returned (set_ride_path (path_or_empty trip ++ [p; d]) trip))
  | _, _ => (db, Thrown)
  end.
Proof.
  unfold addBookingToRide. cbn [call run exec].
  unfold tx_bind, tx_booking_update, tx_ride_update.
  destruct (find_booking b db) as [x|]; [|reflexivity].
  match goal with
  | |- context [find_ride r ?s] =>
      replace (find_ride r s) with (find_ride r db) by reflexivity
  end.
  destruct (find_ride r db) as [trip|]; reflexivity.
Qed.

Lemma run_matchRide (b : BookingId) (p d : Point) (db : DB) :
  run (matchRide rt b p d) db =
  match load_rides db (filter is_scheduled (rides db)) with
  | None => (db, Thrown)
  | Some rs =>
      match scanRides rt rs p d with
      | Some r =>
          match find_booking b db, find_ride (ride_id r) db with
          | Some _, Some trip =>
              (joined (ride_id r) b (path_or_empty trip ++ [p; d]) db,
               Returned (Some (set_ride_path (path_or_empty trip ++ [p; d])
                                 trip)))
          | _, _ => (db, Thrown)
          end
      | None =>
          run (claimLoop (firstn 5 (filter is_available (drivers db))) b p d)
            db
      end
  end.
Proof.
  unfold matchRide. rewrite run_bind.
  unfold findExistingRide. cbn [call run exec].
  destruct (load_rides db (filter is_scheduled (rides db))) as [rs|];
    [|reflexivity].
  cbn [run].
  destruct (scanRides rt rs p d) as [r|]; [|reflexivity].
  rewrite run_bind, run_addBookingToRide.
  destruct (find_booking b db); [|reflexivity].
  destruct (find_ride (ride_id r) db); reflexivity.
Qed.

Lemma scanRides_some (rs : list RideIncl) (p d : Point) (r : Ride) :
  scanRides rt rs p d = Some r ->
  exists ri, In ri rs /\ ri_ride ri = r
             /\ capacity_reached ri = false /\ isPathValid rt ri p d = true.
Proof.
  induction rs as [|ri rs IH]; cbn [scanRides]; [discriminate|].
  destruct (capacity_reached ri) eqn:Hc.
  - intros H. destruct (IH H) as [x [Hin Hx]].
    exists x. split; [now right | exact Hx].
  - destruct (isPathValid rt ri p d) eqn:Hv.
    + intros [= H]. exists ri. split; [now left | auto].
    + intros H. destruct (IH H) as [x [Hin Hx]].
      exists x. split; [now right | exact Hx].
Qed.

End MatchRun.

Lemma load_rides_In (db : DB) (rs : list Ride) (l : list RideIncl)
  (ri : RideIncl) :
  load_rides db rs = Some l -> In ri l ->
  In (ri_ride ri) rs
  /\ ri_bookings ri = bookings_of (ride_id (ri_ride ri)) db
  /\ find_driver (driverId (ri_ride ri)) db = Some (ri_driver ri).
Proof.
  revert l. induction rs as [|r rs IH]; intros l; cbn.
  - intros [= <-] [].
  - destruct (find_driver (driverId r) db) as [v|] eqn:Hv; [|discriminate].
    destruct (load_rides db rs) as [l'|]; [|discriminate].
    intros [= <-] [<- | Hin].
    + cbn. split; [now left | auto].
    + destruct (IH l' eq_refl Hin) as [H1 H2]. split; [now right | exact H2].
Qed.

Lemma find_ride_unique (db : DB) (r : Ride) :
  NoDup (map ride_id (rides db)) -> In r (rides db) ->
  find_ride (ride_id r) db = Some r.
Proof. apply (find_key_unique ride_id). Qed.

Lemma find_driver_unique (db : DB) (v : Driver) :
  NoDup (map driver_id (drivers db)) -> In v (drivers db) ->
  find_driver (driver_id v) db = Some v.
Proof. apply (find_key_unique driver_id). Qed.

(** Taking back the claim of a vehicle that was AVAILABLE restores the
    store, vehicle ids being keys. *)
Lemma released_claimed (db : DB) (c : Driver) :
  NoDup (map driver_id (drivers db)) ->
  In c (drivers db) -> is_available c = true ->
  released (driver_id c) (claimed (driver_id c) db) = db.
Proof.
  intros Hnd Hin Hav.
  unfold released, claimed. cbn [drivers with_drivers].
  replace (update_where _ _ (update_where _ _ (drivers db)))
    with (drivers db); [now destruct db|].
  unfold update_where. rewrite map_map.
  rewrite <- (map_id (drivers db)) at 1. apply map_ext_in.
  intros x Hx. unfold claim_sel.
  destruct (driver_id x =? driver_id c) eqn:E; cbn.
  - apply Nat.eqb_eq in E.
    assert (x = c) by now apply (NoDup_key_eq driver_id (drivers db)).
    subst x. rewrite Hav. cbn. rewrite Nat.eqb_refl.
    unfold is_available in Hav. destruct c as [i k s]. cbn in *.
    now destruct s.
  - now rewrite E.
Qed.

Lemma claimLoop_transition (db : DB) (cands : list Driver) (b : BookingId)
  (p d : Point) :
  NoDup (map driver_id (drivers db)) ->
  (forall c, In c cands -> In c (drivers db) /\ is_available c = true) ->
  transition db (fst (run (claimLoop cands b p d) db)).
Proof.
  intros Hnd Hc. destruct cands as [|c rest]; [constructor|].
  destruct (Hc c (or_introl eq_refl)) as [Hin Hav].
  rewrite run_claimLoop_cons.
  assert (Hpos : 0 < claim_count (driver_id c) db).
  { apply claim_count_positive. now exists c. }
  apply Nat.ltb_lt in Hpos as Hlt. rewrite Hlt.
  destruct (find_booking b db).
  - cbn [fst]. apply t_open with (v := c); [|assumption].
    now apply find_driver_unique.
  - destruct (find_driver_claimed _ _ Hpos) as [v ->]. cbn [fst].
    rewrite released_claimed by assumption. constructor.
Qed.

(** Every operation, run from a consistent store, has one of the
    effects of [transition]. *)
Lemma perform_transition (rt : JSRuntime) (op : Operation) (db : DB) :
  consistent db -> transition db (perform rt op db).
Proof.
  intros Hc. destruct op as [b p d | id]; unfold perform.
  - rewrite run_matchRide.
    destruct (load_rides db (filter is_scheduled (rides db))) as [rs|] eqn:Hl;
      [|constructor].
    destruct (scanRides rt rs p d) as [r|] eqn:Hs.
    + destruct (scanRides_some _ _ _ _ Hs) as [ri [Hin [<- _]]].
      destruct (load_rides_In _ _ _ Hl Hin) as [Hr _].
      apply filter_In in Hr. destruct Hr as [Hr Hsch].
      rewrite (find_ride_unique db (ri_ride ri) (ride_keys Hc) Hr).
      destruct (find_booking b db); [|constructor].
      cbn [fst]. eapply t_join; [|eassumption].
      now apply find_ride_unique; [apply (ride_keys Hc)|].
    + apply claimLoop_transition; [apply (driver_keys Hc)|].
      intros c Hin. apply In_firstn in Hin. now apply filter_In in Hin.
  - rewrite run_cancelBooking.
    destruct (find_booking id db) as [b|] eqn:Hb; [|constructor].
    destruct (is_cancelled b) eqn:Hcan; [constructor|].
    rewrite (cancelTx_commits _ _ Hb).
    destruct (rideId b) as [r|] eqn:Hr; [|constructor].
    destruct (find_ride r db) as [trip|] eqn:Ht; [|constructor].
    destruct (other_active id r db) as [|x l] eqn:Ho; [|constructor].
    destruct (find_driver (driverId trip) db); [|constructor].
    cbn [fst]. apply t_close; try assumption.
    apply find_key_some in Hb. destruct Hb as [Hin _].
    destruct (active_on_open_trip Hc b Hin Hr Hcan) as [t [Hft Hst]].
    congruence.
Qed.

(* ================================================================= *)
(** ** Vehicles and trips across a sequence of operations *)

Lemma initial_consistent (db : DB) : initial_state db -> consistent db.
Proof.
  intros [Hr [Hav [Hnd Hb]]].
  constructor; rewrite ?Hr; cbn; try constructor; try assumption.
  - intros b r Hin Hrb. rewrite (Hb b Hin) in Hrb. discriminate.
  - intros trip [].
  - intros v Hin Hbusy. apply busy_not_available in Hbusy.
    unfold is_available in Hbusy. now rewrite (Hav v Hin) in Hbusy.
Qed.

(** In a consistent store the BUSY vehicles are exactly the vehicles of
    the SCHEDULED trips, one trip each. *)
Lemma consistent_counts (db : DB) :
  consistent db -> busy_count db = scheduled_count db.
Proof.
  intros [Hdk Hrk Hact Hbusy Hdist Hopen].
  unfold busy_count, scheduled_count.
  rewrite <- (length_map driver_id), <- (length_map driverId).
  apply Permutation_length. apply NoDup_Permutation.
  - now apply NoDup_map_filter.
  - assumption.
  - intros k. rewrite !in_map_iff. split.
    + intros [v [<- Hin]]. apply filter_In in Hin. destruct Hin as [Hin Hb].
      destruct (Hopen v Hin Hb) as [t [Htin [Hst Hd]]].
      exists t. split; [assumption | now apply filter_In].
    + intros [t [<- Hin]]. apply filter_In in Hin. destruct Hin as [Hin Hst].
      destruct (Hbusy t Hin Hst) as [v [Hv Hb]].
      apply find_key_some in Hv. destruct Hv as [Hvin Hvid].
      exists v. split; [assumption | now apply filter_In].
Qed.

Lemma transition_fleet (db db' : DB) :
  transition db db' -> List.length (drivers db') = List.length (drivers db).
Proof.
  intros H. destruct H; try reflexivity; cbn; unfold update_where;
    apply length_map.
Qed.

Lemma perform_all_consistent (rt : JSRuntime) (ops : list Operation)
  (db : DB) :
  consistent db ->
  consistent (perform_all rt ops db)
  /\ List.length (drivers (perform_all rt ops db)) = List.length (drivers db).
Proof.
  revert db. induction ops as [|op ops IH]; intros db Hc; [now split|].
  pose proof (perform_transition rt op Hc) as Ht.
  destruct (IH (perform rt op db) (transition_consistent Hc Ht)) as [H1 H2].
  change (perform_all rt (op :: ops) db)
    with (perform_all rt ops (perform rt op db)).
  split; [exact H1|].
  rewrite H2. now apply transition_fleet.
Qed.

Lemma claimLoop_rides (cands : list Driver) (b : BookingId) (p d : Point)
  (db : DB) :
  rides (fst (run (claimLoop cands b p d) db)) = rides db
  \/ exists c, rides (fst (run (claimLoop cands b p d) db))
               = rides db ++ [new_ride c p d db].
Proof.
  induction cands as [|c rest IH]; [now left|].
  rewrite run_claimLoop_cons.
  destruct (0 <? claim_count (driver_id c) db); [|exact IH].
  destruct (find_booking b db).
  - right. now exists (driver_id c).
  - left. now destruct (find_driver (driver_id c) (claimed (driver_id c) db)).
Qed.

(** A match never closes a trip. *)
Lemma match_keeps_trips_open (rt : JSRuntime) (b : BookingId) (p d : Point)
  (db : DB) :
  forallb is_scheduled (rides db) = true ->
  forallb is_scheduled (rides (perform rt (MatchRequest b p d) db)) = true.
Proof.
  intros Hall. unfold perform. rewrite run_matchRide.
  destruct (load_rides db (filter is_scheduled (rides db))); [|assumption].
  destruct (scanRides rt l p d) as [r|].
  - destruct (find_booking b db); [|assumption].
    destruct (find_ride (ride_id r) db); [|assumption].
    cbn [fst joined rides with_rides].
    rewrite forallb_forall in *. intros x Hin.
    apply In_update_where in Hin. destruct Hin as [y [Hy ->]].
    destruct (ride_id y =? ride_id r);
      [rewrite scheduled_set_path|]; now apply Hall.
  - destruct (claimLoop_rides (firstn 5 (filter is_available (drivers db)))
                b p d db) as [-> | [c ->]]; [assumption|].
    rewrite forallb_app, Hall. reflexivity.
Qed.

Lemma matches_keep_trips_open (rt : JSRuntime) (ops : list Operation)
  (db : DB) :
  forallb is_match ops = true ->
  forallb is_scheduled (rides db) = true ->
  forallb is_scheduled (rides (perform_all rt ops db)) = true.
Proof.
  revert db. induction ops as [|op ops IH]; intros db Hm Hall; [assumption|].
  cbn in Hm. apply andb_true_iff in Hm. destruct Hm as [Hop Hm].
  change (perform_all rt (op :: ops) db)
    with (perform_all rt ops (perform rt op db)).
  apply IH; [assumption|].
  destruct op; [|discriminate]. now apply match_keeps_trips_open.
Qed.

Lemma filter_all {A} (f : A -> bool) (l : list A) :
  forallb f l = true -> filter f l = l.
Proof.
  induction l as [|x l IH]; cbn; [reflexivity|].
  intros H. apply andb_true_iff in H. destruct H as [-> H].
  now rewrite IH.
Qed.

(** C1 (as amended): from a state where every vehicle is AVAILABLE and
    no trip exists, after any sequence of match and cancel operations the
    number of BUSY vehicles equals the number of SCHEDULED trips, and the
    number of SCHEDULED trips is at most the number of vehicles; when the
    sequence has no cancellation, the number of trips ever created is at
    most the initial number of idle vehicles. *)
Theorem busy_vehicles_match_open_trips (rt : JSRuntime) (db0 : DB)
  (ops : list Operation) :
  initial_state db0 ->
  busy_count (perform_all rt ops db0) = scheduled_count (perform_all rt ops db0)
  /\ scheduled_count (perform_all rt ops db0) <= List.length (drivers db0)
  /\ (forallb is_match ops = true ->
      List.length (rides (perform_all rt ops db0))
      <= List.length (drivers db0)).
Proof.
  intros Hinit.
  destruct (perform_all_consistent rt ops (initial_consistent Hinit))
    as [Hc Hlen].
  pose proof (consistent_counts Hc) as Heq.
  assert (Hle : scheduled_count (perform_all rt ops db0)
                <= List.length (drivers db0)).
  { rewrite <- Heq, <- Hlen. unfold busy_count. apply filter_length_le. }
  split; [assumption|]. split; [assumption|].
  intros Hm.
  assert (Hopen : forallb is_scheduled (rides (perform_all rt ops db0)) = true).
  { apply matches_keep_trips_open; [assumption|].
    destruct Hinit as [-> _]. reflexivity. }
  unfold scheduled_count in Hle. now rewrite (filter_all _ _ Hopen) in Hle.
Qed.

Lemma initial_one_vehicle : initial_state Examples.one_vehicle.
Proof.
  split; [reflexivity|]. split.
  - intros v [<- | []]. reflexivity.
  - split; [repeat constructor; intros [] |].
    intros b [<- | [<- | []]]; reflexivity.
Qed.

Lemma busy_vehicles_match_open_trips_witness :
  busy_count
    (perform_all RefRuntime.runtime Examples.match_cancel_match
       Examples.one_vehicle)
  = scheduled_count
      (perform_all RefRuntime.runtime Examples.match_cancel_match
         Examples.one_vehicle)
  /\ scheduled_count
       (perform_all RefRuntime.runtime Examples.match_cancel_match
          Examples.one_vehicle)
     <= List.length (drivers Examples.one_vehicle)
  /\ (forallb is_match Examples.match_cancel_match = true ->
      List.length
        (rides (perform_all RefRuntime.runtime Examples.match_cancel_match
                  Examples.one_vehicle))
      <= List.length (drivers Examples.one_vehicle)).
Proof.
  apply (busy_vehicles_match_open_trips RefRuntime.runtime
           Examples.match_cancel_match initial_one_vehicle).
Defined.

(** C1, as stated, fails: once a cancellation has released a vehicle,
    the vehicle serves a new trip.  With one vehicle, matching request 1,
    cancelling it and matching request 2 creates two trips. *)
Lemma trips_created_exceed_fleet :
  initial_state Examples.one_vehicle
  /\ List.length (drivers Examples.one_vehicle) = 1
  /\ List.length
       (rides (perform_all RefRuntime.runtime Examples.match_cancel_match
                 Examples.one_vehicle)) = 2.
Proof.
  split; [exact initial_one_vehicle|].
  split; vm_compute; reflexivity.
Qed.

Lemma run_findExistingRide (rt : JSRuntime) (p d : Point) (db : DB) :
  run (findExistingRide rt p d) db =
  match load_rides db (filter is_scheduled (rides db)) with
  | Some rs => (db, Returned (scanRides rt rs p d))
  | None => (db, Thrown)
  end.
Proof.
  unfold findExistingRide. cbn [call run exec].
  now destruct (load_rides db (filter is_scheduled (rides db))).
Qed.

(** C6: when the scan finds no admissible trip and the allocator has a
    candidate, [matchRide] claims the first candidate and, in one
    transaction, creates exactly one trip (SCHEDULED, path [pickup,
    dropoff], on the claimed vehicle, under a new id) and marks the
    request CONFIRMED with a reference to that trip. *)
Theorem new_trip_for_unmatched_request (rt : JSRuntime) (db : DB)
  (id : BookingId) (p d : Point) (b : Booking) (c : Driver)
  (cs : list Driver) :
  find_booking id db = Some b ->
  run (findExistingRide rt p d) db = (db, Returned None) ->
  firstn 5 (filter is_available (drivers db)) = c :: cs ->
  let trip := new_ride (driver_id c) p d db in
  let db' := ride_opened (driver_id c) id p d (claimed (driver_id c) db) in
  run (matchRide rt id p d) db = (db', Returned (Some trip))
  /\ 0 < claim_count (driver_id c) db
  /\ exec (transaction (newRideTx (driver_id c) id p d))
          (claimed (driver_id c) db)
     = (db', Returned trip)
  /\ rides db' = rides db ++ [trip]
  /\ ~ In (ride_id trip) (map ride_id (rides db))
  /\ ride_status trip = SCHEDULED
  /\ path trip = Some [p; d]
  /\ driverId trip = driver_id c
  /\ find_booking id db' = Some (set_booking_ride (ride_id trip) CONFIRMED b).
Proof.
  intros Hb Hscan Hcands trip db'.
  assert (Hpos : 0 < claim_count (driver_id c) db).
  { apply claim_count_positive. exists c.
    assert (Hin : In c (firstn 5 (filter is_available (drivers db))))
      by (rewrite Hcands; now left).
    apply In_firstn in Hin. apply filter_In in Hin. tauto. }
  split.
  { rewrite run_matchRide. rewrite run_findExistingRide in Hscan.
    destruct (load_rides db (filter is_scheduled (rides db))) as [rs|];
      [|discriminate].
    injection Hscan as ->.
    rewrite Hcands, run_claimLoop_cons.
    apply Nat.ltb_lt in Hpos. now rewrite Hpos, Hb. }
  split; [assumption|].
  split.
  { cbn [exec]. rewrite newRideTx_commits.
    replace (find_booking id (claimed (driver_id c) db))
      with (find_booking id db) by reflexivity.
    now rewrite Hb. }
  split; [reflexivity|].
  split; [apply fresh_not_in|].
  split; [reflexivity|]. split; [reflexivity|]. split; [reflexivity|].
  pose proof (find_booking_id _ _ Hb) as Hid.
  unfold find_booking in Hb |- *.
  change (bookings db')
    with (update_where (fun x => booking_id x =? id)
            (set_booking_ride (ride_id trip) CONFIRMED) (bookings db)).
  rewrite find_update_where by reflexivity.
  rewrite Hb. cbn. now rewrite Hid, Nat.eqb_refl.
Qed.

Lemma new_trip_for_unmatched_request_witness :
  run (matchRide RefRuntime.runtime 1 Examples.A Examples.B) Examples.fleet
  = (ride_opened 1 1 Examples.A Examples.B (claimed 1 Examples.fleet),
     Returned (Some (new_ride 1 Examples.A Examples.B Examples.fleet)))
  /\ rides (ride_opened 1 1 Examples.A Examples.B (claimed 1 Examples.fleet))
     = [Examples.ride 1 1 SCHEDULED [Examples.A; Examples.B]]
  /\ find_booking 1
       (ride_opened 1 1 Examples.A Examples.B (claimed 1 Examples.fleet))
     = Some (Examples.booking 1 Examples.A Examples.B CONFIRMED (Some 1)).
Proof.
  destruct (@new_trip_for_unmatched_request RefRuntime.runtime Examples.fleet
              1 Examples.A Examples.B
              (Examples.booking 1 Examples.A Examples.B PENDING None)
              (Examples.driver 1 AVAILABLE)
              (map (fun i => Examples.driver i AVAILABLE) [2; 3; 4; 5])
              eq_refl eq_refl eq_refl)
    as [Hrun [_ [_ [Hrides [_ [_ [_ [_ Hbooking]]]]]]]].
  split; [exact Hrun|]. split; [exact Hrides | exact Hbooking].
Defined.

(* ================================================================= *)
(** ** The capacity check *)

(** What the capacity check of the scan compares: the number of attached
    requests, CANCELLED ones included, with the vehicle's seats. *)
Lemma capacity_reached_attached (ride : RideIncl) :
  capacity_reached ride = true <->
  (seats (ri_driver ride) <= Z.of_nat (List.length (ri_bookings ride)))%Z.
Proof. unfold capacity_reached. rewrite Z.geb_le. reflexivity. Qed.

(** C3 (the code at the failing input): a trip on a vehicle with 4 seats
    holds 4 attached requests, one of them CANCELLED, so 3 seats are
    taken; the new request passes the deviation check; the capacity
    check still skips the trip and the scan finds nothing. *)
Lemma cancelled_seat_not_freed :
  seats (ri_driver Examples.full_ride) = 4%Z
  /\ List.length (ri_bookings Examples.full_ride) = 4
  /\ List.length (active_requests Examples.full_ride) = 3
  /\ isPathValid RefRuntime.runtime Examples.full_ride Examples.B Examples.C
     = true
  /\ capacity_reached Examples.full_ride = true
  /\ scanRides RefRuntime.runtime [Examples.full_ride] Examples.B Examples.C
     = None.
Proof. repeat split; vm_compute; reflexivity. Qed.

(* ================================================================= *)
(** ** Concurrent claims of one vehicle *)

Lemma claim_count_claimed (v : DriverId) (db : DB) :
  claim_count v (claimed v db) = 0.
Proof.
  assert (Hbusy : forall x, claim_sel v (set_driver_status BUSY x) = false).
  { intros x. unfold claim_sel, is_available. cbn. apply andb_false_r. }
  unfold claim_count, claimed. cbn [drivers with_drivers].
  unfold update_where.
  induction (drivers db) as [|x l IH]; cbn [map filter]; [reflexivity|].
  destruct (claim_sel v x) eqn:E.
  - rewrite Hbusy. apply IH.
  - rewrite E. apply IH.
Qed.

Lemma nth_error_replace {A} (l : list A) (i : nat) (x : A) :
  nth_error l i = Some x -> firstn i l ++ x :: skipn (S i) l = l.
Proof.
  revert i. induction l as [|a l IH]; intros [|i]; cbn; try discriminate.
  - now intros [= ->].
  - intros H. now rewrite IH.
Qed.

Lemma successes_replace (l : list (Prog nat)) (i : nat) (x y : Prog nat) :
  nth_error l i = Some x ->
  List.length (filter succeeded (firstn i l ++ y :: skipn (S i) l))
  + (if succeeded x then 1 else 0)
  = List.length (filter succeeded l) + (if succeeded y then 1 else 0).
Proof.
  intros H. rewrite <- (nth_error_replace _ _ H) at 3.
  rewrite !filter_app, !length_app. cbn [filter].
  destruct (succeeded x), (succeeded y); cbn [List.length]; lia.
Qed.

Lemma Forall_replace {A} (P : A -> Prop) (l : list A) (i : nat) (y : A) :
  Forall P l -> P y -> Forall P (firstn i l ++ y :: skipn (S i) l).
Proof.
  intros Hl Hy. apply Forall_app. split.
  - apply Forall_forall. intros x Hx. rewrite Forall_forall in Hl.
    apply Hl. now apply In_firstn in Hx.
  - constructor; [assumption|].
    apply Forall_forall. intros x Hx. rewrite Forall_forall in Hl.
    apply Hl. rewrite <- (firstn_skipn (S i) l). apply in_or_app. now right.
Qed.

(** What holds while the callers run: at most one has succeeded, and
    once one has, no row of the vehicle is AVAILABLE any more. *)
Lemma interleave_claims (v : DriverId) (schedule : list nat)
  (workers : list (Prog nat)) (db : DB) :
  Forall (attempt_state v) workers ->
  List.length (filter succeeded workers) <= 1 ->
  (List.length (filter succeeded workers) = 1 -> claim_count v db = 0) ->
  Forall (attempt_state v) (snd (interleave schedule workers db))
  /\ List.length (filter succeeded (snd (interleave schedule workers db))) <= 1.
Proof.
  revert workers db.
  induction schedule as [|i rest IH]; intros workers db Hst Hle Hone;
    [now split|].
  cbn [interleave].
  destruct (nth_error workers i) as [w|] eqn:Hw; [|now apply IH].
  assert (Hin : attempt_state v w).
  { rewrite Forall_forall in Hst. apply Hst. now apply nth_error_In in Hw. }
  destruct Hin as [-> | [count ->]].
  - cbn [step claimAttempt call].
    change (exec (driver_updateMany_claim v) db)
      with (claimed v db, Returned (claim_count v db)).
    cbv beta iota.
    pose proof (successes_replace workers i (Ret (claim_count v db)) Hw) as Hs.
    cbn [succeeded claimAttempt call] in Hs.
    apply IH.
    + apply Forall_replace; [assumption|]. right. now eexists.
    + destruct (0 <? claim_count v db) eqn:E; [|lia].
      apply Nat.ltb_lt in E.
      assert (List.length (filter succeeded workers) <> 1)
        by (intros H1; apply Hone in H1; lia).
      lia.
    + intros _. apply claim_count_claimed.
  - cbn [step]. rewrite (nth_error_replace _ _ Hw). now apply IH.
Qed.

(** Once a caller has succeeded, it stays the only one. *)
Lemma interleave_claims_won (v : DriverId) (schedule : list nat)
  (workers : list (Prog nat)) (db : DB) :
  Forall (attempt_state v) workers ->
  List.length (filter succeeded workers) = 1 ->
  claim_count v db = 0 ->
  List.length (filter succeeded (snd (interleave schedule workers db))) = 1.
Proof.
  revert workers db.
  induction schedule as [|i rest IH]; intros workers db Hst Hone Hzero;
    [assumption|].
  cbn [interleave].
  destruct (nth_error workers i) as [w|] eqn:Hw; [|now apply IH].
  assert (Hin : attempt_state v w).
  { rewrite Forall_forall in Hst. apply Hst. now apply nth_error_In in Hw. }
  destruct Hin as [-> | [count ->]].
  - cbn [step claimAttempt call].
    change (exec (driver_updateMany_claim v) db)
      with (claimed v db, Returned (claim_count v db)).
    cbv beta iota.
    pose proof (successes_replace workers i (Ret (claim_count v db)) Hw) as Hs.
    cbn [succeeded claimAttempt call] in Hs. rewrite Hzero in Hs.
    apply IH.
    + apply Forall_replace; [assumption|]. right. now eexists.
    + rewrite Hzero. cbn [Nat.ltb Nat.leb] in Hs. lia.
    + apply claim_count_claimed.
  - cbn [step]. rewrite (nth_error_replace _ _ Hw). now apply IH.
Qed.

Lemma pending_attempts (v : DriverId) (n : nat) :
  Forall (attempt_state v) (repeat (claimAttempt v) n)
  /\ List.length (filter succeeded (repeat (claimAttempt v) n)) = 0.
Proof.
  split.
  - apply Forall_forall. intros w Hw. apply repeat_spec in Hw. now left.
  - induction n as [|n IH]; [reflexivity | apply IH].
Qed.

(** On an AVAILABLE vehicle, the first caller scheduled wins. *)
Lemma interleave_claims_first (v : DriverId) (n : nat) (schedule : list nat)
  (db : DB) :
  0 < claim_count v db ->
  (exists i, In i schedule /\ i < n) ->
  List.length
    (filter succeeded
       (snd (interleave schedule (repeat (claimAttempt v) n) db))) = 1.
Proof.
  intros Hpos. destruct (pending_attempts v n) as [Hst Hnone].
  induction schedule as [|i rest IH]; intros [j [Hj Hlt]]; [contradiction|].
  cbn [interleave].
  destruct (nth_error (repeat (claimAttempt v) n) i) as [w|] eqn:Hw.
  - assert (w = claimAttempt v)
      by (apply nth_error_In in Hw; now apply repeat_spec in Hw).
    subst w. cbn [step claimAttempt call].
    change (exec (driver_updateMany_claim v) db)
      with (claimed v db, Returned (claim_count v db)).
    cbv beta iota.
    pose proof (successes_replace (repeat (claimAttempt v) n) i
                  (Ret (claim_count v db)) Hw) as Hs.
    cbn [succeeded claimAttempt call] in Hs.
    apply Nat.ltb_lt in Hpos as Hlt'. rewrite Hlt' in Hs.
    apply interleave_claims_won with (v := v).
    + apply Forall_replace; [assumption|]. right. now eexists.
    + change (call (driver_updateMany_claim v) (fun count => Ret count))
        with (claimAttempt v) in Hs. lia.
    + apply claim_count_claimed.
  - apply IH. destruct Hj as [<- | Hj]; [|now exists j].
    apply nth_error_None in Hw. rewrite repeat_length in Hw. lia.
Qed.

(** C4: any number of callers attempt the conditional claim of the same
    vehicle, their store operations interleaved in any order.  At most
    one caller ends with a positive count; every caller has either not
    run yet or holds its count, which is 0 for all but that one; a claim
    that reports 0 has written nothing; and when the vehicle is AVAILABLE
    and some caller runs, exactly one caller succeeds. *)
Theorem claim_exclusive (db : DB) (v : DriverId) (n : nat)
  (schedule : list nat) :
  List.length
    (filter succeeded
       (snd (interleave schedule (repeat (claimAttempt v) n) db))) <= 1
  /\ Forall (attempt_state v)
       (snd (interleave schedule (repeat (claimAttempt v) n) db))
  /\ (forall s, claim_count v s = 0 ->
        exec (driver_updateMany_claim v) s = (s, Returned 0))
  /\ (0 < claim_count v db ->
      (exists i, In i schedule /\ i < n) ->
      List.length
        (filter succeeded
           (snd (interleave schedule (repeat (claimAttempt v) n) db))) = 1).
Proof.
  destruct (pending_attempts v n) as [Hst Hzero].
  destruct (@interleave_claims v schedule (repeat (claimAttempt v) n) db Hst)
    as [H1 H2]; [lia | lia |].
  split; [assumption|]. split; [assumption|].
  split; [|apply interleave_claims_first].
  intros s Hs.
  change (exec (driver_updateMany_claim v) s)
    with (claimed v s, Returned (claim_count v s)).
  now rewrite claimed_nothing, Hs.
Qed.

(** Three callers on vehicle 3 of the fleet, the third scheduled
    first. *)
Lemma claim_exclusive_witness :
  exec (driver_updateMany_claim 3) Examples.fleet_five_taken
  = (Examples.fleet_five_taken, Returned 0)
  /\ List.length
       (filter succeeded
          (snd (interleave [2; 0; 1; 2] (repeat (claimAttempt 3) 3)
                  Examples.fleet))) = 1.
Proof.
  destruct (claim_exclusive Examples.fleet 3 3 [2; 0; 1; 2])
    as [_ [_ [Hzero Hone]]].
  split.
  - destruct (claim_exclusive Examples.fleet_five_taken 3 0 [])
      as [_ [_ [H _]]].
    apply H. reflexivity.
  - apply Hone; [cbn; lia|]. exists 2. cbn. split; [now left | lia].
Defined.

(* ================================================================= *)
(** ** Input validation of [createBooking] *)

Lemma run_calculatePrice (distanceKm : float) (db : DB) :
  exists cost, run (calculatePrice distanceKm) db = (db, Returned cost).
Proof. unfold calculatePrice. cbn. eauto. Qed.

Section CreateBooking.

Variable rt : JSRuntime.

(** Past the input check, the answer is 201 or 500. *)
Lemma createBooking_accepted (fields : list (string * JS.value)) (db : DB) :
  invalidCoordinates (lookup "pickup" fields) (lookup "dropoff" fields)
  = false ->
  exists db' r,
    run (createBooking rt (Obj fields)) db = (db', Returned r)
    /\ (status_code r = 201 \/ status_code r = 500).
Proof.
  intros Hvalid. unfold createBooking. cbn [get].
  rewrite Hvalid, run_try_catch, run_bind.
  destruct (run_calculatePrice
              (calculateDistance rt (asPoint rt (lookup "pickup" fields))
                 (asPoint rt (lookup "dropoff" fields))) db) as [cost ->].
  cbn [call run].
  destruct (exec (booking_create (lookup "userId" fields)
                    (asPoint rt (lookup "pickup" fields))
                    (asPoint rt (lookup "dropoff" fields)) cost) db)
    as [db1 [booking|]].
  - rewrite run_bind.
    destruct (run (matchRide rt (booking_id booking)
                     (asPoint rt (lookup "pickup" fields))
                     (asPoint rt (lookup "dropoff" fields))) db1)
      as [db2 [[ride|]|]]; cbn; eauto.
  - cbn. eauto.
Qed.

Lemma invalidCoordinates_falsy (p d : JS.value) :
  invalidCoordinates p d = true <->
  truthy p = false \/ truthy d = false
  \/ truthy (get p "lat") = false \/ truthy (get d "lat") = false.
Proof.
  unfold invalidCoordinates.
  rewrite !orb_true_iff, !negb_true_iff. tauto.
Qed.

Lemma createBooking_rejected_iff (fields : list (string * JS.value))
  (db : DB) :
  run (createBooking rt (Obj fields)) db
  = (db, Returned invalid_coordinates_response)
  <-> invalidCoordinates (lookup "pickup" fields) (lookup "dropoff" fields)
      = true.
Proof.
  split.
  - intros Hrun.
    destruct (invalidCoordinates (lookup "pickup" fields)
                (lookup "dropoff" fields)) eqn:E; [reflexivity|].
    destruct (createBooking_accepted fields db E) as [db' [r [Hr Hs]]].
    rewrite Hr in Hrun. injection Hrun as _ ->.
    cbn in Hs. destruct Hs; discriminate.
  - intros Hinv. unfold createBooking. cbn [get]. now rewrite Hinv.
Qed.

End CreateBooking.

(** A body that is not an object, [undefined] or [null] (a string, a
    number, a boolean, an array) has no [pickup]: the answer is the 400. *)
Lemma createBooking_rejected_body (rt : JSRuntime) (reqBody : JS.value)
  (db : DB) :
  reqBody <> Undefined -> reqBody <> Null ->
  (run (createBooking rt reqBody) db
   = (db, Returned invalid_coordinates_response)
   <-> invalidCoordinates (get reqBody "pickup") (get reqBody "dropoff")
       = true).
Proof.
  intros Hu Hn.
  destruct reqBody as [| |x|x|x|items|fields];
    try (now contradiction Hu); try (now contradiction Hn);
    try (split; intros _; reflexivity).
  apply createBooking_rejected_iff.
Qed.

(** C9 (as amended): on a body that is neither [undefined] nor [null],
    [createBooking] answers 400 "Invalid pickup or dropoff coordinates",
    the store untouched, exactly when [pickup], [dropoff], [pickup.lat]
    or [dropoff.lat] is absent or falsy; on an [undefined] or [null]
    body the destructuring throws and the answer is the 500 of the
    [catch], the store untouched.  So a pickup or dropoff at latitude 0
    is rejected whatever the rest of the body, while the longitudes are
    not looked at: with truthy latitudes the request passes the check
    (the answer is 201, or 500 when a later step throws), whatever
    stands for the longitudes (nothing at all, a string, null). *)
Theorem createBooking_validation (rt : JSRuntime) (reqBody : JS.value)
  (db : DB) :
  (reqBody = Undefined \/ reqBody = Null ->
   run (createBooking rt reqBody) db = (db, Returned server_error))
  /\ (reqBody <> Undefined -> reqBody <> Null ->
      (run (createBooking rt reqBody) db
       = (db, Returned invalid_coordinates_response)
       <-> truthy (get reqBody "pickup") = false
           \/ truthy (get reqBody "dropoff") = false
           \/ truthy (get (get reqBody "pickup") "lat") = false
           \/ truthy (get (get reqBody "dropoff") "lat") = false))
  /\ (forall user ln other,
        run (createBooking rt
               (booking_request user (coordinates (Num 0) ln) other)) db
        = (db, Returned invalid_coordinates_response)
        /\ run (createBooking rt
                  (booking_request user other (coordinates (Num 0) ln))) db
           = (db, Returned invalid_coordinates_response))
  /\ (forall user x y lnP lnD,
        truthy (Num x) = true -> truthy (Num y) = true ->
        exists db' r,
          run (createBooking rt
                 (booking_request user (coordinates (Num x) lnP)
                    (coordinates (Num y) lnD))) db
          = (db', Returned r)
          /\ (status_code r = 201 \/ status_code r = 500)).
Proof.
  split; [|split; [|split]].
  - intros [-> | ->]; reflexivity.
  - intros Hu Hn. rewrite (createBooking_rejected_body rt db Hu Hn).
    apply invalidCoordinates_falsy.
  - intros user ln other. unfold booking_request. split.
    + apply createBooking_rejected_iff. apply invalidCoordinates_falsy.
      right. right. left. reflexivity.
    + apply createBooking_rejected_iff. apply invalidCoordinates_falsy.
      right. right. right. reflexivity.
  - intros user x y lnP lnD Hx Hy.
    unfold booking_request. apply createBooking_accepted.
    destruct (invalidCoordinates _ _) eqn:E; [|reflexivity].
    apply invalidCoordinates_falsy in E.
    destruct E as [H | [H | [H | H]]]; cbn in H, Hx, Hy; congruence.
Qed.

(** A request from latitude 10 to latitude 11 with no pickup longitude
    and a string for the dropoff longitude passes the check; one whose
    pickup is on the equator is answered 400, and so is a body that is
    an array; the store is as it was. *)
Lemma createBooking_validation_witness :
  (exists db' r,
     run (createBooking RefRuntime.runtime
            (booking_request (Str "u")
               (coordinates (Num 10) Undefined)
               (coordinates (Num 11) (Str "east"))))
       Examples.fleet
     = (db', Returned r)
     /\ (status_code r = 201 \/ status_code r = 500))
  /\ run (createBooking RefRuntime.runtime
            (booking_request (Str "u")
               (coordinates (Num 0) (Num 10))
               (coordinates (Num 11) (Num 10))))
       Examples.fleet
     = (Examples.fleet, Returned invalid_coordinates_response)
  /\ run (createBooking RefRuntime.runtime (Arr [Num 10; Num 11]))
       Examples.fleet
     = (Examples.fleet, Returned invalid_coordinates_response).
Proof.
  split; [|split].
  - apply (proj2 (proj2 (proj2 (createBooking_validation RefRuntime.runtime
                                  (Obj []) Examples.fleet))));
      reflexivity.
  - apply (proj1 (proj2 (proj2 (createBooking_validation RefRuntime.runtime
                                  (Obj []) Examples.fleet)))).
  - apply (proj1 (proj2 (createBooking_validation RefRuntime.runtime
                           (Arr [Num 10; Num 11]) Examples.fleet)));
      [discriminate | discriminate | left; reflexivity].
Defined.

(** C9, as stated for every input, fails when the request has no body:
    [pickup] is absent, and the answer is not the invalid-coordinates
    error but the 500 "Failed to create booking" of the [catch], for the
    destructuring of [req.body] throws before the check is reached. *)
Lemma createBooking_without_body :
  run (createBooking RefRuntime.runtime Undefined) Examples.fleet
  = (Examples.fleet, Returned server_error)
  /\ run (createBooking RefRuntime.runtime Null) Examples.fleet
     = (Examples.fleet, Returned server_error)
  /\ status_code server_error = 500
  /\ status_code invalid_coordinates_response = 400.
Proof. repeat split. Qed.

(* ================================================================= *)
(** * Further properties *)

(** ** Path length *)

Lemma consecutive_snoc (l : list Point) (a x : Point) :
  consecutive ((l ++ [a]) ++ [x]) = consecutive (l ++ [a]) ++ [(a, x)].
Proof.
  induction l as [|b l IH]; [reflexivity|].
  change (((b :: l) ++ [a]) ++ [x]) with (b :: ((l ++ [a]) ++ [x])).
  change ((b :: l) ++ [a]) with (b :: (l ++ [a])).
  cbn [consecutive]. rewrite IH.
  destruct l; reflexivity.
Qed.

(** X1: a path of fewer than two points has length 0, and appending a
    stop to a non-empty path adds the distance from its last stop; the
    path of a new trip, [pickup, dropoff], is as long as 0 plus the
    direct distance. *)
Theorem calculatePathDistance_append (rt : JSRuntime) :
  calculatePathDistance rt [] = 0%float
  /\ (forall a, calculatePathDistance rt [a] = 0%float)
  /\ (forall l a x,
        calculatePathDistance rt ((l ++ [a]) ++ [x])
        = (calculatePathDistance rt (l ++ [a]) + calculateDistance rt a x)%float)
  /\ (forall a b,
        calculatePathDistance rt [a; b]
        = (0 + calculateDistance rt a b)%float).
Proof.
  split; [reflexivity|]. split; [reflexivity|]. split; [|reflexivity].
  intros l a x. rewrite !calculatePathDistance_pathLength.
  unfold pathLength. rewrite consecutive_snoc, fold_left_app. reflexivity.
Qed.

(** ** Pricing *)

(** X2: [calculatePrice] only reads the store and never throws; the price
    is the base fare [50 + 12 * distance] times one of the multipliers 1,
    1.2 and 1.5, and the multiplier is 1 when the store has no drivers. *)
Theorem calculatePrice_multiplier (distanceKm : float) (db : DB) :
  exists m,
    run (calculatePrice distanceKm) db
    = (db, Returned ((50 + distanceKm * 12) * m)%float)
    /\ is_multiplier m
    /\ (drivers db = [] -> m = 1.0%float).
Proof.
  unfold calculatePrice. cbn [call run exec].
  destruct (drivers db) as [|v l] eqn:E.
  - exists 1.0%float. cbn. unfold is_multiplier. auto.
  - cbn [List.length Nat.ltb Nat.leb].
    match goal with
    | |- context [(0.8 <? ?u)%float] => set (utilization := u)
    end.
    destruct (0.8 <? utilization)%float;
      [|destruct (0.5 <? utilization)%float];
      eexists; (split; [reflexivity|]); unfold is_multiplier;
      (split; [auto | discriminate]).
Qed.

Lemma calculatePrice_multiplier_witness :
  exists m,
    run (calculatePrice 10)
      (with_drivers [] Examples.fleet)
    = (with_drivers [] Examples.fleet, Returned ((50 + 10 * 12) * m)%float)
    /\ m = 1.0%float.
Proof.
  destruct (calculatePrice_multiplier 10 (with_drivers [] Examples.fleet))
    as [m [Hrun [_ Hm]]].
  exists m. split; [exact Hrun | apply Hm; reflexivity].
Defined.

(** ** Cancelling twice *)

Lemma cancelTx_marks (id : BookingId) (db db' : DB) (b : Booking) :
  find_booking id db = Some b ->
  cancelTx (load_booking db b) db = Some (db', tt) ->
  find_booking id db' = Some (set_booking_status CANCELLED b).
Proof.
  intros Hb Htx. rewrite (cancelTx_commits _ _ Hb) in Htx.
  pose proof (find_booking_marked _ _ Hb) as Hm.
  destruct (rideId b) as [r|]; [|now injection Htx as <-].
  destruct (find_ride r db) as [trip|]; [|now injection Htx as <-].
  destruct (other_active id r db); [|now injection Htx as <-].
  destruct (find_driver (driverId trip) db); [|discriminate].
  injection Htx as <-. exact Hm.
Qed.

(** X3: once [cancelBooking] has answered that the booking is cancelled,
    calling it again with the same id is answered 400 "Booking already
    cancelled" and leaves the store as the first call left it. *)
Theorem cancel_twice_rejected (db db' : DB) (id : BookingId) :
  run (cancelBooking (Some id)) db = (db', Returned booking_cancelled) ->
  run (cancelBooking (Some id)) db'
  = (db', Returned booking_already_cancelled).
Proof.
  rewrite !run_cancelBooking.
  destruct (find_booking id db) as [b|] eqn:Hb; [|discriminate].
  destruct (is_cancelled b); [discriminate|].
  destruct (cancelTx (load_booking db b) db) as [[s []]|] eqn:Htx;
    [|discriminate].
  intros [= <-].
  now rewrite (@cancelTx_marks id db _ b Hb Htx).
Qed.

Lemma cancel_twice_rejected_witness :
  run (cancelBooking (Some 1))
    (fst (run (cancelBooking (Some 1)) Examples.two_trips))
  = (fst (run (cancelBooking (Some 1)) Examples.two_trips),
     Returned booking_already_cancelled).
Proof.
  apply (@cancel_twice_rejected Examples.two_trips). reflexivity.
Defined.

(** ** The cancellation script *)

Lemma count_after_marking (id : BookingId) (r : RideId) (l : list Booking) :
  filter (fun b => on_ride r b && negb (is_cancelled b))
    (update_where (fun x => booking_id x =? id)
       (set_booking_status CANCELLED) l)
  = filter (fun x => on_ride r x && negb (booking_id x =? id)
                     && negb (is_cancelled x)) l.
Proof.
  unfold update_where.
  induction l as [|x l IH]; cbn [map filter]; [reflexivity|].
  rewrite IH. destruct (booking_id x =? id).
  - unfold on_ride, is_cancelled. cbn.
    rewrite andb_false_r. reflexivity.
  - cbn. rewrite andb_true_r. reflexivity.
Qed.

(** X4: the transaction the cancellation script runs commits what the
    controller's transaction commits: counting the active bookings of the
    trip inside the transaction, after the update, gives the number the
    controller gets from the list it loaded before, the cancelled booking
    left out. *)
Theorem scriptCancelTx_agrees (db : DB) (id : BookingId) (b : Booking)
  (trip : Ride) :
  find_booking id db = Some b ->
  rideId b = Some (ride_id trip) ->
  find_ride (ride_id trip) db = Some trip ->
  scriptCancelTx id trip db = cancelTx (load_booking db b) db.
Proof.
  intros Hb Hr Ht.
  rewrite (cancelTx_commits _ _ Hb), Hr, Ht.
  unfold scriptCancelTx, tx_bind, tx_booking_update. rewrite Hb.
  fold (marked_cancelled id db).
  unfold tx_booking_count_active.
  change (bookings (marked_cancelled id db))
    with (update_where (fun x => booking_id x =? id)
            (set_booking_status CANCELLED) (bookings db)).
  rewrite count_after_marking. fold (other_active id (ride_id trip) db).
  destruct (other_active id (ride_id trip) db) as [|x l];
    cbn [List.length Nat.eqb]; [|reflexivity].
  unfold tx_ride_update, tx_driver_update, tx_ret.
  replace (find_ride (ride_id trip) (marked_cancelled id db))
    with (find_ride (ride_id trip) db) by reflexivity.
  rewrite Ht.
  match goal with
  | |- context [find_driver ?d ?s] =>
      replace (find_driver d s) with (find_driver d db) by reflexivity
  end.
  destruct (find_driver (driverId trip) db); reflexivity.
Qed.

Lemma scriptCancelTx_agrees_witness :
  scriptCancelTx 1 (Examples.ride 1 1 SCHEDULED [Examples.A; Examples.B])
    Examples.two_trips
  = cancelTx
      (load_booking Examples.two_trips
         (Examples.booking 1 Examples.A Examples.B CONFIRMED (Some 1)))
      Examples.two_trips.
Proof.
  apply (@scriptCancelTx_agrees Examples.two_trips 1); reflexivity.
Defined.

(* ================================================================= *)
(** ** Joining a trip *)

Lemma find_ride_joined (r r' : RideId) (b : BookingId) (newPath : list Point)
  (db : DB) :
  find_ride r' (joined r b newPath db)
  = option_map (fun x => if ride_id x =? r then set_ride_path newPath x else x)
      (find_ride r' db).
Proof.
  unfold find_ride, joined. cbn [rides with_rides].
  now rewrite find_update_where by reflexivity.
Qed.

Lemma find_booking_joined (r : RideId) (b b' : BookingId)
  (newPath : list Point) (db : DB) :
  find_booking b' (joined r b newPath db)
  = option_map
      (fun x => if booking_id x =? b then set_booking_ride r CONFIRMED x else x)
      (find_booking b' db).
Proof.
  unfold find_booking, joined. cbn [bookings with_rides with_bookings].
  now rewrite find_update_where by reflexivity.
Qed.

(** X5: [addBookingToRide] throws and writes nothing when the booking or
    the trip does not exist.  Otherwise it commits both writes: the
    trip's path is the old path with pickup and dropoff appended (status
    and vehicle kept), the booking is CONFIRMED on the trip, and the
    vehicles, the other trips and the other bookings are as they were. *)
Theorem addBookingToRide_attach (r : RideId) (b : BookingId) (p d : Point)
  (db : DB) :
  (find_booking b db = None \/ find_ride r db = None ->
   run (addBookingToRide r b p d) db = (db, Thrown))
  /\ (forall bk trip,
        find_booking b db = Some bk -> find_ride r db = Some trip ->
        exists db',
          run (addBookingToRide r b p d) db
          = (db', Returned (set_ride_path (path_or_empty trip ++ [p; d]) trip))
          /\ find_ride r db'
             = Some (set_ride_path (path_or_empty trip ++ [p; d]) trip)
          /\ find_booking b db' = Some (set_booking_ride r CONFIRMED bk)
          /\ drivers db' = drivers db
          /\ (forall r', r' <> r -> find_ride r' db' = find_ride r' db)
          /\ (forall b', b' <> b -> find_booking b' db' = find_booking b' db)).
Proof.
  rewrite run_addBookingToRide. split.
  - intros [-> | H]; [reflexivity|].
    rewrite H. now destruct (find_booking b db).
  - intros bk trip Hb Ht. rewrite Hb, Ht.
    eexists. split; [reflexivity|].
    split.
    { rewrite find_ride_joined, Ht. cbn.
      now rewrite (find_ride_id _ _ Ht), Nat.eqb_refl. }
    split.
    { rewrite find_booking_joined, Hb. cbn.
      now rewrite (find_booking_id _ _ Hb), Nat.eqb_refl. }
    split; [reflexivity|]. split.
    + intros r' Hne. rewrite find_ride_joined.
      destruct (find_ride r' db) as [x|] eqn:E; [|reflexivity]. cbn.
      rewrite (find_ride_id _ _ E).
      apply Nat.eqb_neq in Hne. now rewrite Hne.
    + intros b' Hne. rewrite find_booking_joined.
      destruct (find_booking b' db) as [x|] eqn:E; [|reflexivity]. cbn.
      rewrite (find_booking_id _ _ E).
      apply Nat.eqb_neq in Hne. now rewrite Hne.
Qed.

Lemma addBookingToRide_attach_witness :
  run (addBookingToRide 1 9 Examples.B Examples.C) Examples.two_trips
  = (Examples.two_trips, Thrown)
  /\ exists db',
       run (addBookingToRide 1 5 Examples.B Examples.C) Examples.two_trips
       = (db', Returned
                 (Examples.ride 1 1 SCHEDULED
                    [Examples.A; Examples.B; Examples.B; Examples.C]))
       /\ find_booking 5 db'
          = Some (Examples.booking 5 Examples.C Examples.A CONFIRMED (Some 1)).
Proof.
  split.
  - apply (proj1 (addBookingToRide_attach 1 9 Examples.B Examples.C
                    Examples.two_trips)).
    left. reflexivity.
  - destruct (proj2 (addBookingToRide_attach 1 5 Examples.B Examples.C
                       Examples.two_trips)
                (Examples.booking 5 Examples.C Examples.A PENDING None)
                (Examples.ride 1 1 SCHEDULED [Examples.A; Examples.B])
                eq_refl eq_refl)
      as [db' [Hrun [_ [Hb _]]]].
    exists db'. split; [exact Hrun | exact Hb].
Defined.

(* ================================================================= *)
(** ** The scan of open trips *)

Lemma load_rides_total (db : DB) (rs : list Ride) :
  (forall r, In r rs -> exists v, find_driver (driverId r) db = Some v) ->
  exists l, load_rides db rs = Some l.
Proof.
  induction rs as [|r rs IH]; intros H; [now exists []|].
  destruct (H r (or_introl eq_refl)) as [v Hv].
  destruct IH as [l Hl]; [intros x Hx; apply H; now right|].
  cbn. rewrite Hv, Hl. eauto.
Qed.

Lemma scanRides_find (rt : JSRuntime) (db : DB) (p d : Point)
  (rs : list Ride) (l : list RideIncl) :
  load_rides db rs = Some l ->
  scanRides rt l p d = find (admissible rt db p d) rs.
Proof.
  revert l. induction rs as [|r rs IH]; intros l; cbn [load_rides find].
  - now intros [= <-].
  - unfold admissible at 1.
    destruct (find_driver (driverId r) db) as [v|]; [|discriminate].
    destruct (load_rides db rs) as [l'|]; [|discriminate].
    intros [= <-]. cbn [scanRides].
    destruct (capacity_reached _); cbn [negb andb]; [now apply IH|].
    destruct (isPathValid rt _ p d); [reflexivity | now apply IH].
Qed.

(** X6: [findExistingRide] only reads the store, and what it returns is
    the first SCHEDULED trip, in store order, whose count of attached
    bookings is below its vehicle's seats and which passes the deviation
    check; null when there is none. *)
Theorem findExistingRide_first_admissible (rt : JSRuntime) (db : DB)
  (p d : Point) :
  (forall r, In r (rides db) -> is_scheduled r = true ->
             exists v, find_driver (driverId r) db = Some v) ->
  run (findExistingRide rt p d) db
  = (db, Returned (find (admissible rt db p d)
                     (filter is_scheduled (rides db)))).
Proof.
  intros Hfk. rewrite run_findExistingRide.
  destruct (load_rides_total db (filter is_scheduled (rides db))) as [l Hl].
  { intros r Hr. apply filter_In in Hr. now apply Hfk. }
  rewrite Hl. now rewrite (scanRides_find rt db p d _ Hl).
Qed.

Lemma findExistingRide_first_admissible_witness :
  run (findExistingRide RefRuntime.runtime Examples.B Examples.C)
    Examples.two_trips
  = (Examples.two_trips,
     Returned (Some (Examples.ride 1 1 SCHEDULED [Examples.A; Examples.B]))).
Proof.
  rewrite (@findExistingRide_first_admissible RefRuntime.runtime
             Examples.two_trips Examples.B Examples.C).
  - vm_compute. reflexivity.
  - intros r [<- | [<- | []]] _; eexists; reflexivity.
Defined.

(* ================================================================= *)
(** ** What a match leaves in the store *)

Lemma claimLoop_some (cands : list Driver) (b : BookingId) (p d : Point)
  (db db' : DB) (ride : Ride) :
  run (claimLoop cands b p d) db = (db', Returned (Some ride)) ->
  exists c bk,
    find_booking b db = Some bk
    /\ 0 < claim_count c db
    /\ db' = ride_opened c b p d (claimed c db)
    /\ ride = new_ride c p d db.
Proof.
  induction cands as [|c rest IH]; [discriminate|].
  rewrite run_claimLoop_cons.
  destruct (0 <? claim_count (driver_id c) db) eqn:E; [|exact IH].
  apply Nat.ltb_lt in E.
  destruct (find_booking b db) as [bk|] eqn:Hb.
  - intros [= <- <-]. now exists (driver_id c), bk.
  - destruct (find_driver (driver_id c) (claimed (driver_id c) db));
      discriminate.
Qed.

Lemma find_ride_opened (c : DriverId) (b : BookingId) (p d : Point)
  (s : DB) :
  find_ride (ride_id (new_ride c p d s)) (ride_opened c b p d s)
  = Some (new_ride c p d s).
Proof.
  unfold find_ride.
  change (rides (ride_opened c b p d s)) with (rides s ++ [new_ride c p d s]).
  rewrite find_app.
  rewrite (@find_key_absent _ ride_id _ (rides s)) by apply fresh_not_in.
  cbn. now rewrite Nat.eqb_refl.
Qed.

Lemma find_booking_opened (c : DriverId) (b : BookingId) (p d : Point)
  (s : DB) (bk : Booking) :
  find_booking b s = Some bk ->
  find_booking b (ride_opened c b p d s)
  = Some (set_booking_ride (ride_id (new_ride c p d s)) CONFIRMED bk).
Proof.
  intros Hb. pose proof (find_booking_id _ _ Hb) as Hid.
  unfold find_booking in Hb |- *.
  change (bookings (ride_opened c b p d s))
    with (update_where (fun x => booking_id x =? b)
            (set_booking_ride (ride_id (new_ride c p d s)) CONFIRMED)
            (bookings s)).
  rewrite find_update_where by reflexivity.
  rewrite Hb. cbn. now rewrite Hid, Nat.eqb_refl.
Qed.

(** What the store holds once [matchRide] has returned a trip. *)
Lemma matchRide_effect (rt : JSRuntime) (b : BookingId) (p d : Point)
  (db db' : DB) (ride : Ride) :
  NoDup (map ride_id (rides db)) ->
  run (matchRide rt b p d) db = (db', Returned (Some ride)) ->
  exists bk,
    find_booking b db = Some bk
    /\ find_booking b db' = Some (set_booking_ride (ride_id ride) CONFIRMED bk)
    /\ find_ride (ride_id ride) db' = Some ride
    /\ ride_status ride = SCHEDULED
    /\ exists stops, path ride = Some (stops ++ [p; d]).
Proof.
  intros Hnd. rewrite run_matchRide.
  destruct (load_rides db (filter is_scheduled (rides db))) as [rs|] eqn:Hl;
    [|discriminate].
  destruct (scanRides rt rs p d) as [r|] eqn:Hs.
  - destruct (scanRides_some _ _ _ _ Hs) as [ri [Hin [<- _]]].
    destruct (load_rides_In _ _ _ Hl Hin) as [Hr _].
    apply filter_In in Hr. destruct Hr as [Hr Hsch].
    rewrite (find_ride_unique db (ri_ride ri) Hnd Hr).
    destruct (find_booking b db) as [bk|] eqn:Hb; [|discriminate].
    intros [= <- <-]. exists bk. split; [reflexivity|].
    change (ride_id (set_ride_path _ (ri_ride ri)))
      with (ride_id (ri_ride ri)).
    split.
    { rewrite find_booking_joined, Hb. cbn.
      now rewrite (find_booking_id _ _ Hb), Nat.eqb_refl. }
    split.
    { rewrite find_ride_joined, (find_ride_unique db (ri_ride ri) Hnd Hr).
      cbn. now rewrite Nat.eqb_refl. }
    split.
    { unfold is_scheduled in Hsch. cbn.
      now destruct (ride_status (ri_ride ri)). }
    now exists (path_or_empty (ri_ride ri)).
  - intros Hrun. apply claimLoop_some in Hrun.
    destruct Hrun as [c [bk [Hb [_ [-> ->]]]]].
    exists bk. split; [assumption|].
    split; [exact (@find_booking_opened c b p d (claimed c db) bk Hb)|].
    split; [exact (find_ride_opened c b p d (claimed c db))|].
    split; [reflexivity|]. now exists [].
Qed.

(** X7: when [matchRide] returns a trip, the store holds that trip under
    its id, SCHEDULED, with a path that ends with the request's pickup
    and dropoff, and the store holds the request with status CONFIRMED
    and the trip's id as its [rideId], its other columns as they were
    (trip ids being keys). *)
Theorem matchRide_confirms (rt : JSRuntime) (b : BookingId) (p d : Point)
  (db db' : DB) (ride : Ride) :
  NoDup (map ride_id (rides db)) ->
  run (matchRide rt b p d) db = (db', Returned (Some ride)) ->
  find_ride (ride_id ride) db' = Some ride
  /\ ride_status ride = SCHEDULED
  /\ (exists stops, path ride = Some (stops ++ [p; d]))
  /\ exists bk bk',
       find_booking b db = Some bk
       /\ find_booking b db' = Some bk'
       /\ booking_status bk' = CONFIRMED
       /\ rideId bk' = Some (ride_id ride)
       /\ booking_id bk' = b /\ userId bk' = userId bk
       /\ pickup bk' = pickup bk /\ dropoff bk' = dropoff bk
       /\ price bk' = price bk.
Proof.
  intros Hnd Hrun.
  destruct (@matchRide_effect rt b p d db db' ride Hnd Hrun)
    as [bk [H1 [H2 [H3 [H4 H5]]]]].
  split; [assumption|]. split; [assumption|]. split; [assumption|].
  exists bk, (set_booking_ride (ride_id ride) CONFIRMED bk).
  split; [assumption|]. split; [assumption|].
  split; [reflexivity|]. split; [reflexivity|].
  split; [now apply find_booking_id in H1|].
  now repeat split.
Qed.

(** In [Examples.two_trips], request 5 (PENDING, C -> A) matched from B
    to C joins trip 1: the trip is stored with the two stops appended,
    and the request is stored CONFIRMED on trip 1. *)
Lemma matchRide_confirms_witness :
  find_ride 1 (fst (run (matchRide RefRuntime.runtime 5 Examples.B Examples.C)
                      Examples.two_trips))
  = Some (Examples.ride 1 1 SCHEDULED
            [Examples.A; Examples.B; Examples.B; Examples.C])
  /\ find_booking 5 Examples.two_trips
     = Some (Examples.booking 5 Examples.C Examples.A PENDING None)
  /\ find_booking 5
       (fst (run (matchRide RefRuntime.runtime 5 Examples.B Examples.C)
               Examples.two_trips))
     = Some (Examples.booking 5 Examples.C Examples.A CONFIRMED (Some 1)).
Proof.
  destruct (@matchRide_confirms RefRuntime.runtime 5 Examples.B Examples.C
              Examples.two_trips
              (fst (run (matchRide RefRuntime.runtime 5 Examples.B Examples.C)
                      Examples.two_trips))
              (Examples.ride 1 1 SCHEDULED
                 [Examples.A; Examples.B; Examples.B; Examples.C]))
    as [H1 _].
  - repeat constructor; cbn; intuition discriminate.
  - vm_compute. reflexivity.
  - split; [exact H1|]. split; vm_compute; reflexivity.
Defined.

Lemma claimLoop_unmatched (cands : list Driver) (b : BookingId) (p d : Point)
  (db db' : DB) (o : outcome (option Ride)) :
  NoDup (map driver_id (drivers db)) ->
  (forall c, In c cands -> In c (drivers db) /\ is_available c = true) ->
  run (claimLoop cands b p d) db = (db', o) ->
  o = Returned None \/ o = Thrown ->
  db' = db.
Proof.
  intros Hnd Hc. destruct cands as [|c rest]; [now intros [= <- <-]|].
  destruct (Hc c (or_introl eq_refl)) as [Hin Hav].
  rewrite run_claimLoop_cons.
  assert (Hpos : 0 < claim_count (driver_id c) db).
  { apply claim_count_positive. now exists c. }
  apply Nat.ltb_lt in Hpos as Hlt. rewrite Hlt.
  destruct (find_booking b db).
  - intros [= <- <-] [H | H]; discriminate.
  - destruct (find_driver_claimed _ _ Hpos) as [v ->].
    rewrite released_claimed by assumption. now intros [= <- <-].
Qed.

Lemma matchRide_unmatched (rt : JSRuntime) (b : BookingId) (p d : Point)
  (db db' : DB) (o : outcome (option Ride)) :
  NoDup (map driver_id (drivers db)) ->
  run (matchRide rt b p d) db = (db', o) ->
  o = Returned None \/ o = Thrown ->
  db' = db.
Proof.
  intros Hnd. rewrite run_matchRide.
  destruct (load_rides db (filter is_scheduled (rides db))) as [rs|];
    [|now intros [= <- <-]].
  destruct (scanRides rt rs p d) as [r|].
  - destruct (find_booking b db); [|now intros [= <- <-]].
    destruct (find_ride (ride_id r) db); [|now intros [= <- <-]].
    intros [= <- <-] [H | H]; discriminate.
  - apply claimLoop_unmatched; [assumption|].
    intros c Hin. apply In_firstn in Hin. now apply filter_In in Hin.
Qed.

(** X8: [matchRide] writes to the store only when it returns a trip:
    when it returns null (no admissible trip and no vehicle claimed, or
    the claim taken back) or throws, the store is as it was, so the
    request keeps its status (vehicle ids being keys). *)
Theorem matchRide_unmatched_no_write (rt : JSRuntime) (b : BookingId)
  (p d : Point) (db db' : DB) (o : outcome (option Ride)) :
  NoDup (map driver_id (drivers db)) ->
  run (matchRide rt b p d) db = (db', o) ->
  o = Returned None \/ o = Thrown ->
  db' = db.
Proof. apply matchRide_unmatched. Qed.

Lemma matchRide_unmatched_no_write_witness :
  fst (run (matchRide RefRuntime.runtime 1 Examples.A Examples.B)
         (with_drivers [Examples.driver 1 BUSY] Examples.one_vehicle))
  = with_drivers [Examples.driver 1 BUSY] Examples.one_vehicle
  /\ fst (run (matchRide RefRuntime.runtime 9 Examples.A Examples.B)
            Examples.fleet) = Examples.fleet.
Proof.
  split.
  - apply (@matchRide_unmatched_no_write RefRuntime.runtime 1 Examples.A
             Examples.B
             (with_drivers [Examples.driver 1 BUSY] Examples.one_vehicle) _
             (snd (run (matchRide RefRuntime.runtime 1 Examples.A Examples.B)
                     (with_drivers [Examples.driver 1 BUSY]
                        Examples.one_vehicle)))).
    + repeat constructor; cbn; intuition discriminate.
    + vm_compute. reflexivity.
    + vm_compute. auto.
  - apply (@matchRide_unmatched_no_write RefRuntime.runtime 9 Examples.A
             Examples.B Examples.fleet _
             (snd (run (matchRide RefRuntime.runtime 9 Examples.A Examples.B)
                     Examples.fleet))).
    + repeat constructor; cbn; intuition discriminate.
    + vm_compute. reflexivity.
    + vm_compute. auto.
Defined.

(* ================================================================= *)
(** ** A match followed by its cancellation *)

Lemma claimed_then_released (db : DB) (c : Driver) :
  NoDup (map driver_id (drivers db)) ->
  In c (drivers db) -> is_available c = true ->
  update_where (fun x => driver_id x =? driver_id c)
    (set_driver_status AVAILABLE)
    (update_where (claim_sel (driver_id c)) (set_driver_status BUSY)
       (drivers db))
  = drivers db.
Proof.
  intros Hnd Hin Hav.
  change (drivers (released (driver_id c) (claimed (driver_id c) db))
          = drivers db).
  now rewrite released_claimed.
Qed.

(** X9: the scenario of the cancellation script, for any store.  A
    request that opens a new trip on the first candidate vehicle and is
    then cancelled leaves the vehicles table as it was before the match,
    the new trip COMPLETED at the end of the trips table, and the request
    CANCELLED, still pointing at that trip (vehicle ids being keys and
    every referenced trip existing). *)
Theorem match_then_cancel_releases (rt : JSRuntime) (db : DB)
  (id : BookingId) (p d : Point) (b : Booking) (c : Driver)
  (cs : list Driver) :
  NoDup (map driver_id (drivers db)) ->
  (forall x r, In x (bookings db) -> rideId x = Some r ->
               In r (map ride_id (rides db))) ->
  find_booking id db = Some b ->
  run (findExistingRide rt p d) db = (db, Returned None) ->
  firstn 5 (filter is_available (drivers db)) = c :: cs ->
  exists db2,
    run (cancelBooking (Some id)) (fst (run (matchRide rt id p d) db))
    = (db2, Returned booking_cancelled)
    /\ drivers db2 = drivers db
    /\ rides db2
       = rides db
         ++ [set_ride_status COMPLETED (new_ride (driver_id c) p d db)]
    /\ find_booking id db2
       = Some (set_booking_status CANCELLED
                 (set_booking_ride (ride_id (new_ride (driver_id c) p d db))
                    CONFIRMED b)).
Proof.
  intros Hnd Hfk Hb Hscan Hcands.
  set (trip := new_ride (driver_id c) p d db).
  set (db1 := ride_opened (driver_id c) id p d (claimed (driver_id c) db)).
  assert (Hc : In c (drivers db) /\ is_available c = true).
  { assert (Hin : In c (firstn 5 (filter is_available (drivers db))))
      by (rewrite Hcands; now left).
    apply In_firstn in Hin. now apply filter_In in Hin. }
  destruct Hc as [Hin Hav].
  assert (Hpos : 0 < claim_count (driver_id c) db)
    by (apply claim_count_positive; now exists c).
  assert (Hmatch : fst (run (matchRide rt id p d) db) = db1).
  { rewrite run_matchRide. rewrite run_findExistingRide in Hscan.
    destruct (load_rides db (filter is_scheduled (rides db))); [|discriminate].
    injection Hscan as ->. rewrite Hcands, run_claimLoop_cons.
    apply Nat.ltb_lt in Hpos. now rewrite Hpos, Hb. }
  rewrite Hmatch.
  assert (Hb1 : find_booking id db1
                = Some (set_booking_ride (ride_id trip) CONFIRMED b))
    by exact (@find_booking_opened (driver_id c) id p d
                (claimed (driver_id c) db) b Hb).
  assert (Ht1 : find_ride (ride_id trip) db1 = Some trip)
    by exact (find_ride_opened (driver_id c) id p d (claimed (driver_id c) db)).
  assert (Hnew : ~ In (ride_id trip) (map ride_id (rides db)))
    by apply fresh_not_in.
  assert (Hnone : other_active id (ride_id trip) db1 = []).
  { destruct (other_active id (ride_id trip) db1) as [|x l] eqn:E;
      [reflexivity|].
    assert (Hx : In x (other_active id (ride_id trip) db1))
      by (rewrite E; now left).
    apply filter_In in Hx. destruct Hx as [Hx Hsel].
    change (bookings db1)
      with (update_where (fun y => booking_id y =? id)
              (set_booking_ride (ride_id trip) CONFIRMED) (bookings db)) in Hx.
    apply In_update_where in Hx. destruct Hx as [y [Hy ->]].
    destruct (booking_id y =? id) eqn:Hid.
    - cbn in Hsel. rewrite Hid in Hsel. cbn in Hsel.
      rewrite andb_false_r in Hsel. discriminate.
    - apply andb_true_iff in Hsel. destruct Hsel as [Hsel _].
      apply andb_true_iff in Hsel. destruct Hsel as [Hon _].
      unfold on_ride in Hon. destruct (rideId y) as [r|] eqn:Hr;
        [|discriminate].
      apply Nat.eqb_eq in Hon. subst r.
      exfalso. apply Hnew. exact (Hfk y _ Hy Hr). }
  destruct (find_driver_claimed _ _ Hpos) as [v Hv].
  rewrite run_cancelBooking, Hb1. cbn [is_cancelled set_booking_ride
    booking_status BookingStatus_eqb].
  rewrite (cancelTx_commits _ _ Hb1).
  cbn [rideId set_booking_ride]. rewrite Ht1, Hnone.
  change (find_driver (driverId trip) db1)
    with (find_driver (driver_id c) (claimed (driver_id c) db)).
  rewrite Hv.
  eexists. split; [reflexivity|].
  split.
  { change (drivers (trip_closed (ride_id trip) (driverId trip)
                       (marked_cancelled id db1)))
      with (update_where (fun x => driver_id x =? driver_id c)
              (set_driver_status AVAILABLE)
              (update_where (claim_sel (driver_id c))
                 (set_driver_status BUSY) (drivers db))).
    now apply claimed_then_released. }
  split.
  { change (rides (trip_closed (ride_id trip) (driverId trip)
                     (marked_cancelled id db1)))
      with (update_where (fun x => ride_id x =? ride_id trip)
              (set_ride_status COMPLETED) (rides db ++ [trip])).
    unfold update_where. rewrite map_app.
    fold (update_where (fun x => ride_id x =? ride_id trip)
            (set_ride_status COMPLETED) (rides db)).
    rewrite update_where_none.
    - cbn. now rewrite Nat.eqb_refl.
    - intros x Hx. apply Nat.eqb_neq. intros E. apply Hnew.
      rewrite <- E. now apply in_map. }
  change (find_booking id (trip_closed (ride_id trip) (driverId trip)
                             (marked_cancelled id db1)))
    with (find_booking id (marked_cancelled id db1)).
  now apply find_booking_marked.
Qed.

Lemma match_then_cancel_releases_witness :
  exists db2,
    run (cancelBooking (Some 1))
      (fst (run (matchRide RefRuntime.runtime 1 Examples.A Examples.B)
              Examples.one_vehicle))
    = (db2, Returned booking_cancelled)
    /\ drivers db2 = [Examples.driver 1 AVAILABLE]
    /\ rides db2 = [Examples.ride 1 1 COMPLETED [Examples.A; Examples.B]]
    /\ find_booking 1 db2
       = Some (Examples.booking 1 Examples.A Examples.B CANCELLED (Some 1)).
Proof.
  apply (@match_then_cancel_releases RefRuntime.runtime Examples.one_vehicle
           1 Examples.A Examples.B
           (Examples.booking 1 Examples.A Examples.B PENDING None)
           (Examples.driver 1 AVAILABLE) []).
  - repeat constructor; cbn; intuition discriminate.
  - intros x r [<- | [<- | []]]; discriminate.
  - reflexivity.
  - reflexivity.
  - reflexivity.
Defined.

(* ================================================================= *)
(** ** Open trips and their vehicles across operations *)

(** X10: from a state where every vehicle is AVAILABLE and no trip
    exists, after any sequence of match and cancel operations no two
    SCHEDULED trips are on the same vehicle, the vehicle of every
    SCHEDULED trip is BUSY, every BUSY vehicle is on a SCHEDULED trip,
    and every request that is not CANCELLED and references a trip
    references a SCHEDULED one. *)
Theorem open_trips_exclusive (rt : JSRuntime) (db0 : DB)
  (ops : list Operation) :
  initial_state db0 ->
  NoDup (map driverId (filter is_scheduled (rides (perform_all rt ops db0))))
  /\ (forall trip,
        In trip (rides (perform_all rt ops db0)) ->
        ride_status trip = SCHEDULED ->
        exists v, find_driver (driverId trip) (perform_all rt ops db0) = Some v
                  /\ driver_status v = BUSY)
  /\ (forall v,
        In v (drivers (perform_all rt ops db0)) -> driver_status v = BUSY ->
        exists trip, In trip (rides (perform_all rt ops db0))
                     /\ ride_status trip = SCHEDULED
                     /\ driverId trip = driver_id v)
  /\ (forall b r,
        In b (bookings (perform_all rt ops db0)) ->
        rideId b = Some r -> is_cancelled b = false ->
        exists trip, find_ride r (perform_all rt ops db0) = Some trip
                     /\ ride_status trip = SCHEDULED).
Proof.
  intros Hinit.
  destruct (perform_all_consistent rt ops (initial_consistent Hinit))
    as [[Hdk Hrk Hact Hbusy Hdist Hopen] _].
  assert (Hs : forall t, is_scheduled t = true <-> ride_status t = SCHEDULED).
  { intros t. unfold is_scheduled. destruct (ride_status t); cbn;
      split; congruence. }
  assert (Hb : forall v, is_busy v = true <-> driver_status v = BUSY).
  { intros v. unfold is_busy. destruct (driver_status v); cbn;
      split; congruence. }
  split; [assumption|]. split; [|split].
  - intros trip Hin Hst. apply Hs in Hst.
    destruct (Hbusy trip Hin Hst) as [v [Hv Hvb]].
    exists v. split; [assumption | now apply Hb].
  - intros v Hin Hvb. apply Hb in Hvb.
    destruct (Hopen v Hin Hvb) as [t [Htin [Hst Hd]]].
    exists t. split; [assumption|]. split; [now apply Hs | assumption].
  - intros b r Hin Hr Hc.
    destruct (Hact b r Hin Hr Hc) as [t [Ht Hst]].
    exists t. split; [assumption | now apply Hs].
Qed.

Lemma open_trips_exclusive_witness :
  NoDup (map driverId
           (filter is_scheduled
              (rides (perform_all RefRuntime.runtime
                        Examples.match_cancel_match Examples.one_vehicle)))).
Proof.
  apply (@open_trips_exclusive RefRuntime.runtime Examples.one_vehicle
           Examples.match_cancel_match initial_one_vehicle).
Defined.

(* ================================================================= *)
(** ** [createBooking] and [getBooking] *)

(** The row [booking.create] inserts. *)
Lemma exec_booking_create (db : DB) (user : JS.value) (p d : Point)
  (cost : float) :
  exec (booking_create user p d cost) db =
  if known_user db user then
    match user with
    | Str u =>
        let b := {| booking_id := fresh (map booking_id (bookings db));
                    userId := u; pickup := p; dropoff := d; price := cost;
                    booking_status := PENDING; rideId := None |} in
        (with_bookings (bookings db ++ [b]) db, Returned b)
    | _ => (db, Thrown)
    end
  else (db, Thrown).
Proof.
  cbn [exec]. destruct user; reflexivity.
Qed.

Lemma find_booking_created (db : DB) (b : Booking) :
  booking_id b = fresh (map booking_id (bookings db)) ->
  find_booking (booking_id b) (with_bookings (bookings db ++ [b]) db) = Some b.
Proof.
  intros Hid. unfold find_booking. cbn [bookings with_bookings].
  rewrite find_app.
  rewrite (@find_key_absent _ booking_id _ (bookings db))
    by (rewrite Hid; apply fresh_not_in).
  cbn. now rewrite Nat.eqb_refl.
Qed.

Section CreateAndGet.

Variable rt : JSRuntime.

(** [createBooking] past its input check, step by step. *)
Lemma run_createBooking_valid (fields : list (string * JS.value)) (db : DB) :
  invalidCoordinates (lookup "pickup" fields) (lookup "dropoff" fields)
  = false ->
  exists cost,
    run (createBooking rt (Obj fields)) db =
    match exec (booking_create (lookup "userId" fields)
                  (asPoint rt (lookup "pickup" fields))
                  (asPoint rt (lookup "dropoff" fields)) cost) db with
    | (db1, Returned booking) =>
        match run (matchRide rt (booking_id booking)
                     (asPoint rt (lookup "pickup" fields))
                     (asPoint rt (lookup "dropoff" fields))) db1 with
        | (db2, Returned (Some r)) =>
            (db2, Returned (json 201 (confirmed_body (booking_id booking)
                                        (ride_id r) cost)))
        | (db2, Returned None) =>
            (db2, Returned
                    (json 201
                       (pending_body (booking_id booking)
                          "No driver available yet. We are searching." cost)))
        | (db2, Thrown) => (db2, Returned server_error)
        end
    | (db1, Thrown) => (db1, Returned server_error)
    end.
Proof.
  intros Hvalid. unfold createBooking. cbn [get].
  rewrite Hvalid, run_try_catch, run_bind.
  destruct (run_calculatePrice
              (calculateDistance rt (asPoint rt (lookup "pickup" fields))
                 (asPoint rt (lookup "dropoff" fields))) db) as [cost Hcost].
  exists cost. rewrite Hcost. cbn [call run].
  destruct (exec (booking_create (lookup "userId" fields)
                    (asPoint rt (lookup "pickup" fields))
                    (asPoint rt (lookup "dropoff" fields)) cost) db)
    as [db1 [booking|]]; [|reflexivity].
  rewrite run_bind.
  destruct (run (matchRide rt (booking_id booking)
                   (asPoint rt (lookup "pickup" fields))
                   (asPoint rt (lookup "dropoff" fields))) db1)
    as [db2 [[ride|]|]]; reflexivity.
Qed.

(** What the store holds for each answer of [createBooking]. *)
Lemma createBooking_outcome (fields : list (string * JS.value)) (db : DB) :
  NoDup (map ride_id (rides db)) ->
  NoDup (map driver_id (drivers db)) ->
  invalidCoordinates (lookup "pickup" fields) (lookup "dropoff" fields)
  = false ->
  exists db' resp,
    run (createBooking rt (Obj fields)) db = (db', Returned resp)
    /\ answer_in_store rt fields db db' resp.
Proof.
  intros Hrk Hdk Hvalid.
  destruct (run_createBooking_valid fields db Hvalid) as [cost ->].
  rewrite exec_booking_create.
  destruct (known_user db (lookup "userId" fields));
    [|now exists db, server_error].
  destruct (lookup "userId" fields) as [| | | |u| |];
    try (now exists db, server_error).
  cbv beta iota zeta.
  set (b0 := {| booking_id := fresh (map booking_id (bookings db));
                userId := u;
                pickup := asPoint rt (lookup "pickup" fields);
                dropoff := asPoint rt (lookup "dropoff" fields);
                price := cost; booking_status := PENDING; rideId := None |}).
  set (db1 := with_bookings (bookings db ++ [b0]) db).
  assert (Hb0 : find_booking (booking_id b0) db1 = Some b0)
    by now apply find_booking_created.
  assert (Hnew : ~ In (booking_id b0) (map booking_id (bookings db)))
    by apply fresh_not_in.
  destruct (run (matchRide rt (booking_id b0)
                   (asPoint rt (lookup "pickup" fields))
                   (asPoint rt (lookup "dropoff" fields))) db1)
    as [db2 [[ride|]|]] eqn:Hrun.
  - exists db2. eexists. split; [reflexivity|].
    unfold answer_in_store. cbn [body json].
    destruct (@matchRide_effect rt _ _ _ db1 db2 ride Hrk Hrun)
      as [bk [Hbk [Hbk2 [Hride [Hst _]]]]].
    rewrite Hb0 in Hbk. injection Hbk as <-.
    split; [reflexivity|]. split; [assumption|].
    exists (set_booking_ride (ride_id ride) CONFIRMED b0), ride.
    repeat split; assumption.
  - exists db2. eexists. split; [reflexivity|].
    unfold answer_in_store. cbn [body json].
    assert (db2 = db1).
    { apply (@matchRide_unmatched rt _ _ _ db1 db2 _ Hdk Hrun).
      now left. }
    subst db2.
    split; [reflexivity|]. split; [assumption|].
    split; [reflexivity|]. split; [reflexivity|].
    exists b0. repeat split. assumption.
  - now exists db2, server_error.
Qed.

End CreateAndGet.

(** X11: what [createBooking] answers is what the store holds.  With
    valid coordinates: a 201 CONFIRMED answer names a new booking that is
    stored CONFIRMED at the answer's price, on the trip the answer names,
    which is SCHEDULED; a 201 PENDING answer names a new booking stored
    PENDING with no trip, appended to the bookings, and no trip or
    vehicle row is changed; any other answer is a 500.  And when
    [userId] is not the id of a user the answer is 500 and nothing is
    written (trip and vehicle ids being keys). *)
Theorem createBooking_answer_matches_store (rt : JSRuntime)
  (fields : list (string * JS.value)) (db : DB) :
  NoDup (map ride_id (rides db)) ->
  NoDup (map driver_id (drivers db)) ->
  invalidCoordinates (lookup "pickup" fields) (lookup "dropoff" fields)
  = false ->
  (exists db' resp,
     run (createBooking rt (Obj fields)) db = (db', Returned resp)
     /\ answer_in_store rt fields db db' resp)
  /\ (known_user db (lookup "userId" fields) = false ->
      run (createBooking rt (Obj fields)) db = (db, Returned server_error)).
Proof.
  intros Hrk Hdk Hvalid. split.
  - now apply createBooking_outcome.
  - intros Hu.
    destruct (run_createBooking_valid rt fields db Hvalid) as [cost ->].
    now rewrite exec_booking_create, Hu.
Qed.

Lemma createBooking_answer_matches_store_witness :
  (exists db' resp,
     run (createBooking RefRuntime.runtime (Obj (sample_request "u")))
       Examples.one_vehicle
     = (db', Returned resp)
     /\ answer_in_store RefRuntime.runtime (sample_request "u")
          Examples.one_vehicle db' resp)
  /\ run (createBooking RefRuntime.runtime (Obj (sample_request "nobody")))
       Examples.one_vehicle
     = (Examples.one_vehicle, Returned server_error).
Proof.
  split.
  - apply (@createBooking_answer_matches_store RefRuntime.runtime
             (sample_request "u") Examples.one_vehicle).
    + constructor.
    + repeat constructor; cbn; intuition discriminate.
    + reflexivity.
  - apply (@createBooking_answer_matches_store RefRuntime.runtime
             (sample_request "nobody") Examples.one_vehicle).
    + constructor.
    + repeat constructor; cbn; intuition discriminate.
    + reflexivity.
    + reflexivity.
Defined.

Lemma run_getBooking (id : BookingId) (db : DB) :
  run (getBooking (Some id)) db =
  (db, Returned
         match find_booking id db with
         | None => {| get_status := 404;
                      get_body := get_error "Booking not found" |}
         | Some b =>
             {| get_status := 200;
                get_body :=
                  get_booking b
                    match rideId b with
                    | Some r => find_ride r db
                    | None => None
                    end |}
         end).
Proof.
  unfold getBooking. cbn [try_catch call run exec].
  destruct (find_booking id db) as [b|]; [|reflexivity].
  cbn [option_map without_trip_bookings load_booking bi_booking bi_ride].
  destruct (rideId b) as [r|]; [|reflexivity].
  now destruct (find_ride r db).
Qed.

(** X12: [getBooking] reads back what [createBooking] answered.  After a
    201 answer, asking for the booking id of the answer gives a 200 with
    the stored booking: CONFIRMED, with the SCHEDULED trip the answer
    names loaded as its [ride], or PENDING with no [ride]; its price is
    the answer's; and [getBooking] leaves the store as it is (trip and
    vehicle ids being keys). *)
Theorem getBooking_reads_back (rt : JSRuntime)
  (fields : list (string * JS.value)) (db : DB) :
  NoDup (map ride_id (rides db)) ->
  NoDup (map driver_id (drivers db)) ->
  invalidCoordinates (lookup "pickup" fields) (lookup "dropoff" fields)
  = false ->
  exists db' resp,
    run (createBooking rt (Obj fields)) db = (db', Returned resp)
    /\ reads_back db' resp.
Proof.
  intros Hrk Hdk Hvalid.
  destruct (@createBooking_outcome rt fields db Hrk Hdk Hvalid)
    as [db' [resp [Hrun Hans]]].
  exists db', resp. split; [assumption|].
  unfold answer_in_store in Hans. unfold reads_back.
  destruct (body resp) as [e | m | id rid cost | id msg cost]; try exact I.
  - destruct Hans as [_ [_ [bk [trip [Hbk [Hst [Hr [Hp [_ [_ [Ht Hts]]]]]]]]]]].
    exists bk, trip. rewrite run_getBooking, Hbk, Hr, Ht.
    split; [reflexivity|].
    split; [now apply find_booking_id in Hbk|].
    split; [assumption|]. split; [assumption|].
    split; [now apply find_ride_id in Ht | assumption].
  - destruct Hans as [_ [_ [_ [_ [bk [_ [Hbk [Hst [Hr Hp]]]]]]]]].
    exists bk. rewrite run_getBooking, Hbk, Hr.
    split; [reflexivity|].
    split; [now apply find_booking_id in Hbk|]. now split.
Qed.

Lemma getBooking_reads_back_witness :
  exists db' resp,
    run (createBooking RefRuntime.runtime (Obj (sample_request "u")))
      Examples.one_vehicle
    = (db', Returned resp)
    /\ reads_back db' resp.
Proof.
  apply (@getBooking_reads_back RefRuntime.runtime (sample_request "u")
           Examples.one_vehicle).
  - constructor.
  - repeat constructor; cbn; intuition discriminate.
  - reflexivity.
Defined.

(* ================================================================= *)
(** ** Concurrent matches *)

Lemma NoDup_insert {A} (l l' : list A) (x : A) :
  NoDup (l ++ l') -> ~ In x (l ++ l') -> NoDup (l ++ x :: l').
Proof.
  intros Hnd Hx. apply (NoDup_Add (Add_app x l l')). now split.
Qed.

Lemma open_trip_vehicles_joined (r : RideId) (b : BookingId)
  (newPath : list Point) (db : DB) :
  open_trip_vehicles (joined r b newPath db) = open_trip_vehicles db.
Proof.
  unfold open_trip_vehicles, joined. cbn [rides with_rides with_bookings].
  rewrite filter_update_where by reflexivity.
  now rewrite map_update_where by reflexivity.
Qed.

Lemma open_trip_vehicles_opened (c : DriverId) (b : BookingId) (p d : Point)
  (db : DB) :
  open_trip_vehicles (ride_opened c b p d db) = open_trip_vehicles db ++ [c].
Proof.
  unfold open_trip_vehicles, ride_opened.
  cbn [rides with_rides with_bookings].
  now rewrite filter_app, map_app.
Qed.

Lemma race_ok_perm (db : DB) (h h' : list DriverId) :
  Permutation h h' -> race_ok db h -> race_ok db h'.
Proof.
  intros Hp [Hdk Htrip Hheld Hdist Hacc].
  constructor; try assumption.
  - intros c Hc. apply Hheld. now apply (Permutation_in _ (Permutation_sym Hp)).
  - apply (Permutation_NoDup (Permutation_app_head _ Hp) Hdist).
  - intros v Hin Hb.
    apply (Permutation_in _ (Permutation_app_head _ Hp)). now apply Hacc.
Qed.

Lemma race_ok_joined (db : DB) (r : RideId) (b : BookingId)
  (newPath : list Point) (h : list DriverId) :
  race_ok db h -> race_ok (joined r b newPath db) h.
Proof.
  intros [Hdk Htrip Hheld Hdist Hacc].
  constructor; rewrite ?open_trip_vehicles_joined; try assumption.
  intros trip Hin Hs. unfold joined in Hin.
  cbn [rides with_rides with_bookings] in Hin.
  apply In_update_where in Hin. destruct Hin as [x [Hx ->]].
  destruct (Htrip x Hx) as [v Hv].
  - now destruct (ride_id x =? r).
  - exists v. now destruct (ride_id x =? r).
Qed.

Lemma find_driver_claimed_row (c id : DriverId) (db : DB) :
  find_driver id (claimed c db)
  = option_map
      (fun x => if claim_sel c x then set_driver_status BUSY x else x)
      (find_driver id db).
Proof.
  unfold find_driver, claimed. cbn [drivers with_drivers].
  now apply (find_update_where driver_id).
Qed.

Lemma find_driver_released (c id : DriverId) (db : DB) :
  find_driver id (released c db)
  = option_map
      (fun x => if driver_id x =? c then set_driver_status AVAILABLE x else x)
      (find_driver id db).
Proof.
  unfold find_driver, released. cbn [drivers with_drivers].
  now apply (find_update_where driver_id).
Qed.

Lemma busy_stays_claimed (c id : DriverId) (db : DB) (v : Driver) :
  find_driver id db = Some v -> is_busy v = true ->
  exists v', find_driver id (claimed c db) = Some v' /\ is_busy v' = true.
Proof.
  intros Hv Hb. rewrite find_driver_claimed_row, Hv. cbn [option_map].
  eexists. split; [reflexivity|].
  destruct (claim_sel c v); [reflexivity | assumption].
Qed.

Lemma race_ok_claimed (db : DB) (c : DriverId) (h : list DriverId) :
  race_ok db h -> 0 < claim_count c db -> race_ok (claimed c db) (c :: h).
Proof.
  intros [Hdk Htrip Hheld Hdist Hacc] Hcount.
  apply claim_count_positive in Hcount.
  destruct Hcount as [v [Hvin [Hvid Hvav]]].
  assert (Hfind : find_driver c db = Some v).
  { rewrite <- Hvid. now apply find_driver_unique. }
  assert (Hopen : open_trip_vehicles (claimed c db) = open_trip_vehicles db)
    by reflexivity.
  constructor.
  - unfold claimed. cbn [drivers with_drivers].
    now rewrite map_update_where by reflexivity.
  - intros trip Hin Hs. destruct (Htrip trip Hin Hs) as [w [Hw Hwb]].
    now apply busy_stays_claimed with (v := w).
  - intros x [<- | Hx].
    + rewrite find_driver_claimed_row, Hfind. cbn [option_map].
      unfold claim_sel. rewrite Hvid, Nat.eqb_refl, Hvav. cbn [andb].
      eexists. split; reflexivity.
    + destruct (Hheld x Hx) as [w [Hw Hwb]].
      now apply busy_stays_claimed with (v := w).
  - rewrite Hopen. apply NoDup_insert; [assumption|]. intros Hin.
    assert (Hw : exists w, find_driver c db = Some w /\ is_busy w = true).
    { apply in_app_or in Hin. destruct Hin as [Hin | Hin]; [|now apply Hheld].
      unfold open_trip_vehicles in Hin. apply in_map_iff in Hin.
      destruct Hin as [t [Ht Hin]]. apply filter_In in Hin.
      destruct Hin as [Hin Hs]. rewrite <- Ht. now apply Htrip. }
    destruct Hw as [w [Hw Hwb]].
    rewrite Hfind in Hw. injection Hw as <-.
    apply busy_not_available in Hwb. congruence.
  - intros x Hin Hb. rewrite Hopen. unfold claimed in Hin.
    cbn [drivers with_drivers] in Hin.
    apply In_update_where in Hin. destruct Hin as [y [Hy ->]].
    destruct (claim_sel c y) eqn:E.
    + unfold claim_sel in E. apply andb_true_iff in E. destruct E as [E _].
      apply Nat.eqb_eq in E. apply in_or_app. right. left.
      symmetry. exact E.
    + specialize (Hacc y Hy Hb). apply in_app_or in Hacc. apply in_or_app.
      destruct Hacc; [left | right; right]; assumption.
Qed.

Lemma race_ok_opened (db : DB) (c : DriverId) (b : BookingId) (p d : Point)
  (h : list DriverId) :
  race_ok db (c :: h) -> race_ok (ride_opened c b p d db) h.
Proof.
  intros [Hdk Htrip Hheld Hdist Hacc].
  constructor; rewrite ?open_trip_vehicles_opened.
  - exact Hdk.
  - intros trip Hin Hs. unfold ride_opened in Hin.
    cbn [rides with_rides with_bookings] in Hin.
    apply in_app_or in Hin. destruct Hin as [Hin | [<- | []]].
    + now apply Htrip.
    + apply (Hheld c). now left.
  - intros x Hx. apply (Hheld x). now right.
  - rewrite <- app_assoc. exact Hdist.
  - intros v Hin Hb. rewrite <- app_assoc. now apply Hacc.
Qed.

Lemma race_ok_released (db : DB) (c : DriverId) (h : list DriverId) :
  race_ok db (c :: h) -> race_ok (released c db) h.
Proof.
  intros [Hdk Htrip Hheld Hdist Hacc].
  assert (Hopen : open_trip_vehicles (released c db) = open_trip_vehicles db)
    by reflexivity.
  assert (Hc : ~ In c (open_trip_vehicles db ++ h))
    by apply (NoDup_remove_2 _ _ _ Hdist).
  assert (Hkeep : forall id w,
             id <> c -> find_driver id db = Some w -> is_busy w = true ->
             exists w', find_driver id (released c db) = Some w'
                        /\ is_busy w' = true).
  { intros id w Hne Hw Hwb. rewrite find_driver_released, Hw.
    cbn [option_map]. unfold find_driver in Hw.
    apply (find_key_some driver_id) in Hw. destruct Hw as [_ Hid].
    exists w. replace (driver_id w =? c) with false; [now split|].
    symmetry. apply Nat.eqb_neq. congruence. }
  constructor.
  - unfold released. cbn [drivers with_drivers].
    now rewrite map_update_where by reflexivity.
  - intros trip Hin Hs. destruct (Htrip trip Hin Hs) as [w [Hw Hwb]].
    apply Hkeep with (w := w); try assumption.
    intros Heq. apply Hc. apply in_or_app. left. rewrite <- Heq.
    unfold open_trip_vehicles. apply in_map. apply filter_In. now split.
  - intros x Hx. destruct (Hheld x (or_intror Hx)) as [w [Hw Hwb]].
    apply Hkeep with (w := w); try assumption.
    intros ->. apply Hc. apply in_or_app. now right.
  - rewrite Hopen. apply (NoDup_remove_1 _ _ _ Hdist).
  - intros v Hin Hb. rewrite Hopen. unfold released in Hin.
    cbn [drivers with_drivers] in Hin.
    apply In_update_where in Hin. destruct Hin as [y [Hy ->]].
    destruct (driver_id y =? c) eqn:E; [discriminate Hb|].
    specialize (Hacc y Hy Hb). apply in_app_or in Hacc. apply in_or_app.
    destruct Hacc as [H | [H | H]]; [now left | | now right].
    apply Nat.eqb_neq in E. congruence.
Qed.

Lemma stage_step (rt : JSRuntime) (st : Stage) (db : DB)
  (others : list DriverId) :
  race_ok db (held st ++ others) ->
  exists db' st',
    step (prog_of rt st) db = (db', prog_of rt st')
    /\ race_ok db' (held st' ++ others)
    /\ List.length (drivers db') = List.length (drivers db)
    /\ (forallb is_scheduled (rides db) = true ->
        forallb is_scheduled (rides db') = true).
Proof.
  intros Hok.
  destruct st as [b p d | r b p d | r b np | b p d | cands b p d
                 | c b p d | c | o].
  - destruct (load_rides db (filter is_scheduled (rides db))) as [l|] eqn:Hl.
    + destruct (scanRides rt l p d) as [r|] eqn:E.
      * exists db, (Joining (ride_id r) b p d).
        split; [|split; [exact Hok | split; [reflexivity | auto]]].
        cbv [prog_of matchRide findExistingRide call step exec].
        cbn [bind]. rewrite Hl. cbv beta iota. cbn [bind]. now rewrite E.
      * exists db, (Allocating b p d).
        split; [|split; [exact Hok | split; [reflexivity | auto]]].
        cbv [prog_of matchRide findExistingRide call step exec].
        cbn [bind]. rewrite Hl. cbv beta iota. cbn [bind]. now rewrite E.
    + exists db, (Finished Thrown).
      split; [|split; [exact Hok | split; [reflexivity | auto]]].
      cbv [prog_of matchRide findExistingRide call step exec].
      cbn [bind]. now rewrite Hl.
  - exists db,
      (Attaching r b
         (match find_ride r db with
          | Some x => path_or_empty x
          | None => []
          end ++ [p; d])).
    split; [reflexivity | split; [exact Hok | split; [reflexivity | auto]]].
  - set (body := tx_bind (tx_booking_update b (set_booking_ride r CONFIRMED))
                   (fun _ => tx_ride_update r (set_ride_path np))).
    destruct (body db) as [[db1 ride]|] eqn:Htx.
    + assert (Hdb : db1 = joined r b np db).
      { unfold body, tx_bind, tx_booking_update, tx_ride_update in Htx.
        destruct (find_booking b db); [|discriminate].
        match type of Htx with
        | match find_ride r ?s with _ => _ end = _ =>
            change (find_ride r s) with (find_ride r db) in Htx
        end.
        destruct (find_ride r db); [|discriminate].
        now injection Htx as <- _. }
      exists db1, (Finished (Returned (Some ride))).
      split; [cbv [prog_of call step exec]; cbn [bind]; fold body;
              now rewrite Htx|].
      subst db1. split; [now apply race_ok_joined|].
      split.
      * unfold joined. cbn [drivers with_rides with_bookings]. reflexivity.
      * unfold joined. cbn [rides with_rides with_bookings].
        intros Hall. rewrite forallb_forall in *. intros x Hx.
        apply In_update_where in Hx. destruct Hx as [y [Hy ->]].
        specialize (Hall y Hy). now destruct (ride_id y =? r).
    + exists db, (Finished Thrown).
      split; [cbv [prog_of call step exec]; cbn [bind]; fold body;
              now rewrite Htx|].
      split; [exact Hok | split; [reflexivity | auto]].
  - exists db, (Scanning (firstn 5 (filter is_available (drivers db))) b p d).
    split; [reflexivity | split; [exact Hok | split; [reflexivity | auto]]].
  - destruct cands as [|c rest].
    + exists db, (Scanning [] b p d). split; [reflexivity | split; [exact Hok | split; [reflexivity | auto]]].
    + destruct (0 <? claim_count (driver_id c) db) eqn:E.
      * exists (claimed (driver_id c) db), (Using (driver_id c) b p d).
        split; [cbv [prog_of step exec]; cbn [claimLoop]; unfold call;
                now rewrite E|].
        split; [apply race_ok_claimed; [exact Hok | now apply Nat.ltb_lt]|].
        split; [|auto].
        unfold claimed. cbn [drivers with_drivers].
        unfold update_where. apply length_map.
      * exists db, (Scanning rest b p d).
        apply Nat.ltb_ge in E.
        assert (E0 : claim_count (driver_id c) db = 0) by lia.
        split; [cbv [prog_of step exec]; cbn [claimLoop]; unfold call;
                rewrite (claimed_nothing _ _ E0), E0; reflexivity|].
        split; [exact Hok | split; [reflexivity | auto]].
  - destruct (find_booking b db) as [bk|] eqn:Hb.
    + exists (ride_opened c b p d db),
        (Finished (Returned (Some (new_ride c p d db)))).
      split; [cbv [prog_of useCandidate step exec];
              now rewrite newRideTx_commits, Hb|].
      split; [now apply race_ok_opened|].
      split; [reflexivity|].
      unfold ride_opened. cbn [rides with_rides with_bookings].
      intros Hall. rewrite forallb_app, Hall. reflexivity.
    + exists db, (Reverting c).
      split; [cbv [prog_of useCandidate step exec];
              now rewrite newRideTx_commits, Hb|].
      split; [exact Hok | split; [reflexivity | auto]].
  - destruct (rk_held_busy Hok c (or_introl eq_refl)) as [v [Hv _]].
    exists (released c db), (Finished (Returned None)).
    split; [cbv [prog_of call step exec tx_driver_update];
            now rewrite Hv|].
    split; [now apply race_ok_released|].
    split; [|auto].
    unfold released. cbn [drivers with_drivers].
    unfold update_where. apply length_map.
  - exists db, (Finished o).
    split; [now destruct o | split; [exact Hok | split; [reflexivity | auto]]].
Qed.

Lemma held_replace (stages : list Stage) (i : nat) (st : Stage) :
  Permutation
    (flat_map held (firstn i stages ++ st :: skipn (S i) stages))
    (held st ++ flat_map held (firstn i stages)
             ++ flat_map held (skipn (S i) stages)).
Proof.
  rewrite flat_map_app. cbn [flat_map].
  rewrite !app_assoc. apply Permutation_app_tail, Permutation_app_comm.
Qed.

Lemma interleave_stages (rt : JSRuntime) (schedule : list nat) :
  forall (stages : list Stage) (db : DB),
    race_ok db (flat_map held stages) ->
    exists db' stages',
      interleave schedule (map (prog_of rt) stages) db
      = (db', map (prog_of rt) stages')
      /\ race_ok db' (flat_map held stages')
      /\ List.length (drivers db') = List.length (drivers db)
      /\ (forallb is_scheduled (rides db) = true ->
          forallb is_scheduled (rides db') = true).
Proof.
  induction schedule as [|i rest IH]; intros stages db Hok.
  - exists db, stages. auto.
  - cbn [interleave]. rewrite nth_error_map.
    destruct (nth_error stages i) as [st|] eqn:Hnth; cbn [option_map].
    + rewrite <- (nth_error_replace _ _ Hnth) in Hok.
      apply (race_ok_perm (held_replace stages i st)) in Hok.
      destruct (@stage_step rt st db _ Hok)
        as [db1 [st' [Hstep [Hok1 [Hlen1 Hall1]]]]].
      apply (race_ok_perm (Permutation_sym (held_replace stages i st')))
        in Hok1.
      rewrite Hstep.
      replace (firstn i (map (prog_of rt) stages)
               ++ prog_of rt st' :: skipn (S i) (map (prog_of rt) stages))
        with (map (prog_of rt)
                (firstn i stages ++ st' :: skipn (S i) stages))
        by (now rewrite map_app, firstn_map, skipn_map).
      destruct (IH _ _ Hok1) as [db' [stages' [Hrun [Hok' [Hlen' Hall']]]]].
      exists db', stages'.
      split; [exact Hrun | split; [exact Hok' | split; [congruence | auto]]].
    + apply IH. exact Hok.
Qed.

Lemma finished_holds_nothing (rt : JSRuntime) (st : Stage) :
  finished (prog_of rt st) = true -> held st = [].
Proof. destruct st; try reflexivity; discriminate. Qed.

Lemma race_ok_counts (db : DB) (h : list DriverId) :
  race_ok db h -> busy_count db = scheduled_count db + List.length h.
Proof.
  intros [Hdk Htrip Hheld Hdist Hacc].
  unfold busy_count, scheduled_count.
  rewrite <- (length_map driver_id), <- (length_map driverId), <- length_app.
  apply Permutation_length.
  apply NoDup_Permutation; [now apply NoDup_map_filter | exact Hdist |].
  intros x. split.
  - intros Hin. apply in_map_iff in Hin. destruct Hin as [v [<- Hin]].
    apply filter_In in Hin. now apply Hacc.
  - intros Hin.
    assert (Hv : exists v, find_driver x db = Some v /\ is_busy v = true).
    { apply in_app_or in Hin. destruct Hin as [Hin | Hin]; [|now apply Hheld].
      unfold open_trip_vehicles in Hin. apply in_map_iff in Hin.
      destruct Hin as [t [<- Hin]]. apply filter_In in Hin.
      now apply Htrip. }
    destruct Hv as [v [Hv Hb]]. unfold find_driver in Hv.
    apply (find_key_some driver_id) in Hv. destruct Hv as [Hvin <-].
    apply in_map. apply filter_In. now split.
Qed.

Lemma consistent_race_ok (db : DB) : consistent db -> race_ok db [].
Proof.
  intros [Hdk Hrk Hact Hbusy Hdist Hopen].
  constructor; try assumption.
  - intros c [].
  - now rewrite app_nil_r.
  - intros v Hin Hb. rewrite app_nil_r.
    destruct (Hopen v Hin Hb) as [t [Ht [Hs <-]]].
    unfold open_trip_vehicles. apply in_map. apply filter_In. now split.
Qed.

(** X13: requests matched concurrently.  Each worker runs [matchRide]
    for one request, and the schedule picks, store operation by store
    operation, the worker that goes next.  From a consistent store, after
    any schedule, however far it got: no vehicle is on two SCHEDULED
    trips, the vehicle of every SCHEDULED trip is BUSY, the SCHEDULED
    trips are at most the BUSY vehicles and these at most the fleet; once
    every worker has returned or thrown, the BUSY vehicles are exactly as
    many as the SCHEDULED trips (no claim is left behind); and from a
    store without trips, the trips created are at most the vehicles. *)
Theorem racing_matches_keep_vehicles_exclusive (rt : JSRuntime) (db0 : DB)
  (requests : list (BookingId * Point * Point)) (schedule : list nat) :
  consistent db0 ->
  let (db, workers) :=
    interleave schedule (map (match_worker rt) requests) db0 in
  NoDup (open_trip_vehicles db)
  /\ (forall trip,
        In trip (rides db) -> ride_status trip = SCHEDULED ->
        exists v, find_driver (driverId trip) db = Some v
                  /\ driver_status v = BUSY)
  /\ scheduled_count db <= busy_count db <= List.length (drivers db0)
  /\ (forallb finished workers = true ->
      busy_count db = scheduled_count db)
  /\ (rides db0 = [] -> List.length (rides db) <= List.length (drivers db0)).
Proof.
  intros Hcons.
  assert (Hh : flat_map held
                 (map (fun rq => AtStart (fst (fst rq)) (snd (fst rq)) (snd rq))
                    requests) = []).
  { induction requests as [|rq l IH]; [reflexivity | exact IH]. }
  set (stages := map (fun rq => AtStart (fst (fst rq)) (snd (fst rq)) (snd rq))
                   requests) in *.
  assert (Hw : map (match_worker rt) requests = map (prog_of rt) stages).
  { unfold stages. rewrite map_map. reflexivity. }
  rewrite Hw.
  destruct (@interleave_stages rt schedule stages db0)
    as [db [stages' [Hrun [Hok [Hlen Hall]]]]].
  { rewrite Hh. now apply consistent_race_ok. }
  rewrite Hrun.
  pose proof (race_ok_counts Hok) as Hcount.
  assert (Hfleet : busy_count db <= List.length (drivers db0)).
  { rewrite <- Hlen. apply filter_length_le. }
  split; [|split; [|split; [|split]]].
  - destruct Hok as [_ _ _ Hdist _].
    apply NoDup_app_remove_r in Hdist. exact Hdist.
  - intros trip Hin Hs.
    destruct (rk_trip_busy Hok trip Hin) as [v [Hv Hb]].
    + unfold is_scheduled. now rewrite Hs.
    + exists v. split; [assumption|].
      unfold is_busy in Hb. now destruct (driver_status v).
  - lia.
  - intros Hfin.
    assert (Hnone : flat_map held stages' = []).
    { clear - Hfin. induction stages' as [|st l IH]; [reflexivity|].
      cbn [map forallb] in Hfin. apply andb_true_iff in Hfin.
      destruct Hfin as [H1 H2]. cbn [flat_map].
      rewrite (finished_holds_nothing rt st H1). now apply IH. }
    rewrite Hnone in Hcount. cbn in Hcount. lia.
  - intros Hnil.
    assert (Hopen : forallb is_scheduled (rides db) = true)
      by (apply Hall; now rewrite Hnil).
    unfold scheduled_count in Hcount. rewrite (filter_all _ _ Hopen) in Hcount.
    lia.
Qed.

Lemma racing_matches_keep_vehicles_exclusive_witness :
  let (db, workers) :=
    interleave [0; 1; 0; 1; 0; 1; 0; 1; 0; 1]
      (map (match_worker RefRuntime.runtime)
         [(1, Examples.A, Examples.B); (2, Examples.A, Examples.B)])
      Examples.one_vehicle in
  NoDup (open_trip_vehicles db)
  /\ (forall trip,
        In trip (rides db) -> ride_status trip = SCHEDULED ->
        exists v, find_driver (driverId trip) db = Some v
                  /\ driver_status v = BUSY)
  /\ scheduled_count db <= busy_count db
     <= List.length (drivers Examples.one_vehicle)
  /\ (forallb finished workers = true ->
      busy_count db = scheduled_count db)
  /\ (rides Examples.one_vehicle = [] ->
      List.length (rides db) <= List.length (drivers Examples.one_vehicle)).
Proof.
  apply (@racing_matches_keep_vehicles_exclusive RefRuntime.runtime
           Examples.one_vehicle
           [(1, Examples.A, Examples.B); (2, Examples.A, Examples.B)]
           [0; 1; 0; 1; 0; 1; 0; 1; 0; 1]
           (initial_consistent initial_one_vehicle)).
Defined.

(* ================================================================= *)
(** ** Seats *)

Lemma filter_update_le {A} (p sel : A -> bool) (f : A -> A) (l : list A) :
  (forall x, sel x = true -> p (f x) = false) ->
  List.length (filter p (update_where sel f l)) <= List.length (filter p l).
Proof.
  intros H. unfold update_where.
  induction l as [|a l IH]; cbn [map filter]; [lia|].
  destruct (sel a) eqn:E.
  - rewrite (H a E). destruct (p a); cbn [List.length]; lia.
  - destruct (p a); cbn [List.length]; lia.
Qed.

Lemma filter_update_key_le {A} (key : A -> nat) (k : nat) (p : A -> bool)
  (f : A -> A) (l : list A) :
  NoDup (map key l) ->
  List.length (filter p (update_where (fun x => key x =? k) f l))
  <= S (List.length (filter p l)).
Proof.
  induction l as [|a l IH]; intros Hnd; [cbn; lia|].
  cbn [map] in Hnd. inversion Hnd as [|? ? Hnotin Hnd']; subst.
  change (update_where (fun x => key x =? k) f (a :: l))
    with ((if key a =? k then f a else a)
          :: update_where (fun x => key x =? k) f l).
  destruct (key a =? k) eqn:E.
  - rewrite update_where_none.
    + cbn [filter]. destruct (p (f a)), (p a); cbn [List.length]; lia.
    + intros x Hx. apply Nat.eqb_neq. intros Heq.
      apply Nat.eqb_eq in E. apply Hnotin. rewrite E, <- Heq.
      now apply in_map.
  - specialize (IH Hnd'). cbn [filter].
    destruct (p a); cbn [List.length]; lia.
Qed.

Lemma seats_positive (v : Driver) : (0 <= capacity v)%Z -> (1 <= seats v)%Z.
Proof.
  intros H. unfold seats, MAX_SEATS.
  destruct (capacity v =? 0)%Z eqn:E; [lia|].
  apply Z.eqb_neq in E. lia.
Qed.

Lemma seated_marked (db : DB) (id : BookingId) :
  seated db -> seated (marked_cancelled id db).
Proof.
  intros [Hbk Hfk Hcap Hseat].
  constructor.
  - unfold marked_cancelled. cbn [bookings with_bookings].
    now rewrite map_update_where by reflexivity.
  - intros b r Hin Hr. unfold marked_cancelled in Hin.
    cbn [bookings with_bookings] in Hin.
    apply In_update_where in Hin. destruct Hin as [x [Hx ->]].
    apply (Hfk x r Hx). now destruct (booking_id x =? id).
  - exact Hcap.
  - intros trip v Hin Hv.
    replace (List.length (bookings_of (ride_id trip) (marked_cancelled id db)))
      with (List.length (bookings_of (ride_id trip) db)); [now apply Hseat|].
    unfold bookings_of, marked_cancelled. cbn [bookings with_bookings].
    rewrite filter_update_where by reflexivity.
    unfold update_where. now rewrite length_map.
Qed.

Lemma seats_status (s : DriverStatus) (v : Driver) :
  seats (set_driver_status s v) = seats v.
Proof. reflexivity. Qed.

Lemma seated_drivers (db : DB) (sel : Driver -> bool) (s : DriverStatus) :
  seated db ->
  seated (with_drivers (update_where sel (set_driver_status s) (drivers db))
            db).
Proof.
  intros [Hbk Hfk Hcap Hseat].
  constructor.
  - exact Hbk.
  - exact Hfk.
  - intros v Hin. cbn [drivers with_drivers] in Hin.
    apply In_update_where in Hin. destruct Hin as [x [Hx ->]].
    replace (capacity (if sel x then set_driver_status s x else x))
      with (capacity x) by now destruct (sel x).
    now apply Hcap.
  - intros trip v Hin Hv. unfold find_driver in Hv.
    cbn [drivers with_drivers] in Hv.
    rewrite (find_update_where driver_id) in Hv by reflexivity.
    fold (find_driver (driverId trip) db) in Hv.
    destruct (find_driver (driverId trip) db) as [w|] eqn:Hw; [|discriminate].
    injection Hv as <-.
    replace (seats (if sel w then set_driver_status s w else w))
      with (seats w) by now destruct (sel w).
    now apply Hseat.
Qed.

Lemma seated_rides_status (db : DB) (sel : Ride -> bool) (s : RideStatus) :
  seated db ->
  seated (with_rides (update_where sel (set_ride_status s) (rides db)) db).
Proof.
  intros [Hbk Hfk Hcap Hseat].
  constructor.
  - exact Hbk.
  - intros b r Hin Hr. cbn [rides with_rides].
    rewrite map_update_where by reflexivity. now apply (Hfk b).
  - exact Hcap.
  - intros trip v Hin Hv. cbn [rides with_rides] in Hin.
    apply In_update_where in Hin. destruct Hin as [x [Hx ->]].
    replace (ride_id (if sel x then set_ride_status s x else x))
      with (ride_id x) by now destruct (sel x).
    apply (Hseat x v Hx).
    now destruct (sel x).
Qed.

Lemma seated_closed (db : DB) (r : RideId) (d : DriverId) :
  seated db -> seated (trip_closed r d db).
Proof.
  intros H.
  set (db1 := with_rides
                (update_where (fun x => ride_id x =? r)
                   (set_ride_status COMPLETED) (rides db)) db).
  change (seated
            (with_drivers
               (update_where (fun x => driver_id x =? d)
                  (set_driver_status AVAILABLE) (drivers db1)) db1)).
  apply seated_drivers. now apply seated_rides_status.
Qed.

Lemma seated_claimed (db : DB) (c : DriverId) :
  seated db -> seated (claimed c db).
Proof. apply seated_drivers. Qed.

Lemma seated_opened (db : DB) (c : DriverId) (b : BookingId) (p d : Point) :
  seated db -> seated (ride_opened c b p d db).
Proof.
  intros [Hbk Hfk Hcap Hseat].
  pose proof (fresh_not_in (map ride_id (rides db))) as Hfresh.
  constructor.
  - unfold ride_opened. cbn [bookings with_bookings with_rides].
    now rewrite map_update_where by reflexivity.
  - intros x r Hin Hr. unfold ride_opened in *.
    cbn [bookings rides with_bookings with_rides] in *.
    rewrite map_app. apply in_or_app.
    apply In_update_where in Hin. destruct Hin as [y [Hy ->]].
    destruct (booking_id y =? b).
    + right. left. cbn in Hr. now injection Hr.
    + left. now apply (Hfk y).
  - exact Hcap.
  - intros trip v Hin Hv.
    change (find_driver (driverId trip) (ride_opened c b p d db))
      with (find_driver (driverId trip) db) in Hv.
    unfold bookings_of, ride_opened in *.
    cbn [bookings rides with_bookings with_rides] in *.
    apply in_app_or in Hin. destruct Hin as [Hin | [<- | []]].
    + etransitivity; [|apply (Hseat trip v Hin Hv)].
      apply inj_le. apply filter_update_le.
      intros x _. unfold on_ride, set_booking_ride. cbn [rideId].
      apply Nat.eqb_neq. intros Heq.
      apply Hfresh.
      change (In (ride_id (new_ride c p d db)) (map ride_id (rides db))).
      rewrite Heq. now apply in_map.
    + assert (Hnone : filter (on_ride (ride_id (new_ride c p d db)))
                        (bookings db) = []).
      { destruct (filter _ (bookings db)) as [|x l] eqn:E; [reflexivity|].
        assert (Hx : In x (filter (on_ride (ride_id (new_ride c p d db)))
                             (bookings db))) by (rewrite E; now left).
        apply filter_In in Hx. destruct Hx as [Hx Hon].
        unfold on_ride in Hon. destruct (rideId x) as [r|] eqn:Hr;
          [|discriminate].
        apply Nat.eqb_eq in Hon. subst r.
        exfalso. apply Hfresh. now apply (Hfk x). }
      pose proof (@filter_update_key_le _ booking_id b
                    (on_ride (ride_id (new_ride c p d db)))
                    (set_booking_ride (ride_id (new_ride c p d db)) CONFIRMED)
                    _ Hbk) as Hle.
      rewrite Hnone in Hle. cbn [List.length] in Hle.
      unfold find_driver in Hv. apply (find_key_some driver_id) in Hv.
      destruct Hv as [Hvin _].
      pose proof (@seats_positive v (Hcap v Hvin)). lia.
Qed.

Lemma seated_joined (db : DB) (trip : Ride) (b : BookingId)
  (newPath : list Point) :
  seated db ->
  NoDup (map ride_id (rides db)) -> In trip (rides db) ->
  (forall v, find_driver (driverId trip) db = Some v ->
             (Z.of_nat (List.length (bookings_of (ride_id trip) db))
              < seats v)%Z) ->
  seated (joined (ride_id trip) b newPath db).
Proof.
  intros [Hbk Hfk Hcap Hseat] Hrk Htrip Hfree.
  constructor.
  - unfold joined. cbn [bookings with_bookings with_rides].
    now rewrite map_update_where by reflexivity.
  - intros x r Hin Hr. unfold joined in *.
    cbn [bookings rides with_bookings with_rides] in *.
    rewrite map_update_where by reflexivity.
    apply In_update_where in Hin. destruct Hin as [y [Hy ->]].
    destruct (booking_id y =? b).
    + cbn in Hr. injection Hr as <-. now apply in_map.
    + now apply (Hfk y).
  - exact Hcap.
  - intros t v Hin Hv.
    change (find_driver (driverId t) (joined (ride_id trip) b newPath db))
      with (find_driver (driverId t) db) in Hv.
    unfold bookings_of, joined in *.
    cbn [bookings rides with_bookings with_rides] in *.
    apply In_update_where in Hin. destruct Hin as [x [Hx ->]].
    replace (ride_id (if ride_id x =? ride_id trip
                      then set_ride_path newPath x else x))
      with (ride_id x) by now destruct (ride_id x =? ride_id trip).
    replace (driverId (if ride_id x =? ride_id trip
                       then set_ride_path newPath x else x))
      with (driverId x) in Hv by now destruct (ride_id x =? ride_id trip).
    destruct (ride_id x =? ride_id trip) eqn:E.
    + apply Nat.eqb_eq in E.
      assert (x = trip) by now apply (NoDup_key_eq ride_id (rides db)).
      subst x. specialize (Hfree v Hv).
      pose proof (@filter_update_key_le _ booking_id b
                    (on_ride (ride_id trip))
                    (set_booking_ride (ride_id trip) CONFIRMED) _ Hbk) as Hle.
      lia.
    + etransitivity; [|apply (Hseat x v Hx Hv)].
      apply inj_le. apply filter_update_le.
      intros y _. unfold on_ride, set_booking_ride. cbn [rideId].
      apply Nat.eqb_neq. apply Nat.eqb_neq in E. congruence.
Qed.

Lemma perform_seated (rt : JSRuntime) (op : Operation) (db : DB) :
  consistent db -> seated db -> seated (perform rt op db).
Proof.
  intros Hc Hs. destruct op as [b p d | id]; unfold perform.
  - rewrite run_matchRide.
    destruct (load_rides db (filter is_scheduled (rides db))) as [rs|] eqn:Hl;
      [|exact Hs].
    destruct (scanRides rt rs p d) as [r|] eqn:Hscan.
    + destruct (scanRides_some _ _ _ _ Hscan) as [ri [Hin [<- [Hcap _]]]].
      destruct (load_rides_In _ _ _ Hl Hin) as [Hr [Hbs Hdrv]].
      apply filter_In in Hr. destruct Hr as [Hr Hsch].
      rewrite (find_ride_unique db (ri_ride ri) (ride_keys Hc) Hr).
      destruct (find_booking b db); [|exact Hs].
      cbn [fst]. apply seated_joined; try assumption; [apply (ride_keys Hc)|].
      intros v Hv. rewrite Hdrv in Hv. injection Hv as <-.
      unfold capacity_reached in Hcap. rewrite Hbs, Z.geb_leb in Hcap.
      now apply Z.leb_gt in Hcap.
    + destruct (firstn 5 (filter is_available (drivers db)))
        as [|c rest] eqn:Ec; [exact Hs|].
      assert (Hcin : In c (drivers db) /\ is_available c = true).
      { apply filter_In. apply (In_firstn 5). rewrite Ec. now left. }
      destruct Hcin as [Hcin Hav].
      rewrite run_claimLoop_cons.
      assert (Hpos : 0 < claim_count (driver_id c) db).
      { apply claim_count_positive. now exists c. }
      apply Nat.ltb_lt in Hpos as Hlt. rewrite Hlt.
      destruct (find_booking b db).
      * cbn [fst]. now apply seated_opened, seated_claimed.
      * destruct (find_driver_claimed _ _ Hpos) as [v ->]. cbn [fst].
        rewrite released_claimed; try assumption. apply (driver_keys Hc).
  - rewrite run_cancelBooking.
    destruct (find_booking id db) as [b|] eqn:Hb; [|exact Hs].
    destruct (is_cancelled b); [exact Hs|].
    rewrite (cancelTx_commits _ _ Hb).
    destruct (rideId b) as [r|]; [|now apply seated_marked].
    destruct (find_ride r db) as [trip|]; [|now apply seated_marked].
    destruct (other_active id r db); [|now apply seated_marked].
    destruct (find_driver (driverId trip) db); [|exact Hs].
    cbn [fst]. now apply seated_closed, seated_marked.
Qed.

Lemma perform_all_seated (rt : JSRuntime) (ops : list Operation) (db : DB) :
  consistent db -> seated db -> seated (perform_all rt ops db).
Proof.
  revert db. induction ops as [|op ops IH]; intros db Hc Hs; [exact Hs|].
  change (perform_all rt (op :: ops) db)
    with (perform_all rt ops (perform rt op db)).
  apply IH.
  - apply (transition_consistent Hc). now apply perform_transition.
  - now apply perform_seated.
Qed.

Lemma initial_seated (db : DB) :
  initial_state db ->
  NoDup (map booking_id (bookings db)) ->
  (forall v, In v (drivers db) -> (0 <= capacity v)%Z) ->
  seated db.
Proof.
  intros [Hr [_ [_ Hnone]]] Hbk Hcap.
  constructor; try assumption.
  - intros b r Hin Hrid. rewrite (Hnone b Hin) in Hrid. discriminate.
  - intros trip v Hin. rewrite Hr in Hin. contradiction.
Qed.

(** X14: requests served one after the other never overfill a trip.
    From a consistent store where request ids are keys, every attached
    request names a trip, no capacity is negative and no trip has more
    attached requests than seats, after any sequence of match and cancel
    operations every trip still has at most as many attached requests,
    CANCELLED ones included, as its vehicle has seats (its capacity, or 4
    when the capacity is 0). *)
Theorem sequential_operations_within_seats (rt : JSRuntime) (db0 : DB)
  (ops : list Operation) :
  consistent db0 -> seated db0 ->
  forall trip v,
    In trip (rides (perform_all rt ops db0)) ->
    find_driver (driverId trip) (perform_all rt ops db0) = Some v ->
    (Z.of_nat (List.length (bookings_of (ride_id trip)
                              (perform_all rt ops db0)))
     <= seats v)%Z.
Proof.
  intros Hc Hs.
  apply (within_seats (perform_all_seated rt ops Hc Hs)).
Qed.

Lemma seated_one_vehicle : seated Examples.one_vehicle.
Proof.
  apply initial_seated; [apply initial_one_vehicle | |].
  - cbn. repeat constructor; cbn; intuition discriminate.
  - intros v [<- | []]. cbn. lia.
Qed.

Lemma sequential_operations_within_seats_witness :
  Z.le
    (Z.of_nat
       (List.length
          (bookings_of
             (ride_id (Examples.ride 1 1 SCHEDULED
                         [Examples.A; Examples.B; Examples.A; Examples.B]))
             (perform_all RefRuntime.runtime
                [MatchRequest 1 Examples.A Examples.B;
                 MatchRequest 2 Examples.A Examples.B]
                Examples.one_vehicle))))
    (seats (Examples.driver 1 BUSY)).
Proof.
  apply (@sequential_operations_within_seats RefRuntime.runtime
           Examples.one_vehicle
           [MatchRequest 1 Examples.A Examples.B;
            MatchRequest 2 Examples.A Examples.B]
           (initial_consistent initial_one_vehicle) seated_one_vehicle).
  - vm_compute. left. reflexivity.
  - vm_compute. reflexivity.
Defined.
